(** * Buzzword translator: the search engine of [script.js]

    A shallow embedding of the matching and ranking code of
    [BuzzwordSearchEngine] (script.js) and of the dictionary load check,
    followed by the properties stated about them.

    Conventions of the embedding.
    - A JavaScript string is a [string]: a sequence of code units below 256
      (Latin-1).  Character classes of the regular expressions and
      [toLowerCase] are written out on code units.
    - A JavaScript number that holds a score is a [float] (binary64, the
      kernel's primitive floats, whose operations are those of IEEE 754 as in
      JavaScript).  Lengths, indices and edit distances are [nat]; they enter
      floating-point arithmetic through [of_nat].
    - A field that may be absent ([undefined]) is an [option].
    - A thrown exception is [None] (or the dedicated constructor of the
      result type).
    - [Array.prototype.sort] is any function that meets what ECMAScript asks
      of it; the search takes it as its first argument. *)

From Stdlib Require Import ZArith NArith List String Ascii Bool Lia Permutation.
From Stdlib Require Import Floats.
Import ListNotations.

Set Warnings "-inexact-float".

#[local] Open Scope string_scope.
#[local] Open Scope bool_scope.

(** ** Strings *)

Module JSString.

Definition code (c : ascii) : N := N_of_ascii c.

(** [\s] of a regular expression and the characters [trim] removes:
    TAB, LF, VT, FF, CR, SPACE and NO-BREAK SPACE. *)
Definition isWhitespace (c : ascii) : bool :=
  let n := code c in
  ((9 <=? n)%N && (n <=? 13)%N) || (n =? 32)%N || (n =? 160)%N.

(** [[\x00-\x1F\x7F]] *)
Definition isControl (c : ascii) : bool :=
  let n := code c in (n <=? 31)%N || (n =? 127)%N.

(** The class of the first [replace]: less-than (60), greater-than (62),
    double quote (34), apostrophe (39) and ampersand (38). *)
Definition isMarkup (c : ascii) : bool :=
  let n := code c in
  (n =? 60)%N || (n =? 62)%N || (n =? 34)%N || (n =? 39)%N || (n =? 38)%N.

(** [[a-zA-Z]] *)
Definition isLetter (c : ascii) : bool :=
  let n := code c in
  ((65 <=? n)%N && (n <=? 90)%N) || ((97 <=? n)%N && (n <=? 122)%N).

(** [toLowerCase] on one code unit: A-Z, and the Latin-1 capitals
    U+00C0..U+00DE except the multiplication sign U+00D7. *)
Definition lowerChar (c : ascii) : ascii :=
  let n := code c in
  if ((65 <=? n)%N && (n <=? 90)%N)
     || ((192 <=? n)%N && (n <=? 222)%N && negb (n =? 215)%N)
  then ascii_of_N (n + 32) else c.

Fixpoint toLowerCase (s : string) : string :=
  match s with
  | EmptyString => EmptyString
  | String c s' => String (lowerChar c) (toLowerCase s')
  end.

(** [s.replace(/[...]/g, '')] for a character class [p]. *)
Fixpoint removeAll (p : ascii -> bool) (s : string) : string :=
  match s with
  | EmptyString => EmptyString
  | String c s' => if p c then removeAll p s' else String c (removeAll p s')
  end.

(** [s.replace(/\s+/g, ' ')]; [inRun] tells that the previous character was
    part of the run being replaced. *)
Fixpoint collapseFrom (inRun : bool) (s : string) : string :=
  match s with
  | EmptyString => EmptyString
  | String c s' =>
      if isWhitespace c
      then if inRun then collapseFrom true s'
           else String " " (collapseFrom true s')
      else String c (collapseFrom false s')
  end.

Definition collapseWhitespace (s : string) : string := collapseFrom false s.

Fixpoint trimStart (s : string) : string :=
  match s with
  | EmptyString => EmptyString
  | String c s' => if isWhitespace c then trimStart s' else s
  end.

Fixpoint trimEnd (s : string) : string :=
  match s with
  | EmptyString => EmptyString
  | String c s' =>
      match trimEnd s' with
      | EmptyString => if isWhitespace c then EmptyString else String c EmptyString
      | t => String c t
      end
  end.

Definition trim (s : string) : string := trimEnd (trimStart s).

Definition startsWithWhitespace (s : string) : bool :=
  match s with
  | EmptyString => false
  | String c _ => isWhitespace c
  end.

(** [s.split(/\s+/)]: the pieces between runs of whitespace, an empty piece
    where the string starts or ends with a run. *)
Fixpoint splitWhitespace (s : string) : list string :=
  match s with
  | EmptyString => [EmptyString]
  | String c s' =>
      let r := splitWhitespace s' in
      if isWhitespace c
      then if startsWithWhitespace s' then r else EmptyString :: r
      else match r with
           | w :: ws => String c w :: ws
           | [] => [String c EmptyString]
           end
  end.

Fixpoint startsWith (s p : string) : bool :=
  match p, s with
  | EmptyString, _ => true
  | String a p', String b s' => Ascii.eqb a b && startsWith s' p'
  | String _ _, EmptyString => false
  end.

(** [s.includes(sub)] *)
Fixpoint includes (s sub : string) : bool :=
  startsWith s sub
  || match s with
     | EmptyString => false
     | String _ s' => includes s' sub
     end.

(** [/[a-zA-Z]/.test(s)] *)
Fixpoint hasLetter (s : string) : bool :=
  match s with
  | EmptyString => false
  | String c s' => isLetter c || hasLetter s'
  end.

Fixpoint allChars (p : ascii -> bool) (s : string) : bool :=
  match s with
  | EmptyString => true
  | String c s' => p c && allChars p s'
  end.

Fixpoint anyChar (p : ascii -> bool) (s : string) : bool :=
  match s with
  | EmptyString => false
  | String c s' => p c || anyChar p s'
  end.

Definition isEmpty (s : string) : bool :=
  match s with EmptyString => true | _ => false end.

(** [[...new Set(xs)]]: the first occurrence of every element, in order. *)
Fixpoint dedupe (seen : list string) (xs : list string) : list string :=
  match xs with
  | [] => []
  | x :: xs' =>
      if existsb (String.eqb x) seen then dedupe seen xs'
      else x :: dedupe (x :: seen) xs'
  end.

End JSString.
Import JSString.

(** ** Numbers *)

Module JSNumber.

#[local] Open Scope float_scope.

(** A length or a count as a number (exact for every length a string or an
    array can have). *)
Definition of_nat (n : nat) : float := PrimFloat.of_uint63 (Uint63.of_Z (Z.of_nat n)).

(** [Math.min(a, b)]: [NaN] when either is; [-0] is below [+0]. *)
Definition Math_min (a b : float) : float :=
  if is_nan a then a
  else if is_nan b then b
  else if b <? a then b
  else if a <? b then a
  else if get_sign a then a else b.

(** [Math.max(a, b)] *)
Definition Math_max (a b : float) : float :=
  if is_nan a then a
  else if is_nan b then b
  else if a <? b then b
  else if b <? a then a
  else if get_sign a then b else a.

(** The sign of the number a comparator returns, which is all
    [Array.prototype.sort] looks at ([NaN] counts as [+0]). *)
Definition signOf (v : float) : comparison :=
  if v <? 0 then Lt else if 0 <? v then Gt else Eq.

End JSNumber.
Import JSNumber.

(** ** Data model *)

Inductive MatchType : Type :=
| no_match          (* the empty string: no rule applied *)
| exact
| phrase_contains
| query_contains
| keyword
| fuzzy.

Definition MatchType_eqb (a b : MatchType) : bool :=
  match a, b with
  | no_match, no_match | exact, exact | phrase_contains, phrase_contains
  | query_contains, query_contains | keyword, keyword | fuzzy, fuzzy => true
  | _, _ => false
  end.

(** An entry of [buzzwords.js]. *)
Record Buzzword : Type := {
  phrase : option string;
  translation : option string;
  keywords : option (list string);
  category : option string;
  alternatives : option (list string);
  context : option string;
  multipleMeanings : option (list (string * option string))
}.

(** The object [calculateRelevanceScore] returns ([match_] is its field
    [match]). *)
Record SearchResult : Type := {
  match_ : string;
  res_translation : option string;
  relevanceScore : float;
  matchedKeywords : list string;
  res_category : option string;
  res_context : option string;
  res_alternatives : option (list string);
  res_multipleMeanings : option (list (string * option string));
  matchType : MatchType
}.

(** [!x] is false: [x] is a string and not the empty one. *)
Definition truthy (x : option string) : bool :=
  match x with
  | Some s => negb (isEmpty s)
  | None => false
  end.

(** ** Matcher *)

Section Matcher.

#[local] Open Scope float_scope.

(** The inner loop of [levenshteinDistance] for one row [i]: [prev] is row
    [i-1] from column [j-1] on, [left] is [matrix[i][j-1]], [str1] what is
    left of the first string from position [j-1] on. *)
Fixpoint fillRow (c2 : ascii) (str1 : string) (prev : list nat) (left : nat)
  : list nat :=
  match str1, prev with
  | String c1 rest, diag :: ((up :: _) as prev') =>
      let v := if Ascii.eqb c2 c1 then diag
               else Nat.min (Nat.min (diag + 1) (left + 1)) (up + 1) in
      v :: fillRow c2 rest prev' v
  | _, _ => []
  end.

(** The outer loop: rows [i], [i+1], ... for what is left of [str2]; every
    row starts with [matrix[i][0] = i]. *)
Fixpoint fillMatrix (str2 str1 : string) (i : nat) (prev : list nat)
  : list (list nat) :=
  match str2 with
  | EmptyString => []
  | String c2 rest =>
      let row := i :: fillRow c2 str1 prev i in
      row :: fillMatrix rest str1 (S i) row
  end.

Definition levenshteinMatrix (str1 str2 : string) : list (list nat) :=
  let row0 := seq 0 (S (String.length str1)) in
  row0 :: fillMatrix str2 str1 1 row0.

Definition levenshteinDistance (str1 str2 : string) : nat :=
  nth (String.length str1)
      (nth (String.length str2) (levenshteinMatrix str1 str2) []) 0%nat.

(** The loop that adds [0.1] per common leading character. *)
Fixpoint prefixBonus (str1 str2 : string) (bonus : float) : float :=
  match str1, str2 with
  | String a s1, String b s2 =>
      if Ascii.eqb a b then prefixBonus s1 s2 (bonus + 0.1) else bonus
  | _, _ => bonus
  end.

(** The field [score] of the object [calculateFuzzyMatch] returns. *)
Definition calculateFuzzyMatch (str1 str2 : string) : float :=
  let distance := levenshteinDistance str1 str2 in
  let maxLength := Nat.max (String.length str1) (String.length str2) in
  if Nat.eqb maxLength 0 then 1.0
  else
    let similarity := 1 - of_nat distance / of_nat maxLength in
    Math_min 1.0 (similarity + prefixBonus str1 str2 0).

Record KeywordMatchResult : Type := {
  score : float;
  matches : list string
}.

(** Body of [buzzword.keywords.forEach] for one [queryWord]; the state is
    [(bestMatch, bestKeyword)]. *)
Definition keywordStep (queryWord : string) (st : float * string)
           (keyword_ : string) : float * string :=
  let '(bestMatch, bestKeyword) := st in
  let keywordLower := toLowerCase keyword_ in
  if String.eqb keywordLower queryWord then (Math_max bestMatch 1.0, queryWord)
  else if includes keywordLower queryWord then (Math_max bestMatch 0.8, queryWord)
  else if includes queryWord keywordLower then (Math_max bestMatch 0.7, queryWord)
  else
    let fuzzyScore := calculateFuzzyMatch keywordLower queryWord in
    if 0.6 <? fuzzyScore
    then (Math_max bestMatch (fuzzyScore * 0.5), queryWord)
    else st.

(** Body of [queryWords.forEach]; the state is
    [(totalMatches, matchedKeywords)]. *)
Definition queryWordStep (kws : list string) (st : float * list string)
           (queryWord : string) : float * list string :=
  let '(totalMatches, matched) := st in
  let '(bestMatch, bestKeyword) :=
    fold_left (keywordStep queryWord) kws (0, EmptyString) in
  if 0 <? bestMatch
  then (totalMatches + bestMatch, (matched ++ [bestKeyword])%list)
  else st.

Definition keywordScore (totalMatches : float) (nWords nKeywords : nat) : float :=
  if 0 <? totalMatches
  then Math_min 0.85
         (0.4 + (totalMatches / of_nat (Nat.max nWords nKeywords)) * 0.45)
  else 0.

(** [None]: the [TypeError] of [buzzword.keywords.forEach] on an entry
    without keywords (raised once there is a query word to loop on). *)
Definition calculateKeywordMatches (buzzword : Buzzword)
           (queryWords : list string) : option KeywordMatchResult :=
  match queryWords, keywords buzzword with
  | [], _ => Some {| score := 0; matches := [] |}
  | _ :: _, None => None
  | _ :: _, Some kws =>
      let '(totalMatches, matched) :=
        fold_left (queryWordStep kws) queryWords (0, []) in
      Some {| score := keywordScore totalMatches (List.length queryWords)
                                    (List.length kws);
              matches := matched |}
  end.

(** Rules 1 to 4: [Some (relevanceScore, matchedKeywords, matchType)], or
    [None] when rule 4 throws. *)
Definition firstRules (buzzword : Buzzword) (phrase_ normalizedQuery : string)
           (queryWords : list string)
  : option (float * list string * MatchType) :=
  if String.eqb phrase_ normalizedQuery
  then Some (1.0, [normalizedQuery], exact)
  else if includes phrase_ normalizedQuery
  then Some (0.95, [normalizedQuery], phrase_contains)
  else if includes normalizedQuery phrase_
  then Some (0.9, [phrase_], query_contains)
  else
    match calculateKeywordMatches buzzword queryWords with
    | None => None
    | Some keywordMatchResult =>
        if 0 <? score keywordMatchResult
        then Some (score keywordMatchResult, matches keywordMatchResult, keyword)
        else Some (0, [], no_match)
    end.

(** Rule 5, applied when rules 1 to 4 left the score at [0]. *)
Definition fuzzyRule (phrase_ normalizedQuery : string)
           (st : float * list string * MatchType)
  : float * list string * MatchType :=
  let '(relevance, _, _) := st in
  if relevance =? 0
  then
    let fuzzyResult := calculateFuzzyMatch phrase_ normalizedQuery in
    if 0.3 <? fuzzyResult
    then (fuzzyResult * 0.6, [normalizedQuery], fuzzy)
    else st
  else st.

(** [None]: an exception ([toLowerCase] of an absent phrase, or rule 4). *)
Definition calculateRelevanceScore (buzzword : Buzzword)
           (normalizedQuery : string) (queryWords : list string)
  : option SearchResult :=
  match phrase buzzword with
  | None => None
  | Some p =>
      let phrase_ := toLowerCase p in
      match firstRules buzzword phrase_ normalizedQuery queryWords with
      | None => None
      | Some st =>
          let '(relevance, matched, mtype) :=
            fuzzyRule phrase_ normalizedQuery st in
          Some {| match_ := p;
                  res_translation := translation buzzword;
                  relevanceScore := relevance;
                  matchedKeywords := dedupe [] matched;
                  res_category := category buzzword;
                  res_context := context buzzword;
                  res_alternatives := alternatives buzzword;
                  res_multipleMeanings := multipleMeanings buzzword;
                  matchType := mtype |}
      end
  end.

End Matcher.

(** ** Sorting

    [Array.prototype.sort(comparefn)].  A comparator is read through the sign
    of the number it returns: [Lt] negative, [Eq] zero, [Gt] positive.
    ECMAScript fixes the sorted array in part only.  It always holds the
    elements of the array.  When [comparefn] is a consistent comparison
    function for them, no element comes after one that the comparator puts
    behind it; when it is not, the order is left to the implementation.
    (Since ECMAScript 2019 elements that compare equal also keep their order;
    nothing below relies on it, and it is not written.) *)

Section ComparisonFunctions.

Context {A : Type}.
Variable cmp : A -> A -> comparison.

Definition isLt (c : comparison) : bool :=
  match c with Lt => true | _ => false end.

Definition isEq (c : comparison) : bool :=
  match c with Eq => true | _ => false end.

Definition isGt (c : comparison) : bool :=
  match c with Gt => true | _ => false end.

(** [comparefn] is a consistent comparison function for the values of [l]:
    every value is equal to itself, [a = b] gives [b = a], and each of
    [=], [<] and [>] is transitive. *)
Definition consistentOn (l : list A) : bool :=
  forallb (fun a => isEq (cmp a a)) l
  && forallb (fun a =>
       forallb (fun b => implb (isEq (cmp a b)) (isEq (cmp b a))) l) l
  && forallb (fun a =>
       forallb (fun b =>
         forallb (fun c =>
           implb (isEq (cmp a b) && isEq (cmp b c)) (isEq (cmp a c))
           && implb (isLt (cmp a b) && isLt (cmp b c)) (isLt (cmp a c))
           && implb (isGt (cmp a b) && isGt (cmp b c)) (isGt (cmp a c))) l) l) l.

(** The order of a sorted array: no element is followed, next to it or
    further on, by one that the comparator puts before it. *)
Fixpoint inOrder (l : list A) : bool :=
  match l with
  | [] => true
  | a :: l' => forallb (fun b => negb (isLt (cmp b a))) l' && inOrder l'
  end.

End ComparisonFunctions.

(** What ECMAScript asks of [Array.prototype.sort]. *)
Record ArraySort : Type := {
  sort : forall A : Type, (A -> A -> comparison) -> list A -> list A;
  sort_permutation :
    forall (A : Type) (cmp : A -> A -> comparison) (l : list A),
      Permutation (sort A cmp l) l;
  sort_inOrder :
    forall (A : Type) (cmp : A -> A -> comparison) (l : list A),
      consistentOn cmp l = true -> inOrder cmp (sort A cmp l) = true
}.

Arguments sort _ {A} _ _.

(** A sort that meets it: the straight insertion sort, an element moving
    behind another only when the comparator asks for it.  It serves to run
    the search on examples. *)
Fixpoint insertSorted {A : Type} (cmp : A -> A -> comparison) (x : A)
         (l : list A) : list A :=
  match l with
  | [] => [x]
  | y :: l' =>
      match cmp x y with
      | Gt => y :: insertSorted cmp x l'
      | _ => x :: l
      end
  end.

Definition sortBy {A : Type} (cmp : A -> A -> comparison) (l : list A) : list A :=
  fold_right (insertSorted cmp) [] l.

Section InsertionSort.

Context {A : Type}.
Variable cmp : A -> A -> comparison.

Lemma insertSorted_perm (x : A) (l : list A) :
  Permutation (insertSorted cmp x l) (x :: l).
Proof.
  induction l as [|y l IH]; simpl; [reflexivity|].
  destruct (cmp x y); try reflexivity.
  rewrite IH. apply perm_swap.
Qed.

Lemma sortBy_perm (l : list A) : Permutation (sortBy cmp l) l.
Proof.
  induction l as [|x l IH]; simpl; [reflexivity|].
  now rewrite insertSorted_perm, IH.
Qed.

(** What consistency gives on three values of the list. *)
Lemma consistentOn_spec (l : list A) :
  consistentOn cmp l = true ->
  forall a b c, In a l -> In b l -> In c l ->
    cmp a a = Eq
    /\ (cmp a b = Eq -> cmp b a = Eq)
    /\ (cmp a b = Eq -> cmp b c = Eq -> cmp a c = Eq)
    /\ (cmp a b = Lt -> cmp b c = Lt -> cmp a c = Lt)
    /\ (cmp a b = Gt -> cmp b c = Gt -> cmp a c = Gt).
Proof.
  unfold consistentOn. intros H a b c Ha Hb Hc.
  apply andb_prop in H. destruct H as [H H3].
  apply andb_prop in H. destruct H as [H1 H2].
  rewrite forallb_forall in H1, H2, H3.
  specialize (H1 a Ha). specialize (H2 a Ha). specialize (H3 a Ha).
  rewrite forallb_forall in H2, H3.
  specialize (H2 b Hb). specialize (H3 b Hb).
  rewrite forallb_forall in H3. specialize (H3 c Hc).
  destruct (cmp a a), (cmp a b), (cmp b a), (cmp b c), (cmp a c);
    simpl in *; repeat split; congruence.
Qed.

(** In a consistent comparison the one that is not behind is not before. *)
Lemma consistent_not_before (l : list A) (x y : A) :
  consistentOn cmp l = true -> In x l -> In y l ->
  cmp x y <> Gt -> cmp y x <> Lt.
Proof.
  intros H Hx Hy Hxy Hyx.
  destruct (consistentOn_spec l H x y x Hx Hy Hx) as (Hxx & Hs & _ & Hlt & _).
  destruct (consistentOn_spec l H y x y Hy Hx Hy) as (_ & _ & _ & Hlt' & _).
  destruct (cmp x y) eqn:E; try congruence.
  - specialize (Hs eq_refl). congruence.
  - specialize (Hlt eq_refl Hyx). congruence.
Qed.

(** Nor is anything that is not before the second before the first. *)
Lemma consistent_chain (l : list A) (x y b : A) :
  consistentOn cmp l = true -> In x l -> In y l -> In b l ->
  cmp x y <> Gt -> cmp b y <> Lt -> cmp b x <> Lt.
Proof.
  intros H Hx Hy Hb Hxy Hby Hbx.
  destruct (consistentOn_spec l H b x y Hb Hx Hy) as (_ & _ & _ & Hlt & _).
  destruct (consistentOn_spec l H x b y Hx Hb Hy) as (_ & Hsxb & _ & _ & Hgt).
  destruct (consistentOn_spec l H b y x Hb Hy Hx) as (_ & Hsby & Heq & _ & _).
  destruct (consistentOn_spec l H x y b Hx Hy Hb) as (_ & Hsxy & _ & _ & _).
  destruct (consistentOn_spec l H b x b Hb Hx Hb) as (Hbb & _ & _ & Hlt' & _).
  destruct (cmp x y) eqn:Exy; try congruence.
  - (* x = y *)
    destruct (cmp b y) eqn:Eby; try congruence.
    + specialize (Heq eq_refl (Hsxy eq_refl)). congruence.
    + destruct (cmp x b) eqn:Exb.
      * specialize (Hsxb eq_refl). congruence.
      * specialize (Hlt' Hbx eq_refl). congruence.
      * specialize (Hgt eq_refl eq_refl). congruence.
  - (* x < y *)
    specialize (Hlt Hbx eq_refl). congruence.
Qed.

Lemma inOrder_cons (a : A) (l : list A) :
  inOrder cmp (a :: l) = true
  <-> (forall b, In b l -> cmp b a <> Lt) /\ inOrder cmp l = true.
Proof.
  cbn [inOrder]. rewrite andb_true_iff, forallb_forall. split.
  - intros [H1 H2]. split; [|exact H2]. intros b Hb E.
    specialize (H1 b Hb). rewrite E in H1. discriminate.
  - intros [H1 H2]. split; [|exact H2]. intros b Hb.
    specialize (H1 b Hb). now destruct (cmp b a).
Qed.

Lemma insertSorted_inOrder (all : list A) (x : A) (l : list A) :
  consistentOn cmp all = true -> In x all -> incl l all ->
  inOrder cmp l = true -> inOrder cmp (insertSorted cmp x l) = true.
Proof.
  intros H Hx. induction l as [|y l IH]; intros Hl Ho; [reflexivity|].
  assert (Hy : In y all) by (apply Hl; now left).
  assert (Hl' : incl l all) by (intros z Hz; apply Hl; now right).
  apply inOrder_cons in Ho. destruct Ho as [Hy' Ho].
  cbn [insertSorted].
  assert (Hfront : cmp x y <> Gt -> inOrder cmp (x :: y :: l) = true).
  { intro Hxy. apply inOrder_cons. split.
    - intros b [<-|Hb].
      + exact (consistent_not_before all x y H Hx Hy Hxy).
      + apply (consistent_chain all x y b H Hx Hy (Hl' b Hb) Hxy).
        now apply Hy'.
    - apply inOrder_cons. now split. }
  destruct (cmp x y) eqn:E.
  - apply Hfront. discriminate.
  - apply Hfront. discriminate.
  - apply inOrder_cons. split; [|now apply IH].
    intros b Hb.
    apply (Permutation_in _ (insertSorted_perm x l)) in Hb.
    destruct Hb as [<-|Hb]; [congruence|now apply Hy'].
Qed.

Lemma sortBy_inOrder (l : list A) :
  consistentOn cmp l = true -> inOrder cmp (sortBy cmp l) = true.
Proof.
  intro H.
  assert (G : forall l', incl l' l -> inOrder cmp (sortBy cmp l') = true).
  { induction l' as [|x l' IH]; intro Hl; [reflexivity|].
    cbn [sortBy fold_right]. apply (insertSorted_inOrder l); [exact H| | |].
    - apply Hl. now left.
    - intros z Hz. apply (Permutation_in _ (sortBy_perm l')) in Hz.
      apply Hl. now right.
    - apply IH. intros z Hz. apply Hl. now right. }
  apply G, incl_refl.
Qed.

End InsertionSort.

Definition insertionSort : ArraySort :=
  {| sort := @sortBy;
     sort_permutation := @sortBy_perm;
     sort_inOrder := @sortBy_inOrder |}.

(** ** Ranker *)

Section Ranker.

#[local] Open Scope float_scope.

(** The [sort] of the engine that runs the script. *)
Variable engine : ArraySort.

(** The callback of [this.buzzwords.filter] that computes
    [relevantBuzzwords]. *)
Definition isRelevant (normalizedQuery : string) (queryWords : list string)
           (buzzword : Buzzword) : bool :=
  match phrase buzzword with
  | None => false
  | Some p =>
      if isEmpty p then false
      else
        let phrase_ := toLowerCase p in
        includes phrase_ normalizedQuery
        || existsb (fun word => includes phrase_ word) queryWords
        || match keywords buzzword with
           | None => false
           | Some kws =>
               existsb
                 (fun keyword_ =>
                    includes (toLowerCase keyword_) normalizedQuery
                    || existsb (fun word => includes (toLowerCase keyword_) word)
                               queryWords)
                 kws
           end
  end.

(** Body of [relevantBuzzwords.forEach]: the result is pushed when its score
    exceeds [0.1]; an exception is caught and the entry skipped. *)
Definition scoreEntry (normalizedQuery : string) (queryWords : list string)
           (results : list SearchResult) (buzzword : Buzzword)
  : list SearchResult :=
  match calculateRelevanceScore buzzword normalizedQuery queryWords with
  | Some searchResult =>
      if 0.1 <? relevanceScore searchResult
      then (results ++ [searchResult])%list
      else results
  | None => results
  end.

(** The comparator handed to [sort], as the sign of the number it returns:
    [Lt] puts [a] first, [Gt] puts [b] first.  The number is never NaN: the
    difference of the scores is returned only when its absolute value exceeds
    [0.01]. *)
Definition compareResults (a b : SearchResult) : comparison :=
  let scoreDiff := relevanceScore b - relevanceScore a in
  if 0.01 <? abs scoreDiff then signOf scoreDiff
  else if MatchType_eqb (matchType a) exact
          && negb (MatchType_eqb (matchType b) exact) then Lt
  else if MatchType_eqb (matchType b) exact
          && negb (MatchType_eqb (matchType a) exact) then Gt
  else if MatchType_eqb (matchType a) phrase_contains
          && negb (MatchType_eqb (matchType b) phrase_contains) then Lt
  else if MatchType_eqb (matchType b) phrase_contains
          && negb (MatchType_eqb (matchType a) phrase_contains) then Gt
  else Nat.compare (String.length (match_ a)) (String.length (match_ b)).

(** The array [results] when the loop over the candidate entries is over. *)
Definition scoredResults (candidates : list Buzzword) (normalizedQuery : string)
           (queryWords : list string) : list SearchResult :=
  fold_left (scoreEntry normalizedQuery queryWords) candidates [].

(** Scoring, thresholding, sorting and [slice(0, 10)] of a list of
    candidate entries.  The [filter] between the loop and the sort keeps every
    result (each is an object with a numeric score) and is not written. *)
Definition rankEntries (candidates : list Buzzword) (normalizedQuery : string)
           (queryWords : list string) : list SearchResult :=
  let results := scoredResults candidates normalizedQuery queryWords in
  firstn 10 (sort engine compareResults results).

(** [None]: the [Error] thrown on an empty query. *)
Definition searchWithFuzzyMatching (buzzwords : list Buzzword) (query : string)
  : option (list SearchResult) :=
  if isEmpty query then None
  else
    let normalizedQuery := trim (toLowerCase query) in
    let queryWords :=
      filter (fun word => negb (Nat.eqb (String.length word) 0))
             (splitWhitespace normalizedQuery) in
    match queryWords with
    | [] => Some []
    | _ :: _ =>
        let relevantBuzzwords :=
          filter (isRelevant normalizedQuery queryWords) buzzwords in
        Some (rankEntries relevantBuzzwords normalizedQuery queryWords)
    end.

(** The ranker as the specification words it: the matcher applied to every
    dictionary entry, with no pre-filter. *)
Definition searchEveryEntry (buzzwords : list Buzzword) (query : string)
  : option (list SearchResult) :=
  if isEmpty query then None
  else
    let normalizedQuery := trim (toLowerCase query) in
    let queryWords :=
      filter (fun word => negb (Nat.eqb (String.length word) 0))
             (splitWhitespace normalizedQuery) in
    match queryWords with
    | [] => Some []
    | _ :: _ => Some (rankEntries buzzwords normalizedQuery queryWords)
    end.

End Ranker.

(** ** Input validation *)

Definition sanitizeInput (input : string) : string :=
  trim (removeAll isControl (collapseWhitespace (removeAll isMarkup input))).

Inductive ValidationMessage : Type :=
| msg_empty               (* 'empty' *)
| too_short
| too_long
| invalid_characters
| msg_valid.              (* 'valid' *)

Record Validation : Type := {
  valid : bool;
  sanitized : string;
  message : ValidationMessage
}.

Definition validateSearchInput (input : string) : Validation :=
  let sanitized_ := sanitizeInput input in
  if Nat.eqb (String.length sanitized_) 0
  then {| valid := true; sanitized := sanitized_; message := msg_empty |}
  else if Nat.ltb (String.length sanitized_) 2
  then {| valid := false; sanitized := sanitized_; message := too_short |}
  else if Nat.ltb 100 (String.length sanitized_)
  then {| valid := false; sanitized := sanitized_; message := too_long |}
  else if negb (hasLetter sanitized_)
  then {| valid := false; sanitized := sanitized_; message := invalid_characters |}
  else {| valid := true; sanitized := sanitized_; message := msg_valid |}.

(** What [performSearch] shows: the examples (empty query), a hint for an
    invalid query, the results of the search ([displayResults], or
    [showNoResults] on an empty list), or the error state when the search
    throws.  The cache only replays the list stored for the lower-cased
    sanitized query and is left out. *)
Inductive SearchOutcome : Type :=
| ShowExamples
| ShowHint (reason : ValidationMessage)
| ShowResults (results : list SearchResult)
| ShowErrorState.

Definition performSearch (engine : ArraySort) (buzzwords : list Buzzword)
           (query : string) : SearchOutcome :=
  let validation := validateSearchInput query in
  match message validation with
  | msg_empty => ShowExamples
  | _ =>
      if negb (valid validation) then ShowHint (message validation)
      else
        match searchWithFuzzyMatching engine buzzwords (sanitized validation) with
        | Some results => ShowResults results
        | None => ShowErrorState
        end
  end.

(** ** Dictionary load *)

(** The callback of [buzzwords.filter] in the [DOMContentLoaded] handler
    (entries are objects). *)
Definition isInvalidBuzzword (buzzword : Buzzword) : bool :=
  negb (truthy (phrase buzzword)) || negb (truthy (translation buzzword)).

Inductive LoadOutcome : Type :=
| LoadError           (* the handler throws and shows the error box *)
| Initialized (engineBuzzwords : list Buzzword).   (* [this.buzzwords] *)

(** The [DOMContentLoaded] handler followed by the constructor.
    [invalidBuzzwords.length > buzzwords.length * 0.5] is written on the
    integers: halving is exact in binary floating point. *)
Definition initialize (buzzwords : list Buzzword) : LoadOutcome :=
  if Nat.eqb (List.length buzzwords) 0 then LoadError
  else
    let invalidBuzzwords := filter isInvalidBuzzword buzzwords in
    if Nat.ltb (List.length buzzwords) (2 * List.length invalidBuzzwords)
    then LoadError
    else Initialized buzzwords.

(** ** Entries used in examples *)

Definition synergy : Buzzword :=
  {| phrase := Some "synergy";
     translation := Some "working together effectively";
     keywords := Some ["synergy"; "together"; "collaboration"; "teamwork"];
     category := Some "collaboration";
     alternatives := Some ["collaboration"; "teamwork"];
     context := Some "The idea that combined efforts produce better results than individual work";
     multipleMeanings := None |}.

Definition takeThisOffline : Buzzword :=
  {| phrase := Some "let's take this offline";
     translation := Some "discuss this privately or later";
     keywords := Some ["take"; "offline"; "private"; "later"; "separate"];
     category := Some "communication";
     alternatives := Some ["discuss privately"; "talk separately"];
     context := Some "Moving a conversation away from a group setting";
     multipleMeanings := None |}.

(** An entry with a phrase and an empty translation. *)
Definition leverageUntranslated : Buzzword :=
  {| phrase := Some "leverage";
     translation := Some "";
     keywords := Some ["leverage"; "use"; "advantage"; "utilize"];
     category := Some "strategy";
     alternatives := None;
     context := None;
     multipleMeanings := None |}.

(** Three entries that share the keyword [data] among 12, 10 and 9 keywords,
    with phrases of growing length. *)
Definition entryWith (phrase_ : string) (kws : list string) : Buzzword :=
  {| phrase := Some phrase_;
     translation := Some "a measure of something";
     keywords := Some kws;
     category := Some "analysis";
     alternatives := None;
     context := None;
     multipleMeanings := None |}.

Definition kpi : Buzzword :=
  entryWith "kpi"
    ["data"; "key"; "performance"; "indicator"; "measure"; "goal"; "target";
     "number"; "score"; "track"; "progress"; "result"].

Definition metrics : Buzzword :=
  entryWith "metrics"
    ["data"; "measure"; "numbers"; "statistics"; "figures"; "tracking";
     "measurement"; "count"; "rate"; "ratio"].

Definition dashboards : Buzzword :=
  entryWith "dashboards"
    ["data"; "charts"; "graphs"; "screen"; "overview"; "display"; "report";
     "visual"; "summary"].

(** Three entries for the query [synergy]: a phrase that contains it and two
    that are it up to letter case. *)
Definition synergies : list Buzzword :=
  [entryWith "synergy effects" ["together"];
   entryWith "Synergy" ["together"];
   entryWith "synergy" ["together"]].

(** Eleven entries whose phrases differ in letter case only. *)
Definition caseVariants : list Buzzword :=
  map (fun q => entryWith q ["together"])
      ["Synergy"; "sYnergy"; "syNergy"; "synErgy"; "syneRgy"; "synerGy";
       "synergY"; "SYnergy"; "SyNergy"; "SynErgy"; "synergy"].

(** ** Auxiliary notions used in the statements *)

(** What one entry adds to the results: its result when the matcher returns
    one that exceeds the threshold. *)
Definition keptResult (normalizedQuery : string) (queryWords : list string)
           (buzzword : Buzzword) : list SearchResult :=
  match calculateRelevanceScore buzzword normalizedQuery queryWords with
  | Some searchResult =>
      if (0.1 <? relevanceScore searchResult)%float then [searchResult] else []
  | None => []
  end.

(** [b] is strictly preferred to [a]: its score is higher by more than 0.01,
    or the scores are within 0.01 and [b] is the only exact match of the two,
    or neither that nor the converse and [b] is the only phrase-contains
    match, or none of these and the phrase of [b] is shorter. *)
Definition strictlyPreferred (b a : SearchResult) : bool :=
  let d := (relevanceScore b - relevanceScore a)%float in
  let isExact r := MatchType_eqb (matchType r) exact in
  let isContains r := MatchType_eqb (matchType r) phrase_contains in
  if (0.01 <? abs d)%float then negb (d <? 0)%float && (0 <? d)%float
  else if isExact a && negb (isExact b) then false
  else if isExact b && negb (isExact a) then true
  else if isContains a && negb (isContains b) then false
  else if isContains b && negb (isContains a) then true
  else Nat.ltb (String.length (match_ b)) (String.length (match_ a)).

(** The array [results] of a search for the sanitized query [query], as the
    loop leaves it and the sort finds it: the kept results in the order of the
    dictionary. *)
Definition candidateResults (buzzwords : list Buzzword) (query : string)
  : list SearchResult :=
  let normalizedQuery := trim (toLowerCase query) in
  let queryWords :=
    filter (fun word => negb (Nat.eqb (String.length word) 0))
           (splitWhitespace normalizedQuery) in
  match queryWords with
  | [] => []
  | _ :: _ =>
      scoredResults (filter (isRelevant normalizedQuery queryWords) buzzwords)
                    normalizedQuery queryWords
  end.

(** No result comes before one strictly preferred to it, next to it or
    further on. *)
Fixpoint ranked (l : list SearchResult) : bool :=
  match l with
  | [] => true
  | a :: l' => forallb (fun b => negb (strictlyPreferred b a)) l' && ranked l'
  end.

(** No result is immediately followed by one strictly preferred to it. *)
Fixpoint neighboursInOrder (l : list SearchResult) : Prop :=
  match l with
  | [] => True
  | a :: l' =>
      match l' with
      | [] => True
      | b :: _ => strictlyPreferred b a = false
      end /\ neighboursInOrder l'
  end.

(** An entry whose phrase is [p] up to letter case. *)
Definition samePhrase (p : string) (buzzword : Buzzword) : bool :=
  match phrase buzzword with
  | Some q => String.eqb (toLowerCase q) (toLowerCase p)
  | None => false
  end.

Definition isExactResult (r : SearchResult) : bool :=
  MatchType_eqb (matchType r) exact.

(** ** Shapes of strings used to state what sanitization achieves *)

(** No two whitespace characters next to each other. *)
Fixpoint noAdjacentWhitespace (s : string) : bool :=
  match s with
  | EmptyString => true
  | String a s' =>
      negb (isWhitespace a && startsWithWhitespace s') && noAdjacentWhitespace s'
  end.

(** A whitespace character other than the space character. *)
Definition isOddWhitespace (c : ascii) : bool :=
  isWhitespace c && negb (Ascii.eqb c " ").

(** A control character that is not whitespace. *)
Definition isBareControl (c : ascii) : bool :=
  isControl c && negb (isWhitespace c).

(** ** Sanitization as the specification words it

    The pieces of the input between its runs of whitespace, each without the
    five characters and without control characters, joined by single spaces;
    the empty pieces at the two ends go with the trim. *)

(** The characters of [s] outside the class [p], in order. *)
Definition without (p : ascii -> bool) (s : string) : string :=
  string_of_list_ascii
    (filter (fun c => negb (p c)) (list_ascii_of_string s)).

Fixpoint dropEmptyFront (pieces : list string) : list string :=
  match pieces with
  | EmptyString :: pieces' => dropEmptyFront pieces'
  | _ => pieces
  end.

Fixpoint dropEmptyBack (pieces : list string) : list string :=
  match pieces with
  | [] => []
  | piece :: pieces' =>
      match dropEmptyBack pieces' with
      | [] => if isEmpty piece then [] else [piece]
      | kept => piece :: kept
      end
  end.

Definition joinedPieces (input : string) : string :=
  String.concat " "
    (dropEmptyBack
       (dropEmptyFront
          (map (without isControl)
               (splitWhitespace (without isMarkup input))))).

(** What [performSearch] does with the sanitized string. *)
Definition searchSanitized (engine : ArraySort) (buzzwords : list Buzzword)
           (s : string) : SearchOutcome :=
  if Nat.eqb (String.length s) 0 then ShowExamples
  else if Nat.ltb (String.length s) 2 then ShowHint too_short
  else if Nat.ltb 100 (String.length s) then ShowHint too_long
  else if negb (hasLetter s) then ShowHint invalid_characters
  else match searchWithFuzzyMatching engine buzzwords s with
       | Some results => ShowResults results
       | None => ShowErrorState
       end.

(** ** The classic edit distance

    The table of the classic dynamic program, as a recurrence: [p2] and [p1]
    are prefixes of the two strings, held last character first.  The distance
    of two prefixes is the least of a substitution (free when the last
    characters agree), an insertion and a deletion, each of cost one. *)

Fixpoint classicDistance (p2 : list ascii) : list ascii -> nat :=
  fix inner (p1 : list ascii) : nat :=
    match p2, p1 with
    | [], _ => List.length p1
    | _, [] => List.length p2
    | c2 :: p2', c1 :: p1' =>
        Nat.min
          (Nat.min (classicDistance p2' p1' + (if Ascii.eqb c2 c1 then 0 else 1))
                   (inner p1' + 1))
          (classicDistance p2' p1 + 1)
    end.

(** The characters of [s] pushed onto [pre], so that the last one comes
    first. *)
Fixpoint revOnto (pre : list ascii) (s : string) : list ascii :=
  match s with
  | EmptyString => pre
  | String c s' => revOnto (c :: pre) s'
  end.

(** [pre] and its extensions by one more character of [rest] at a time. *)
Fixpoint extensions (pre : list ascii) (rest : string) : list (list ascii) :=
  pre :: match rest with
         | EmptyString => []
         | String c r => extensions (c :: pre) r
         end.

(** ** Rule 4 as the specification words it

    The keywords are compared in lower case, as the phrase is. *)

Section KeywordRule.

#[local] Open Scope float_scope.

(** What one keyword contributes to one query term: 1.0 when they are equal,
    0.8 when the keyword contains the term, 0.7 when the term contains the
    keyword, else half their fuzzy similarity when it exceeds 0.6; [None]
    when none of these applies. *)
Definition keywordContribution (keyword_ term : string) : option float :=
  if String.eqb keyword_ term then Some 1.0
  else if includes keyword_ term then Some 0.8
  else if includes term keyword_ then Some 0.7
  else
    let similarity := calculateFuzzyMatch keyword_ term in
    if 0.6 <? similarity then Some (similarity * 0.5) else None.

(** The best contribution to a term over the keywords of an entry. *)
Definition bestContribution (kws : list string) (term : string) : float :=
  fold_left (fun best keyword_ =>
               match keywordContribution keyword_ term with
               | Some c => Math_max best c
               | None => best
               end)
            kws 0.

Definition contributes (kws : list string) (term : string) : bool :=
  0 <? bestContribution kws term.

(** The sum of the best contributions of the terms that contribute. *)
Definition sumOfContributions (kws terms : list string) : float :=
  fold_left (fun sum term => sum + bestContribution kws term)
            (filter (contributes kws) terms) 0.

Definition keywordRuleScore (kws terms : list string) : float :=
  Math_min 0.85
    (0.4 + (sumOfContributions kws terms
            / of_nat (Nat.max (List.length terms) (List.length kws))) * 0.45).

End KeywordRule.

(** ** Classes of binary64 numbers

    Predicates on the specification [spec_float] of a number, used to follow
    signs and bounds through the arithmetic of the scores. *)

Section Binary64Classes.

#[local] Open Scope Z_scope.

(** The result of [binary_round_aux], with its two shifts spelled out. *)
Definition roundedTo (s : bool) (m1 e1 : Z) : spec_float :=
  let e2 := Z.max e1 (fexp prec emax (Zdigits2 m1 + e1)) in
  match m1 / 2 ^ (e2 - e1) with
  | Z0 => S754_zero s
  | Zpos p => if e2 <=? emax - prec then S754_finite s p e2 else S754_infinity s
  | Zneg _ => S754_nan
  end.

Definition signIs (s : bool) (x : spec_float) : Prop :=
  match x with
  | S754_zero s' | S754_infinity s' | S754_finite s' _ _ => s' = s
  | S754_nan => False
  end.

Definition nonZero (x : spec_float) : Prop :=
  match x with
  | S754_infinity _ | S754_finite _ _ _ => True
  | _ => False
  end.

(** At most one, or not a number. *)
Definition atMostOne (x : spec_float) : Prop :=
  match x with
  | S754_nan | S754_zero _ => True
  | S754_infinity s => s = true
  | S754_finite s m e =>
      s = true \/ e < -52 \/ (e = -52 /\ Zpos m <= 4503599627370496)
  end.

Definition sixTenthsSF : spec_float := Eval vm_compute in Prim2SF 0.6%float.

(** Exchanging the operands of a subtraction changes the sign of the result
    and nothing else. *)
Definition opposite (a b : spec_float) : Prop :=
  match a, b with
  | S754_nan, S754_nan => True
  | S754_zero _, S754_zero _ => True
  | S754_infinity s, S754_infinity s' => s' = negb s
  | S754_finite s m e, S754_finite s' m' e' => s' = negb s /\ m' = m /\ e' = e
  | _, _ => False
  end.

(** A positive finite number of the format. *)
Definition positiveFinite (c : spec_float) : Prop :=
  match c with S754_finite false _ _ => True | _ => False end.

Definition strictlyPositive (x : spec_float) : Prop :=
  match x with
  | S754_finite false _ _ | S754_infinity false => True
  | _ => False
  end.

Definition oneSF : spec_float := Eval vm_compute in Prim2SF 1%float.
Definition hundredthSF : spec_float := Eval vm_compute in Prim2SF 0.01%float.

Definition notInfinite (x : spec_float) : Prop :=
  match x with S754_infinity _ => False | _ => True end.

(** Zero or a positive finite number. *)
Definition finiteNonNegative (x : spec_float) : Prop :=
  match x with
  | S754_zero false | S754_finite false _ _ => True
  | _ => False
  end.

End Binary64Classes.

(** Every result the matcher can return: the exact match with score 1, or a
    match of another type with a score at most one. *)
Definition classified (r : SearchResult) : Prop :=
  (matchType r = exact /\ relevanceScore r = 1%float)
  \/ (matchType r <> exact /\ atMostOne (Prim2SF (relevanceScore r))).

(** The result the matcher returns for an entry whose lower-cased phrase is
    the query. *)
Definition exactResult (buzzword : Buzzword) (p normalizedQuery : string)
  : SearchResult :=
  {| match_ := p;
     res_translation := translation buzzword;
     relevanceScore := 1%float;
     matchedKeywords := [normalizedQuery];
     res_category := category buzzword;
     res_context := context buzzword;
     res_alternatives := alternatives buzzword;
     res_multipleMeanings := multipleMeanings buzzword;
     matchType := exact |}.

(** ** The result cache

    [this.searchCache] is a [Map] from the lower-cased sanitized query to the
    list of results: its entries in insertion order, one per key. *)

Definition SearchCache : Type := list (string * list SearchResult).

(** [Map.prototype.get] ([None] is [undefined]; [has] tells whether it is
    [Some]). *)
Fixpoint cacheGet (key : string) (cache : SearchCache)
  : option (list SearchResult) :=
  match cache with
  | [] => None
  | (k, v) :: cache' => if String.eqb k key then Some v else cacheGet key cache'
  end.

(** [Map.prototype.set]: a key already present keeps its place. *)
Fixpoint cacheSet (key : string) (results : list SearchResult)
         (cache : SearchCache) : SearchCache :=
  match cache with
  | [] => [(key, results)]
  | (k, v) :: cache' =>
      if String.eqb k key then (key, results) :: cache'
      else (k, v) :: cacheSet key results cache'
  end.

(** [Map.prototype.delete] *)
Fixpoint cacheDelete (key : string) (cache : SearchCache) : SearchCache :=
  match cache with
  | [] => []
  | (k, v) :: cache' =>
      if String.eqb k key then cache' else (k, v) :: cacheDelete key cache'
  end.

Definition maxCacheSize : nat := 100.

(** [cacheSearchResults]: [keys().next().value] is the key of the first
    entry; on an empty map it is [undefined] and nothing is deleted. *)
Definition cacheSearchResults (key : string) (results : list SearchResult)
           (cache : SearchCache) : SearchCache :=
  let cache1 :=
    if Nat.leb maxCacheSize (List.length cache)
    then match cache with
         | [] => cache
         | (firstKey, _) :: _ => cacheDelete firstKey cache
         end
    else cache in
  cacheSet key results cache1.

(** [performSearch] with its cache: what is shown, and the cache afterwards. *)
Definition performSearchCached (engine : ArraySort) (buzzwords : list Buzzword)
           (cache : SearchCache) (query : string) : SearchOutcome * SearchCache :=
  let validation := validateSearchInput query in
  match message validation with
  | msg_empty => (ShowExamples, cache)
  | _ =>
      if negb (valid validation) then (ShowHint (message validation), cache)
      else
        let cacheKey := toLowerCase (sanitized validation) in
        match cacheGet cacheKey cache with
        | Some cachedResults => (ShowResults cachedResults, cache)
        | None =>
            match searchWithFuzzyMatching engine buzzwords (sanitized validation) with
            | Some results =>
                (ShowResults results, cacheSearchResults cacheKey results cache)
            | None => (ShowErrorState, cache)
            end
        end
  end.

(** A run of searches, each on the cache the previous one left. *)
Fixpoint searchSession (engine : ArraySort) (buzzwords : list Buzzword)
         (cache : SearchCache) (queries : list string) : list SearchOutcome :=
  match queries with
  | [] => []
  | query :: queries' =>
      let '(outcome, cache') := performSearchCached engine buzzwords cache query in
      outcome :: searchSession engine buzzwords cache' queries'
  end.

(** Every entry of the cache holds what the search returns for the queries
    with its key. *)
Definition coherent (engine : ArraySort) (buzzwords : list Buzzword)
           (cache : SearchCache) : Prop :=
  forall key results,
    In (key, results) cache ->
    forall query,
      toLowerCase query = key -> isEmpty query = false ->
      searchWithFuzzyMatching engine buzzwords query = Some results.

(** ** Suggestions when nothing is found *)

Record Suggestion : Type := {
  sug_phrase : string;
  sug_translation : option string;
  relevance : nat
}.

(** [Math.abs(keyword.length - query.length)] *)
Definition lengthDifference (a b : string) : nat :=
  Nat.max (String.length a - String.length b) (String.length b - String.length a).

(** The three tests of [findSimilarBuzzwords] on the lower-cased phrase and
    keywords of one entry: the relevance of its suggestion, if it gets one. *)
Definition similarity (query phrase_ : string) (keywords_ : list string)
  : option nat :=
  let startsWithMatch :=
    existsb (fun keyword_ => startsWith keyword_ query || startsWith query keyword_)
            keywords_ in
  let containsMatch := includes phrase_ query || includes query phrase_ in
  let partialMatch :=
    existsb (fun keyword_ =>
               includes keyword_ query
               && Nat.leb (lengthDifference keyword_ query) 3)
            keywords_ in
  if startsWithMatch || containsMatch || partialMatch
  then Some (if startsWithMatch then 3 else if containsMatch then 2 else 1)
  else None.

(** Body of [this.buzzwords.forEach]; [None] is the [TypeError] of an entry
    without a phrase or without keywords, which ends the loop. *)
Definition suggestionStep (query : string) (acc : option (list Suggestion))
           (buzzword : Buzzword) : option (list Suggestion) :=
  match acc with
  | None => None
  | Some suggestions =>
      match phrase buzzword, keywords buzzword with
      | Some p, Some kws =>
          match similarity query (toLowerCase p) (map toLowerCase kws) with
          | Some rel =>
              Some (suggestions
                      ++ [{| sug_phrase := p;
                             sug_translation := translation buzzword;
                             relevance := rel |}])%list
          | None => Some suggestions
          end
      | _, _ => None
      end
  end.

(** The comparator [(a, b) => b.relevance - a.relevance], as its sign. *)
Definition compareRelevance (a b : Suggestion) : comparison :=
  Nat.compare (relevance b) (relevance a).

Definition findSimilarBuzzwords (engine : ArraySort) (buzzwords : list Buzzword)
           (searchQuery : string) : option (list Suggestion) :=
  if isEmpty searchQuery || Nat.ltb (String.length searchQuery) 2 then Some []
  else
    let query := trim (toLowerCase searchQuery) in
    match fold_left (suggestionStep query) buzzwords (Some []) with
    | None => None
    | Some suggestions =>
        Some (firstn 6 (sort engine compareRelevance suggestions))
    end.

(** What the page shows after [performSearch]: as [SearchOutcome], with the
    suggestions of the no-results box, whose computation can throw into the
    [catch] of [performSearch].  The elements of the page are taken to be in
    place, so that rendering does not fail. *)
Inductive Screen : Type :=
| ExamplesScreen
| HintScreen (reason : ValidationMessage)
| ResultsScreen (results : list SearchResult)
| NoResultsScreen (suggestions : list Suggestion)
| ErrorScreen.

Definition searchScreen (engine : ArraySort) (buzzwords : list Buzzword)
           (query : string) : Screen :=
  match performSearch engine buzzwords query with
  | ShowExamples => ExamplesScreen
  | ShowHint reason => HintScreen reason
  | ShowResults [] =>
      match findSimilarBuzzwords engine buzzwords (sanitizeInput query) with
      | Some suggestions => NoResultsScreen suggestions
      | None => ErrorScreen
      end
  | ShowResults results => ResultsScreen results
  | ShowErrorState => ErrorScreen
  end.

(** An entry with a phrase and keywords. *)
Definition wellFormed (buzzword : Buzzword) : bool :=
  match phrase buzzword, keywords buzzword with
  | Some _, Some _ => true
  | _, _ => false
  end.

(** ** Search history *)

Definition maxSearchTimeHistory : nat := 20.

(** [logSearchPerformance], as far as [this.searchTimes] goes: [push], then
    [shift] when more than 20 are held. *)
Definition logSearchPerformance (searchTimes : list float) (searchTime : float)
  : list float :=
  let pushed := (searchTimes ++ [searchTime])%list in
  if Nat.ltb maxSearchTimeHistory (List.length pushed) then tl pushed else pushed.

(** ** Auxiliary notions for the suggestions *)

(** The suggestion one entry gets for the lower-cased query, if any. *)
Definition suggestionOf (query : string) (buzzword : Buzzword) : list Suggestion :=
  match phrase buzzword, keywords buzzword with
  | Some p, Some kws =>
      match similarity query (toLowerCase p) (map toLowerCase kws) with
      | Some rel => [{| sug_phrase := p;
                        sug_translation := translation buzzword;
                        relevance := rel |}]
      | None => []
      end
  | _, _ => []
  end.

(** No suggestion comes before one of greater relevance. *)
Fixpoint descending (l : list Suggestion) : bool :=
  match l with
  | [] => true
  | a :: l' => forallb (fun b => Nat.leb (relevance b) (relevance a)) l'
               && descending l'
  end.

(** ** Related suggestions *)

(** An entry of the dictionary with its position.  The [Set] of suggestions
    holds entries as objects, told apart by identity; the position stands for
    the identity. *)
Definition Entry : Type := (nat * Buzzword)%type.

Definition entries (buzzwords : list Buzzword) : list Entry :=
  combine (seq 0 (List.length buzzwords)) buzzwords.

(** [Set.prototype.add] *)
Definition setAdd (suggestions : list Entry) (x : Entry) : list Entry :=
  if existsb (fun y => Nat.eqb (fst y) (fst x)) suggestions
  then suggestions
  else (suggestions ++ [x])%list.

(** [a.toLowerCase() === b.toLowerCase()] *)
Definition sameText (a b : string) : bool :=
  String.eqb (toLowerCase a) (toLowerCase b).

(** [results.some(r => r.match.toLowerCase() === text.toLowerCase())] *)
Definition isShown (results : list SearchResult) (text : string) : bool :=
  existsb (fun r => sameText (match_ r) text) results.

(** [filter] with a callback that may throw. *)
Fixpoint filterEntries (test : Buzzword -> option bool) (l : list Entry)
  : option (list Entry) :=
  match l with
  | [] => Some []
  | x :: l' =>
      match test (snd x) with
      | None => None
      | Some keep =>
          match filterEntries test l' with
          | None => None
          | Some rest => Some (if keep then x :: rest else rest)
          end
      end
  end.

(** [===] on two fields that hold a string or are absent. *)
Definition optionEqb (a b : option string) : bool :=
  match a, b with
  | Some x, Some y => String.eqb x y
  | None, None => true
  | _, _ => false
  end.

(** [[...new Set(results.map(r => r.category))]] *)
Fixpoint distinctCategories (seen cs : list (option string))
  : list (option string) :=
  match cs with
  | [] => []
  | c :: cs' =>
      if existsb (optionEqb c) seen then distinctCategories seen cs'
      else c :: distinctCategories (c :: seen) cs'
  end.

(** The callback of the first [filter]; [None] is the [TypeError] of an
    entry of the category that has no phrase. *)
Definition inCategory (results : list SearchResult) (query : string)
           (resultCategory : option string) (b : Buzzword) : option bool :=
  if optionEqb (category b) resultCategory
  then match phrase b with
       | None => None
       | Some p => Some (negb (isShown results p) && negb (sameText p query))
       end
  else Some false.

(** Body of [resultCategories.forEach]. *)
Definition addCategory (results : list SearchResult) (query : string)
           (all : list Entry) (acc : option (list Entry))
           (resultCategory : option string) : option (list Entry) :=
  match acc with
  | None => None
  | Some suggestions =>
      match filterEntries (inCategory results query resultCategory) all with
      | None => None
      | Some categoryBuzzwords =>
          Some (fold_left setAdd (firstn 2 categoryBuzzwords) suggestions)
      end
  end.

Definition popularBuzzwords : list string :=
  ["synergy"; "pivot"; "leverage"; "bandwidth"; "actionable insights";
   "game changer"; "scalable"; "streamline"; "optimize"; "paradigm shift"].

(** [this.buzzwords.find] for one popular phrase; [eligible] is what the
    callback asks of the phrase itself.  The outer [None] is the [TypeError]
    of an entry without a phrase met before the entry looked for. *)
Fixpoint findPopular (eligible : bool) (popular : string) (l : list Entry)
  : option (option Entry) :=
  match l with
  | [] => Some None
  | x :: l' =>
      match phrase (snd x) with
      | None => None
      | Some p =>
          if sameText p popular && eligible then Some (Some x)
          else findPopular eligible popular l'
      end
  end.

(** Body of [popularBuzzwords.forEach]. *)
Definition addPopular (results : list SearchResult) (query : string)
           (all : list Entry) (acc : option (list Entry)) (popular : string)
  : option (list Entry) :=
  match acc with
  | None => None
  | Some suggestions =>
      if Nat.leb 6 (List.length suggestions) then Some suggestions
      else
        match findPopular (negb (isShown results popular)
                           && negb (sameText popular query))
                          popular all with
        | None => None
        | Some None => Some suggestions
        | Some (Some x) => Some (setAdd suggestions x)
        end
  end.

(** [[...suggestions].some(s => s.phrase.toLowerCase() === p.toLowerCase())] *)
Fixpoint alreadySuggested (suggestions : list Entry) (p : string) : option bool :=
  match suggestions with
  | [] => Some false
  | s :: rest =>
      match phrase (snd s) with
      | None => None
      | Some q => if sameText q p then Some true else alreadySuggested rest p
      end
  end.

(** The callback of the last [filter]. *)
Definition isRemaining (results : list SearchResult) (query : string)
           (suggestions : list Entry) (b : Buzzword) : option bool :=
  match phrase b with
  | None => None
  | Some p =>
      if isShown results p then Some false
      else if sameText p query then Some false
      else option_map negb (alreadySuggested suggestions p)
  end.

(** The random suggestions.  [sort(() => 0.5 - Math.random())] leaves an
    arrangement of the array that no call determines: [shuffle]. *)
Definition addRemaining (shuffle : list Entry -> list Entry)
           (results : list SearchResult) (query : string) (all : list Entry)
           (suggestions : list Entry) : option (list Entry) :=
  if Nat.ltb (List.length suggestions) 6
  then match filterEntries (isRemaining results query suggestions) all with
       | None => None
       | Some remainingBuzzwords =>
           Some (fold_left setAdd
                           (firstn (6 - List.length suggestions)
                                   (shuffle remainingBuzzwords))
                           suggestions)
       end
  else Some suggestions.

(** [None]: a [TypeError], caught by [displayResults], which then shows the
    results without suggestions. *)
Definition generateRelatedSuggestions (shuffle : list Entry -> list Entry)
           (buzzwords : list Buzzword) (results : list SearchResult)
           (query : string) : option (list Entry) :=
  let all := entries buzzwords in
  let resultCategories := distinctCategories [] (map res_category results) in
  match fold_left (addCategory results query all) resultCategories (Some []) with
  | None => None
  | Some byCategory =>
      match fold_left (addPopular results query all) popularBuzzwords
                      (Some byCategory) with
      | None => None
      | Some withPopular =>
          match addRemaining shuffle results query all withPopular with
          | None => None
          | Some suggestions => Some (firstn 6 suggestions)
          end
      end
  end.

(** What makes an entry a suggestion to show beside the results: it has a
    phrase, which is no phrase shown and not the query, up to letter case. *)
Definition suggestible (results : list SearchResult) (query : string)
           (x : Entry) : Prop :=
  exists p, phrase (snd x) = Some p
            /\ isShown results p = false
            /\ sameText p query = false.

(** * Properties *)

(** ** Edit distance *)

Section EditDistance.

Lemma classicDistance_nil_l (p1 : list ascii) :
  classicDistance [] p1 = List.length p1.
Proof. destruct p1; reflexivity. Qed.

Lemma classicDistance_nil_r (p2 : list ascii) :
  classicDistance p2 [] = List.length p2.
Proof. destruct p2; reflexivity. Qed.

Lemma classicDistance_cons (c2 c1 : ascii) (p2 p1 : list ascii) :
  classicDistance (c2 :: p2) (c1 :: p1)
  = Nat.min
      (Nat.min (classicDistance p2 p1 + (if Ascii.eqb c2 c1 then 0 else 1))
               (classicDistance (c2 :: p2) p1 + 1))
      (classicDistance p2 (c1 :: p1) + 1).
Proof. reflexivity. Qed.

(** One more character costs at most one more edit... *)
Lemma classicDistance_cons_l_le (a : ascii) (p2 p1 : list ascii) :
  classicDistance (a :: p2) p1 <= classicDistance p2 p1 + 1.
Proof.
  destruct p1 as [|b p1].
  - rewrite !classicDistance_nil_r. simpl. lia.
  - rewrite classicDistance_cons. lia.
Qed.

Lemma classicDistance_cons_r_le (a : ascii) (p2 p1 : list ascii) :
  classicDistance p2 (a :: p1) <= classicDistance p2 p1 + 1.
Proof.
  destruct p2 as [|b p2].
  - rewrite !classicDistance_nil_l. simpl. lia.
  - rewrite classicDistance_cons. lia.
Qed.

(** ... and saves at most one. *)
Lemma classicDistance_le_cons_l (a : ascii) (p2 p1 : list ascii) :
  classicDistance p2 p1 <= classicDistance (a :: p2) p1 + 1.
Proof.
  induction p1 as [|b p1 IH].
  - rewrite !classicDistance_nil_r. simpl. lia.
  - rewrite classicDistance_cons.
    pose proof (classicDistance_cons_r_le b p2 p1). lia.
Qed.

Lemma classicDistance_le_cons_r (a : ascii) (p2 p1 : list ascii) :
  classicDistance p2 p1 <= classicDistance p2 (a :: p1) + 1.
Proof.
  induction p2 as [|b p2 IH].
  - rewrite !classicDistance_nil_l. simpl. lia.
  - rewrite classicDistance_cons.
    pose proof (classicDistance_cons_l_le b p2 p1). lia.
Qed.

Lemma classicDistance_sym (p2 p1 : list ascii) :
  classicDistance p2 p1 = classicDistance p1 p2.
Proof.
  revert p1. induction p2 as [|a p2 IH2]; intro p1.
  - now rewrite classicDistance_nil_l, classicDistance_nil_r.
  - induction p1 as [|b p1 IH1].
    + now rewrite classicDistance_nil_l, classicDistance_nil_r.
    + rewrite !classicDistance_cons.
      rewrite IH1, (IH2 p1), (IH2 (b :: p1)), (Ascii.eqb_sym a b). lia.
Qed.

Lemma classicDistance_refl (p : list ascii) : classicDistance p p = 0.
Proof.
  induction p as [|a p IH]; [reflexivity|].
  rewrite classicDistance_cons, IH, Ascii.eqb_refl. lia.
Qed.

(** The cell the inner loop writes is the cell of the classic table: the
    shortcut taken on equal characters loses nothing. *)
Lemma cell_classic (c2 c1 : ascii) (p2 p1 : list ascii) :
  (if Ascii.eqb c2 c1 then classicDistance p2 p1
   else Nat.min (Nat.min (classicDistance p2 p1 + 1)
                         (classicDistance (c2 :: p2) p1 + 1))
                (classicDistance p2 (c1 :: p1) + 1))
  = classicDistance (c2 :: p2) (c1 :: p1).
Proof.
  rewrite classicDistance_cons.
  pose proof (classicDistance_le_cons_l c2 p2 p1).
  pose proof (classicDistance_le_cons_r c1 p2 p1).
  destruct (Ascii.eqb c2 c1); lia.
Qed.

Lemma extensions_length (pre : list ascii) (rest : string) :
  List.length (extensions pre rest) = S (String.length rest).
Proof.
  revert pre. induction rest as [|c r IH]; intro pre; [reflexivity|].
  simpl. now rewrite IH.
Qed.

Lemma extensions_lengths (pre : list ascii) (rest : string) :
  map (@List.length ascii) (extensions pre rest)
  = seq (List.length pre) (S (String.length rest)).
Proof.
  revert pre. induction rest as [|c r IH]; intro pre; [reflexivity|].
  change (extensions pre (String c r)) with (pre :: extensions (c :: pre) r).
  rewrite map_cons, IH. reflexivity.
Qed.

Lemma extensions_last (pre : list ascii) (rest : string) (d : list ascii) :
  nth (String.length rest) (extensions pre rest) d = revOnto pre rest.
Proof.
  revert pre. induction rest as [|c r IH]; intro pre; [reflexivity|].
  apply IH.
Qed.

(** The inner loop fills row [c2 :: p2] from row [p2]. *)
Lemma fillRow_classic (c2 : ascii) (p2 : list ascii) (rest : string) :
  forall pre : list ascii,
    fillRow c2 rest (map (classicDistance p2) (extensions pre rest))
            (classicDistance (c2 :: p2) pre)
    = map (classicDistance (c2 :: p2)) (tl (extensions pre rest)).
Proof.
  induction rest as [|c1 r IH]; intro pre; [reflexivity|].
  change (extensions pre (String c1 r)) with (pre :: extensions (c1 :: pre) r).
  cbn [map tl].
  destruct (extensions (c1 :: pre) r) as [|q qs] eqn:E.
  - destruct r; discriminate.
  - assert (Hq : q = c1 :: pre) by (destruct r; simpl in E; congruence).
    subst q. cbn [map fillRow].
    rewrite cell_classic. f_equal.
    specialize (IH (c1 :: pre)). rewrite E in IH. cbn [map tl] in IH.
    exact IH.
Qed.

(** The outer loop fills the rows of the extensions of [p2]. *)
Lemma fillMatrix_classic (str1 rest2 : string) :
  forall p2 : list ascii,
    fillMatrix rest2 str1 (S (List.length p2))
               (map (classicDistance p2) (extensions [] str1))
    = map (fun q => map (classicDistance q) (extensions [] str1))
          (tl (extensions p2 rest2)).
Proof.
  induction rest2 as [|c2 r IH]; intro p2; [reflexivity|].
  change (extensions p2 (String c2 r)) with (p2 :: extensions (c2 :: p2) r).
  cbn [tl fillMatrix].
  assert (Hrow : S (List.length p2)
                 :: fillRow c2 str1 (map (classicDistance p2) (extensions [] str1))
                            (S (List.length p2))
                 = map (classicDistance (c2 :: p2)) (extensions [] str1)).
  { pose proof (fillRow_classic c2 p2 str1 []) as H.
    rewrite classicDistance_nil_r in H. cbn [List.length] in H.
    rewrite H. destruct str1; reflexivity. }
  rewrite Hrow.
  specialize (IH (c2 :: p2)). cbn [List.length] in IH. rewrite IH.
  destruct r; reflexivity.
Qed.

Lemma levenshteinMatrix_classic (str1 str2 : string) :
  levenshteinMatrix str1 str2
  = map (fun q => map (classicDistance q) (extensions [] str1))
        (extensions [] str2).
Proof.
  unfold levenshteinMatrix.
  assert (H0 : seq 0 (S (String.length str1))
               = map (classicDistance []) (extensions [] str1)).
  { pose proof (extensions_lengths [] str1) as HL.
    cbn [List.length] in HL. rewrite <- HL.
    apply map_ext. intro q. now rewrite classicDistance_nil_l. }
  rewrite H0.
  pose proof (fillMatrix_classic str1 str2 []) as H. cbn [List.length] in H.
  rewrite H. destruct str2; reflexivity.
Qed.

(** The number returned is the classic distance of the two whole strings. *)
Lemma levenshteinDistance_classic (str1 str2 : string) :
  levenshteinDistance str1 str2
  = classicDistance (revOnto [] str2) (revOnto [] str1).
Proof.
  unfold levenshteinDistance. rewrite levenshteinMatrix_classic.
  rewrite (nth_indep _ [] (map (classicDistance []) (extensions [] str1)))
    by (rewrite length_map, extensions_length; lia).
  rewrite (map_nth (fun q => map (classicDistance q) (extensions [] str1))
                   (extensions [] str2) []).
  rewrite extensions_last.
  rewrite (nth_indep _ 0 (classicDistance (revOnto [] str2) []))
    by (rewrite length_map, extensions_length; lia).
  rewrite (map_nth (classicDistance (revOnto [] str2))).
  now rewrite extensions_last.
Qed.

End EditDistance.

(** C9.  [levenshteinDistance "kitten" "sitting"] is 3; the distance of a
    string to itself is 0; the distance is symmetric; and the number computed
    is the classic dynamic-programming edit distance, with unit cost for a
    substitution, an insertion and a deletion. *)
Theorem levenshteinDistance_properties :
  levenshteinDistance "kitten" "sitting" = 3
  /\ (forall x : string, levenshteinDistance x x = 0)
  /\ (forall x y : string, levenshteinDistance x y = levenshteinDistance y x)
  /\ (forall x y : string,
         levenshteinDistance x y
         = classicDistance (revOnto [] y) (revOnto [] x)).
Proof.
  split; [reflexivity|]. split; [|split].
  - intro x. rewrite levenshteinDistance_classic. apply classicDistance_refl.
  - intros x y. rewrite !levenshteinDistance_classic. apply classicDistance_sym.
  - apply levenshteinDistance_classic.
Qed.

(** ** Character classes *)

Section CharacterClasses.

Ltac by_cases_on c :=
  destruct c as [[] [] [] [] [] [] [] []]; vm_compute; intuition congruence.

Lemma letter_is_plain (c : ascii) :
  isLetter c = true ->
  isMarkup c = false /\ isWhitespace c = false /\ isControl c = false.
Proof. by_cases_on c. Qed.

Lemma lowerChar_whitespace (c : ascii) :
  isWhitespace (lowerChar c) = isWhitespace c.
Proof. by_cases_on c. Qed.

Lemma whitespace_not_letter (c : ascii) :
  isWhitespace c = true -> isLetter c = false.
Proof. by_cases_on c. Qed.

End CharacterClasses.

(** ** String operations *)

Section StringOperations.

Variable p : ascii -> bool.

Lemma removeAll_none (s : string) : anyChar p (removeAll p s) = false.
Proof.
  induction s as [|c s IH]; [reflexivity|].
  simpl. destruct (p c) eqn:E; [exact IH|]. simpl. now rewrite E.
Qed.

Lemma removeAll_id (s : string) :
  anyChar p s = false -> removeAll p s = s.
Proof.
  induction s as [|c s IH]; [reflexivity|].
  simpl. destruct (p c); [discriminate|]. simpl. intro H. now rewrite IH.
Qed.

Lemma removeAll_keeps (q : ascii -> bool) (s : string) :
  anyChar p s = false -> anyChar p (removeAll q s) = false.
Proof.
  induction s as [|c s IH]; [reflexivity|].
  simpl. destruct (p c) eqn:E; [discriminate|]. simpl. intro H.
  destruct (q c); simpl; rewrite ?E; auto.
Qed.

Lemma collapseFrom_keeps (s : string) :
  p " " = false -> anyChar p s = false ->
  forall b, anyChar p (collapseFrom b s) = false.
Proof.
  intro Hsp. induction s as [|c s IH]; [reflexivity|].
  simpl. destruct (p c) eqn:E; [discriminate|]. simpl. intros H b.
  specialize (IH H).
  destruct (isWhitespace c), b; simpl; rewrite ?E, ?Hsp; apply IH.
Qed.

Lemma trimStart_keeps (s : string) :
  anyChar p s = false -> anyChar p (trimStart s) = false.
Proof.
  induction s as [|c s IH]; [reflexivity|].
  simpl. destruct (isWhitespace c); [|auto].
  destruct (p c); [discriminate|]. exact IH.
Qed.

Lemma trimEnd_keeps (s : string) :
  anyChar p s = false -> anyChar p (trimEnd s) = false.
Proof.
  induction s as [|c s IH]; [reflexivity|].
  simpl. destruct (p c) eqn:E; [discriminate|]. simpl. intro H.
  specialize (IH H).
  destruct (trimEnd s) eqn:T.
  - destruct (isWhitespace c); simpl; rewrite ?E; reflexivity.
  - simpl. rewrite E. exact IH.
Qed.

Lemma trim_keeps (s : string) :
  anyChar p s = false -> anyChar p (trim s) = false.
Proof. intro H. unfold trim. now apply trimEnd_keeps, trimStart_keeps. Qed.

End StringOperations.

Section Trimming.

Lemma collapseFrom_id (s : string) :
  anyChar isWhitespace s = false -> forall b, collapseFrom b s = s.
Proof.
  induction s as [|c s IH]; [reflexivity|].
  simpl. destruct (isWhitespace c); [discriminate|]. simpl.
  intros H b. now rewrite IH.
Qed.

Lemma trimStart_id (s : string) :
  startsWithWhitespace s = false -> trimStart s = s.
Proof. destruct s as [|c s]; [reflexivity|]. simpl. now intros ->. Qed.

Lemma trimStart_starts (s : string) :
  startsWithWhitespace (trimStart s) = false.
Proof.
  induction s as [|c s IH]; [reflexivity|].
  simpl. destruct (isWhitespace c) eqn:E; [exact IH|]. simpl. exact E.
Qed.

Lemma trimEnd_starts (s : string) :
  startsWithWhitespace s = false -> startsWithWhitespace (trimEnd s) = false.
Proof.
  destruct s as [|c s]; [reflexivity|].
  simpl. intro H. rewrite H. now destruct (trimEnd s).
Qed.

Lemma trimEnd_idem (s : string) : trimEnd (trimEnd s) = trimEnd s.
Proof.
  induction s as [|c s IH]; [reflexivity|].
  simpl. destruct (trimEnd s) as [|d t] eqn:T.
  - destruct (isWhitespace c) eqn:E; [reflexivity|]. simpl. now rewrite E.
  - change (trimEnd (String c (String d t)))
      with (match trimEnd (String d t) with
            | EmptyString =>
                if isWhitespace c then EmptyString else String c EmptyString
            | u => String c u
            end).
    now rewrite IH.
Qed.

Lemma trim_idem (s : string) : trim (trim s) = trim s.
Proof.
  unfold trim.
  rewrite (trimStart_id (trimEnd (trimStart s)))
    by apply trimEnd_starts, trimStart_starts.
  apply trimEnd_idem.
Qed.

Lemma trimEnd_id (s : string) :
  anyChar isWhitespace s = false -> trimEnd s = s.
Proof.
  induction s as [|c s IH]; [reflexivity|].
  simpl. destruct (isWhitespace c); [discriminate|]. simpl.
  intro H. rewrite IH by assumption. now destruct s.
Qed.

Lemma trim_id (s : string) :
  anyChar isWhitespace s = false -> trim s = s.
Proof.
  intro H. unfold trim. rewrite trimStart_id.
  - now apply trimEnd_id.
  - destruct s as [|c s]; [reflexivity|]. simpl in *.
    now destruct (isWhitespace c).
Qed.

Lemma trimStart_toLowerCase (s : string) :
  trimStart (toLowerCase s) = toLowerCase (trimStart s).
Proof.
  induction s as [|c s IH]; [reflexivity|].
  simpl. rewrite lowerChar_whitespace. now destruct (isWhitespace c).
Qed.

Lemma trimEnd_toLowerCase (s : string) :
  trimEnd (toLowerCase s) = toLowerCase (trimEnd s).
Proof.
  induction s as [|c s IH]; [reflexivity|].
  simpl. rewrite IH, lowerChar_whitespace.
  destruct (trimEnd s); [|reflexivity]. simpl.
  now destruct (isWhitespace c).
Qed.

Lemma trim_toLowerCase (s : string) :
  trim (toLowerCase s) = toLowerCase (trim s).
Proof. unfold trim. now rewrite trimStart_toLowerCase, trimEnd_toLowerCase. Qed.

End Trimming.

(** ** Lists of results *)

Section ResultLists.

Variables normalizedQuery : string.
Variable queryWords : list string.

Lemma scoreEntry_keptResult (results : list SearchResult) (b : Buzzword) :
  scoreEntry normalizedQuery queryWords results b
  = (results ++ keptResult normalizedQuery queryWords b)%list.
Proof.
  unfold scoreEntry, keptResult.
  destruct (calculateRelevanceScore b normalizedQuery queryWords) as [r|];
    [|now rewrite app_nil_r].
  destruct (0.1 <? relevanceScore r)%float; [reflexivity|now rewrite app_nil_r].
Qed.

Lemma scoreEntries_flat_map (l : list Buzzword) :
  forall acc,
    fold_left (scoreEntry normalizedQuery queryWords) l acc
    = (acc ++ flat_map (keptResult normalizedQuery queryWords) l)%list.
Proof.
  induction l as [|b l IH]; intro acc; simpl.
  - now rewrite app_nil_r.
  - now rewrite IH, scoreEntry_keptResult, app_assoc.
Qed.

End ResultLists.

Section Sorting.

Context {A : Type}.
Variable cmp : A -> A -> comparison.

Variable engine : ArraySort.

Lemma sort_nil : sort engine cmp [] = [].
Proof. apply Permutation_nil. symmetry. apply sort_permutation. Qed.

Lemma sort_singleton (x : A) : sort engine cmp [x] = [x].
Proof. apply Permutation_length_1_inv. symmetry. apply sort_permutation. Qed.

Lemma in_firstn (n : nat) (l : list A) (x : A) : In x (firstn n l) -> In x l.
Proof.
  intro H. rewrite <- (firstn_skipn n l). apply in_or_app. now left.
Qed.

End Sorting.

Section AnyEngine.

Variable engine : ArraySort.

Lemma scoredResults_flat_map (l : list Buzzword) (nq : string) (qw : list string) :
  scoredResults l nq qw = flat_map (keptResult nq qw) l.
Proof. unfold scoredResults. now rewrite scoreEntries_flat_map. Qed.

(** A search returns the first ten of its results, sorted. *)
Lemma searchWithFuzzyMatching_candidates (buzzwords : list Buzzword)
      (query : string) :
  isEmpty query = false ->
  searchWithFuzzyMatching engine buzzwords query
  = Some (firstn 10 (sort engine compareResults (candidateResults buzzwords query))).
Proof.
  intro H. unfold searchWithFuzzyMatching, candidateResults. rewrite H.
  destruct (filter _ (splitWhitespace _)); [|reflexivity].
  now rewrite sort_nil.
Qed.

Lemma validated_query (input : string) :
  message (validateSearchInput input) = msg_valid ->
  validateSearchInput input
  = {| valid := true; sanitized := sanitizeInput input; message := msg_valid |}
  /\ isEmpty (sanitizeInput input) = false
  /\ hasLetter (sanitizeInput input) = true.
Proof.
  unfold validateSearchInput.
  destruct (Nat.eqb (String.length (sanitizeInput input)) 0) eqn:E0;
    [discriminate|].
  destruct (Nat.ltb (String.length (sanitizeInput input)) 2); [discriminate|].
  destruct (Nat.ltb 100 (String.length (sanitizeInput input))); [discriminate|].
  destruct (hasLetter (sanitizeInput input)); [|discriminate].
  intros _. repeat split. destruct (sanitizeInput input); [discriminate|reflexivity].
Qed.

Lemma performSearch_results (buzzwords : list Buzzword) (input : string) :
  message (validateSearchInput input) = msg_valid ->
  performSearch engine buzzwords input
  = ShowResults
      (firstn 10 (sort engine compareResults
                       (candidateResults buzzwords (sanitizeInput input)))).
Proof.
  intro H. destruct (validated_query input H) as (Hv & Hne & _).
  unfold performSearch. rewrite Hv. cbn [message valid sanitized negb].
  now rewrite (searchWithFuzzyMatching_candidates _ _ Hne).
Qed.

(** The only search that shows results is that of a valid query. *)
Lemma performSearch_shown (buzzwords : list Buzzword) (input : string)
      (results : list SearchResult) :
  performSearch engine buzzwords input = ShowResults results ->
  message (validateSearchInput input) = msg_valid.
Proof.
  unfold performSearch, validateSearchInput.
  destruct (Nat.eqb (String.length (sanitizeInput input)) 0); [discriminate|].
  destruct (Nat.ltb (String.length (sanitizeInput input)) 2); [discriminate|].
  destruct (Nat.ltb 100 (String.length (sanitizeInput input))); [discriminate|].
  destruct (hasLetter (sanitizeInput input)); [reflexivity|discriminate].
Qed.

End AnyEngine.

(** Runs the search of a valid query on a dictionary given in full, up to the
    sort. *)
Ltac run_search engine :=
  rewrite !(performSearch_results engine) by reflexivity;
  repeat match goal with
         | |- context [candidateResults ?b ?q] =>
             let c := fresh "c" in
             let Hc := fresh "Hc" in
             remember (candidateResults b q) as c eqn:Hc;
             vm_compute in Hc; subst c
         end;
  rewrite ?sort_nil, ?sort_singleton; cbn [firstn].

(** ** Sanitization *)

Section Sanitization.

Lemma collapseFrom_noAdjacent (s : string) :
  forall b,
    noAdjacentWhitespace (collapseFrom b s) = true
    /\ (b = true -> startsWithWhitespace (collapseFrom b s) = false).
Proof.
  induction s as [|c s IH]; intro b; [now split|].
  simpl. destruct (isWhitespace c) eqn:E.
  - destruct b.
    + apply IH.
    + destruct (IH true) as [H1 H2]. split; [|discriminate].
      simpl. rewrite H1, (H2 eq_refl). reflexivity.
  - destruct (IH false) as [H1 _]. simpl. rewrite E, H1. now split.
Qed.

Lemma collapseFrom_spaces (s : string) :
  forall b, anyChar isOddWhitespace (collapseFrom b s) = false.
Proof.
  induction s as [|c s IH]; intro b; [reflexivity|].
  simpl. destruct (isWhitespace c) eqn:E.
  - destruct b; [apply IH|]. simpl. apply IH.
  - simpl. unfold isOddWhitespace at 1. rewrite E. apply IH.
Qed.

Lemma collapseFrom_no_control (s : string) :
  anyChar isBareControl s = false ->
  forall b, anyChar isControl (collapseFrom b s) = false.
Proof.
  induction s as [|c s IH]; [reflexivity|].
  simpl. unfold isBareControl at 1.
  destruct (isWhitespace c) eqn:E; simpl.
  - rewrite andb_false_r. simpl. intros H b. specialize (IH H).
    destruct b; [apply IH|]. simpl. apply IH.
  - rewrite andb_true_r. destruct (isControl c); [discriminate|]. simpl.
    intros H b. now apply IH.
Qed.

Lemma noAdjacent_tail (c : ascii) (s : string) :
  noAdjacentWhitespace (String c s) = true -> noAdjacentWhitespace s = true.
Proof. simpl. intro H. now apply andb_prop in H. Qed.

Lemma noAdjacent_trimStart (s : string) :
  noAdjacentWhitespace s = true -> noAdjacentWhitespace (trimStart s) = true.
Proof.
  induction s as [|c s IH]; [reflexivity|].
  intro H. simpl. destruct (isWhitespace c); [|exact H].
  apply IH. now apply noAdjacent_tail in H.
Qed.

Lemma trimEnd_head (s : string) (d : ascii) (t : string) :
  trimEnd s = String d t -> startsWithWhitespace s = isWhitespace d.
Proof.
  destruct s as [|c s]; [discriminate|].
  simpl. destruct (trimEnd s).
  - destruct (isWhitespace c) eqn:E; [discriminate|].
    intros [= <- _]. now rewrite E.
  - now intros [= <- _].
Qed.

Lemma noAdjacent_trimEnd (s : string) :
  noAdjacentWhitespace s = true -> noAdjacentWhitespace (trimEnd s) = true.
Proof.
  induction s as [|c s IH]; [reflexivity|].
  intro H. pose proof (noAdjacent_tail _ _ H) as Hs. specialize (IH Hs).
  simpl in H. apply andb_prop in H. destruct H as [Hc _].
  simpl. destruct (trimEnd s) as [|d t] eqn:T.
  - destruct (isWhitespace c) eqn:E; simpl; rewrite ?E; reflexivity.
  - rewrite (trimEnd_head _ _ _ T) in Hc.
    change (noAdjacentWhitespace (String c (String d t)))
      with (negb (isWhitespace c && isWhitespace d)
            && noAdjacentWhitespace (String d t)).
    now rewrite Hc, IH.
Qed.

Lemma sanitizeInput_letters (s : string) :
  allChars isLetter s = true -> sanitizeInput s = s.
Proof.
  intro H.
  assert (Hplain : anyChar isMarkup s = false
                   /\ anyChar isWhitespace s = false
                   /\ anyChar isControl s = false).
  { induction s as [|c s IH]; [now repeat split|].
    simpl in H. apply andb_prop in H. destruct H as [Hc Hs].
    destruct (letter_is_plain c Hc) as (E1 & E2 & E3).
    destruct (IH Hs) as (? & ? & ?). simpl. rewrite E1, E2, E3.
    now repeat split. }
  destruct Hplain as (Hm & Hw & Hc).
  unfold sanitizeInput, collapseWhitespace.
  rewrite (removeAll_id _ _ Hm), (collapseFrom_id _ Hw),
    (removeAll_id _ _ Hc).
  now apply trim_id.
Qed.

Lemma performSearch_sanitized (engine : ArraySort) (buzzwords : list Buzzword)
      (input : string) :
  performSearch engine buzzwords input
  = searchSanitized engine buzzwords (sanitizeInput input).
Proof.
  unfold performSearch, validateSearchInput, searchSanitized.
  destruct (Nat.eqb (String.length (sanitizeInput input)) 0); [reflexivity|].
  destruct (Nat.ltb (String.length (sanitizeInput input)) 2); [reflexivity|].
  destruct (Nat.ltb 100 (String.length (sanitizeInput input))); [reflexivity|].
  destruct (hasLetter (sanitizeInput input)); reflexivity.
Qed.

End Sanitization.

(** ** Sanitization piece by piece *)

Section Pieces.

Lemma removeAll_without (p : ascii -> bool) (s : string) :
  removeAll p s = without p s.
Proof.
  unfold without. induction s as [|c s IH]; [reflexivity|].
  cbn [removeAll list_ascii_of_string filter]. rewrite IH.
  now destruct (p c).
Qed.

Lemma removeAll_app (p : ascii -> bool) (s t : string) :
  removeAll p (s ++ t) = removeAll p s ++ removeAll p t.
Proof.
  induction s as [|c s IH]; [reflexivity|].
  cbn [append removeAll]. rewrite IH. now destruct (p c).
Qed.

Lemma removeAll_concat (p : ascii -> bool) (l : list string) :
  p " "%char = false ->
  removeAll p (String.concat " " l) = String.concat " " (map (removeAll p) l).
Proof.
  intro Hsp. induction l as [|x l IH]; [reflexivity|].
  destruct l as [|y l]; [reflexivity|].
  change (String.concat " " (x :: y :: l))
    with (x ++ " " ++ String.concat " " (y :: l)).
  change (String.concat " " (map (removeAll p) (x :: y :: l)))
    with (removeAll p x ++ " "
          ++ String.concat " " (map (removeAll p) (y :: l))).
  rewrite !removeAll_app, IH. cbn [removeAll]. now rewrite Hsp.
Qed.

Lemma removeAll_removeAll (p q : ascii -> bool) (s : string) :
  removeAll q (removeAll p s) = removeAll (fun c => p c || q c) s.
Proof.
  induction s as [|c s IH]; [reflexivity|].
  cbn [removeAll]. destruct (p c); cbn [orb]; [exact IH|].
  cbn [removeAll]. now rewrite IH.
Qed.

Lemma removeAll_ext (p q : ascii -> bool) (s : string) :
  (forall c, p c = q c) -> removeAll p s = removeAll q s.
Proof.
  intro H. induction s as [|c s IH]; [reflexivity|].
  cbn [removeAll]. now rewrite H, IH.
Qed.

Lemma removeAll_collapseFrom (p : ascii -> bool) (s : string) :
  (forall c, isWhitespace c = true -> p c = true) ->
  forall b, removeAll p (collapseFrom b s) = removeAll p s.
Proof.
  intro Hp. induction s as [|c s IH]; intro b; [reflexivity|].
  cbn [collapseFrom removeAll]. destruct (isWhitespace c) eqn:E.
  - rewrite (Hp c E). destruct b; [apply IH|].
    cbn [removeAll]. rewrite (Hp " "%char eq_refl). apply IH.
  - cbn [removeAll]. now rewrite IH.
Qed.

Lemma removeAll_trimStart (p : ascii -> bool) (s : string) :
  (forall c, isWhitespace c = true -> p c = true) ->
  removeAll p (trimStart s) = removeAll p s.
Proof.
  intro Hp. induction s as [|c s IH]; [reflexivity|].
  cbn [trimStart]. destruct (isWhitespace c) eqn:E; [|reflexivity].
  cbn [removeAll]. now rewrite (Hp c E).
Qed.

Lemma removeAll_trimEnd (p : ascii -> bool) (s : string) :
  (forall c, isWhitespace c = true -> p c = true) ->
  removeAll p (trimEnd s) = removeAll p s.
Proof.
  intro Hp. induction s as [|c s IH]; [reflexivity|].
  cbn [trimEnd removeAll]. rewrite <- IH.
  destruct (trimEnd s) as [|d t].
  - destruct (isWhitespace c) eqn:E.
    + now rewrite (Hp c E).
    + reflexivity.
  - reflexivity.
Qed.

(** The pieces of a split hold no whitespace, and there is always one. *)
Lemma splitWhitespace_pieces (s : string) :
  splitWhitespace s <> []
  /\ Forall (fun piece => anyChar isWhitespace piece = false) (splitWhitespace s)
  /\ (startsWithWhitespace s = true ->
      exists rest, rest <> [] /\ splitWhitespace s = EmptyString :: rest).
Proof.
  induction s as [|c s (Hne & Hall & Hstart)].
  - repeat split; [discriminate|now repeat constructor|discriminate].
  - cbn [splitWhitespace startsWithWhitespace].
    destruct (isWhitespace c) eqn:E.
    + destruct (startsWithWhitespace s) eqn:W.
      * repeat split; [exact Hne|exact Hall|]. intros _. now apply Hstart.
      * repeat split; [discriminate|now constructor|].
        intros _. now exists (splitWhitespace s).
    + destruct (splitWhitespace s) as [|w ws]; [contradiction|].
      inversion Hall as [|? ? Hw Hws]; subst.
      repeat split; [discriminate| |discriminate].
      constructor; [|exact Hws]. cbn [anyChar]. now rewrite E.
Qed.

(** Every run of whitespace is replaced by one space and nothing else is
    changed: the pieces between the runs, joined by single spaces. *)
Lemma collapseFrom_pieces (s : string) :
  forall inRun,
    collapseFrom inRun s
    = if inRun && startsWithWhitespace s
      then String.concat " " (tl (splitWhitespace s))
      else String.concat " " (splitWhitespace s).
Proof.
  induction s as [|c s IH]; intro inRun.
  - now destruct inRun.
  - destruct (splitWhitespace_pieces s) as (Hne & _ & Hstart).
    cbn [collapseFrom splitWhitespace startsWithWhitespace].
    destruct (isWhitespace c) eqn:E.
    + rewrite (IH true). cbn [andb].
      destruct (startsWithWhitespace s) eqn:W.
      * destruct (Hstart eq_refl) as (rest & Hrest & ->). cbn [tl].
        destruct inRun; cbn [andb tl]; [reflexivity|].
        destruct rest; [contradiction|reflexivity].
      * destruct inRun; cbn [andb tl]; [reflexivity|].
        destruct (splitWhitespace s); [contradiction|reflexivity].
    + rewrite andb_false_r, (IH false). cbn [andb].
      destruct (splitWhitespace s) as [|w ws]; [contradiction|].
      now destruct ws.
Qed.

Lemma collapseWhitespace_pieces (s : string) :
  collapseWhitespace s = String.concat " " (splitWhitespace s).
Proof. unfold collapseWhitespace. now rewrite collapseFrom_pieces. Qed.

Lemma trimStart_concat (l : list string) :
  Forall (fun piece => anyChar isWhitespace piece = false) l ->
  trimStart (String.concat " " l) = String.concat " " (dropEmptyFront l).
Proof.
  induction l as [|x l IH]; [reflexivity|].
  intro H. inversion H as [|? ? Hx Hl]; subst.
  destruct x as [|c x].
  - cbn [dropEmptyFront]. rewrite <- (IH Hl). now destruct l.
  - cbn [dropEmptyFront]. apply trimStart_id.
    cbn [anyChar] in Hx. apply orb_false_elim in Hx. destruct Hx as [Hc _].
    now destruct l.
Qed.

Lemma trimEnd_app (x s : string) :
  anyChar isWhitespace x = false ->
  trimEnd (x ++ s) = match trimEnd s with
                     | EmptyString => x
                     | t => x ++ t
                     end.
Proof.
  induction x as [|c x IH];
    [intros _; cbn [append]; now destruct (trimEnd s)|].
  cbn [anyChar append trimEnd]. intro H.
  apply orb_false_elim in H. destruct H as [Hc Hx].
  rewrite (IH Hx). destruct (trimEnd s).
  - rewrite Hc. now destruct x.
  - now destruct x.
Qed.

Lemma dropEmptyBack_concat (l : list string) :
  dropEmptyBack l <> [] -> String.concat " " (dropEmptyBack l) <> EmptyString.
Proof.
  induction l as [|x l IH]; [contradiction|].
  cbn [dropEmptyBack]. destruct (dropEmptyBack l) as [|k ks].
  - destruct x; [contradiction|discriminate].
  - intros _. change (String.concat " " (x :: k :: ks))
      with (x ++ " " ++ String.concat " " (k :: ks)).
    now destruct x.
Qed.

Lemma trimEnd_concat (l : list string) :
  Forall (fun piece => anyChar isWhitespace piece = false) l ->
  trimEnd (String.concat " " l) = String.concat " " (dropEmptyBack l).
Proof.
  induction l as [|x l IH]; [reflexivity|].
  intro H. inversion H as [|? ? Hx Hl]; subst. specialize (IH Hl).
  destruct l as [|y l].
  - cbn [String.concat dropEmptyBack]. rewrite (trimEnd_id x Hx).
    now destruct x.
  - change (String.concat " " (x :: y :: l))
      with (x ++ " " ++ String.concat " " (y :: l)).
    rewrite (trimEnd_app x _ Hx).
    change (trimEnd (" " ++ String.concat " " (y :: l)))
      with (match trimEnd (String.concat " " (y :: l)) with
            | EmptyString => EmptyString
            | t => String " " t
            end).
    rewrite IH.
    pose proof (dropEmptyBack_concat (y :: l)) as Hk.
    change (dropEmptyBack (x :: y :: l))
      with (match dropEmptyBack (y :: l) with
            | [] => if isEmpty x then [] else [x]
            | kept => x :: kept
            end).
    destruct (dropEmptyBack (y :: l)) as [|k ks].
    + now destruct x.
    + specialize (Hk ltac:(discriminate)).
      change (String.concat " " (x :: k :: ks))
        with (x ++ " " ++ String.concat " " (k :: ks)).
      destruct (String.concat " " (k :: ks)); [contradiction|reflexivity].
Qed.

Lemma dropEmptyFront_pieces (P : string -> Prop) (l : list string) :
  Forall P l -> Forall P (dropEmptyFront l).
Proof.
  induction l as [|x l IH]; [auto|].
  intro H. inversion H; subst. destruct x; [now apply IH|exact H].
Qed.

(** [sanitizeInput], piece by piece. *)
Lemma sanitizeInput_pieces (input : string) :
  sanitizeInput input = joinedPieces input.
Proof.
  unfold sanitizeInput, joinedPieces, trim.
  rewrite collapseWhitespace_pieces, (removeAll_concat isControl) by reflexivity.
  rewrite <- removeAll_without.
  assert (H : Forall (fun piece => anyChar isWhitespace piece = false)
                     (map (removeAll isControl)
                          (splitWhitespace (removeAll isMarkup input)))).
  { apply Forall_map.
    destruct (splitWhitespace_pieces (removeAll isMarkup input)) as (_ & Hall & _).
    revert Hall. apply Forall_impl. intros piece Hp. now apply removeAll_keeps. }
  rewrite (trimStart_concat _ H),
    (trimEnd_concat _ (dropEmptyFront_pieces _ _ H)).
  do 3 f_equal. apply map_ext. intro piece. apply removeAll_without.
Qed.

(** The characters that are not whitespace pass through unless they are
    among the five or control characters. *)
Lemma sanitizeInput_characters (input : string) :
  without isWhitespace (sanitizeInput input)
  = without (fun c => isMarkup c || isControl c || isWhitespace c) input.
Proof.
  rewrite <- !removeAll_without. unfold sanitizeInput, trim, collapseWhitespace.
  rewrite removeAll_trimEnd, removeAll_trimStart by auto.
  rewrite removeAll_removeAll.
  rewrite removeAll_collapseFrom
    by (intros c Hc; rewrite Hc; apply orb_true_r).
  rewrite removeAll_removeAll. apply removeAll_ext.
  intro c. now rewrite orb_assoc.
Qed.

End Pieces.

(** C7, as the code has it.  The sanitized string is made of the pieces of
    the input between its runs of whitespace, each without the five markup
    characters and without control characters, joined by single spaces, the
    empty pieces at the two ends left out: every run of whitespace has become
    one space, and every character that is not whitespace, not one of the
    five and not a control character is kept in its place.  So the sanitized
    string holds none of the five characters and no control character, its
    only whitespace is the space character, and it is trimmed; no two spaces
    are adjacent in it unless a control character stood between them; the
    search sees the input through its sanitized form only.  The sanitized
    form of the script example keeps the parentheses and the slash, and the
    search on it is the search on that form.  The five characters are the
    less-than sign, the greater-than sign, the double quote (code 34), the
    apostrophe and the ampersand, and no other. *)
Theorem sanitizeInput_properties :
  (forall c : ascii,
      isMarkup c = existsb (Ascii.eqb c) ["<"; ">"; "034"; "'"; "&"]%char)
  /\ (forall input : string,
      let s := sanitizeInput input in
      s = joinedPieces input
      /\ collapseWhitespace (without isMarkup input)
         = String.concat " " (splitWhitespace (without isMarkup input))
      /\ without isWhitespace s
         = without (fun c => isMarkup c || isControl c || isWhitespace c) input
      /\ anyChar isMarkup s = false
      /\ anyChar isControl s = false
      /\ anyChar isOddWhitespace s = false
      /\ trim s = s
      /\ noAdjacentWhitespace (collapseWhitespace (removeAll isMarkup input)) = true
      /\ (anyChar isBareControl input = false -> noAdjacentWhitespace s = true)
      /\ (forall engine buzzwords,
             performSearch engine buzzwords input
             = searchSanitized engine buzzwords s))
  /\ sanitizeInput "<script>alert(1)</script>synergy"
     = "scriptalert(1)/scriptsynergy"
  /\ (forall engine buzzwords,
         performSearch engine buzzwords "<script>alert(1)</script>synergy"
         = performSearch engine buzzwords "scriptalert(1)/scriptsynergy").
Proof.
  split; [intros [[] [] [] [] [] [] [] []]; reflexivity|].
  split; [|split; [reflexivity|]].
  - intros input s. subst s.
    split; [apply sanitizeInput_pieces|].
    split; [apply collapseWhitespace_pieces|].
    split; [apply sanitizeInput_characters|].
    unfold sanitizeInput, collapseWhitespace.
    repeat split.
    + apply trim_keeps, removeAll_keeps, collapseFrom_keeps;
        [reflexivity|apply removeAll_none].
    + apply trim_keeps, removeAll_none.
    + apply trim_keeps, removeAll_keeps, collapseFrom_spaces.
    + apply trim_idem.
    + apply collapseFrom_noAdjacent.
    + intro H.
      rewrite (removeAll_id isControl)
        by (apply collapseFrom_no_control; now apply removeAll_keeps).
      apply noAdjacent_trimEnd, noAdjacent_trimStart, collapseFrom_noAdjacent.
    + intros engine buzzwords. apply performSearch_sanitized.
  - intros engine buzzwords. now rewrite !performSearch_sanitized.
Qed.

(** C7 as stated fails: the script example and the string the claim equates it
    with are searched differently, whatever the sort of the engine. *)
Lemma script_example_differs :
  exists r,
    (forall engine,
        performSearch engine [synergy] "<script>alert(1)</script>synergy"
        = ShowResults [])
    /\ (forall engine,
           performSearch engine [synergy] "scriptalert1script synergy"
           = ShowResults [r])
    /\ match_ r = "synergy".
Proof.
  eexists. split; [intro engine; run_search engine; reflexivity|].
  split; [intro engine; run_search engine; reflexivity|]. reflexivity.
Qed.

(** ** Validation *)

(** C6.  The empty query shows the examples, which is not the display of an
    empty result list; [a] is too short; [123] has no letter; a query of 101
    letters is too long: each a value of its own, none an exception. *)
Theorem validation_examples (engine : ArraySort) (buzzwords : list Buzzword)
        (q : string) :
  String.length q = 101 ->
  allChars isLetter q = true ->
  performSearch engine buzzwords "" = ShowExamples
  /\ ShowExamples <> ShowResults []
  /\ performSearch engine buzzwords "a" = ShowHint too_short
  /\ performSearch engine buzzwords "123" = ShowHint invalid_characters
  /\ performSearch engine buzzwords q = ShowHint too_long
  /\ message (validateSearchInput "") = msg_empty
  /\ message (validateSearchInput "a") = too_short
  /\ message (validateSearchInput "123") = invalid_characters
  /\ message (validateSearchInput q) = too_long.
Proof.
  intros Hlen Hletters.
  assert (Hq : validateSearchInput q
               = {| valid := false; sanitized := q; message := too_long |}).
  { unfold validateSearchInput. rewrite (sanitizeInput_letters q Hletters), Hlen.
    reflexivity. }
  repeat split; try reflexivity; try discriminate.
  - unfold performSearch. now rewrite Hq.
  - now rewrite Hq.
Qed.

Lemma validation_examples_witness :
  performSearch insertionSort [synergy] "" = ShowExamples
  /\ performSearch insertionSort [synergy]
       "abcdefghijklmnopqrstuvwxyzabcdefghijklmnopqrstuvwxyzabcdefghijklmnopqrstuvwxyzabcdefghijklmnopqrstuvw"
     = ShowHint too_long.
Proof.
  pose proof (validation_examples insertionSort [synergy]
    "abcdefghijklmnopqrstuvwxyzabcdefghijklmnopqrstuvwxyzabcdefghijklmnopqrstuvwxyzabcdefghijklmnopqrstuvw"
    eq_refl eq_refl) as H.
  split; [apply H|apply H].
Defined.

(** C10.  The length checks come before the letter check, too short before
    too long: a sanitized query of one character is too short and one of more
    than 100 characters too long, whatever it holds; the letter check decides
    only for lengths 2 to 100. *)
Theorem validation_precedence (input : string) :
  let v := validateSearchInput input in
  let s := sanitizeInput input in
  sanitized v = s
  /\ (String.length s = 1 -> message v = too_short)
  /\ (100 < String.length s -> message v = too_long)
  /\ (message v = invalid_characters
      <-> 2 <= String.length s <= 100 /\ hasLetter s = false)
  /\ (message v = too_short <-> String.length s = 1)
  /\ (message v = too_long <-> 100 < String.length s).
Proof.
  cbv zeta. unfold validateSearchInput.
  destruct (Nat.eqb (String.length (sanitizeInput input)) 0) eqn:E0;
    [apply Nat.eqb_eq in E0|apply Nat.eqb_neq in E0].
  { simpl. repeat split; try discriminate; lia. }
  destruct (Nat.ltb (String.length (sanitizeInput input)) 2) eqn:E2;
    [apply Nat.ltb_lt in E2|apply Nat.ltb_ge in E2].
  { simpl. repeat split; try discriminate; try lia; reflexivity. }
  destruct (Nat.ltb 100 (String.length (sanitizeInput input))) eqn:E100;
    [apply Nat.ltb_lt in E100|apply Nat.ltb_ge in E100].
  { simpl. repeat split; try discriminate; try lia; reflexivity. }
  destruct (hasLetter (sanitizeInput input)) eqn:EL; simpl.
  - repeat split; try discriminate; try lia.
  - repeat split; try discriminate; try lia; reflexivity.
Qed.

Lemma rankEntries_origin (engine : ArraySort) (candidates : list Buzzword)
      (nq : string) (qw : list string) (r : SearchResult) :
  In r (rankEntries engine candidates nq qw) ->
  exists b, In b candidates
            /\ calculateRelevanceScore b nq qw = Some r
            /\ (0.1 <? relevanceScore r)%float = true.
Proof.
  unfold rankEntries. intro H. apply in_firstn in H.
  apply (Permutation_in _ (sort_permutation engine _ compareResults _)) in H.
  rewrite scoredResults_flat_map in H.
  apply in_flat_map in H. destruct H as (b & Hb & Hr).
  exists b. split; [exact Hb|].
  unfold keptResult in Hr.
  destruct (calculateRelevanceScore b nq qw) as [r'|]; [|contradiction].
  destruct (0.1 <? relevanceScore r')%float eqn:E; [|contradiction].
  destruct Hr as [->|[]]. now split.
Qed.

Lemma searchWithFuzzyMatching_origin (engine : ArraySort)
      (buzzwords : list Buzzword) (query : string)
      (results : list SearchResult) (r : SearchResult) :
  searchWithFuzzyMatching engine buzzwords query = Some results ->
  In r results ->
  exists b nq qw,
    In b buzzwords /\ isRelevant nq qw b = true
    /\ calculateRelevanceScore b nq qw = Some r
    /\ (0.1 <? relevanceScore r)%float = true.
Proof.
  unfold searchWithFuzzyMatching.
  destruct (isEmpty query); [discriminate|].
  destruct (filter _ (splitWhitespace _)) as [|w ws] eqn:E.
  - intros [= <-] [].
  - intros [= <-] H. apply rankEntries_origin in H.
    destruct H as (b & Hb & Hr & Hs). apply filter_In in Hb.
    exists b, (trim (toLowerCase query)), (w :: ws). tauto.
Qed.

Lemma calculateRelevanceScore_fields (b : Buzzword) (nq : string)
      (qw : list string) (r : SearchResult) :
  calculateRelevanceScore b nq qw = Some r ->
  phrase b = Some (match_ r) /\ res_translation r = translation b.
Proof.
  unfold calculateRelevanceScore.
  destruct (phrase b) as [p|]; [|discriminate].
  destruct (firstRules b (toLowerCase p) nq qw) as [st|]; [|discriminate].
  destruct (fuzzyRule (toLowerCase p) nq st) as [[rel matched] mtype].
  intros [= <-]. now split.
Qed.

(** ** Dictionary load *)

(** C8, as the code has it.  The load is refused exactly when the dictionary
    is empty or more than half of its entries lack a phrase or a translation;
    otherwise the engine holds the supplied list as it is, invalid entries
    included.  The search skips the entries without a phrase: every result
    comes from an entry of the list with a non-empty phrase, and carries that
    entry's translation, present or not. *)
Theorem initialize_keeps_dictionary (buzzwords : list Buzzword) :
  (initialize buzzwords = LoadError
   <-> buzzwords = []
       \/ List.length buzzwords
          < 2 * List.length (filter isInvalidBuzzword buzzwords))
  /\ (forall engineBuzzwords,
         initialize buzzwords = Initialized engineBuzzwords ->
         engineBuzzwords = buzzwords)
  /\ (forall engine query results r,
         searchWithFuzzyMatching engine buzzwords query = Some results ->
         In r results ->
         exists b, In b buzzwords
                   /\ phrase b = Some (match_ r)
                   /\ match_ r <> EmptyString
                   /\ res_translation r = translation b).
Proof.
  unfold initialize. repeat split.
  - destruct buzzwords as [|b l]; [now left|]. cbn [List.length Nat.eqb].
    destruct (Nat.ltb _ _) eqn:E; [|discriminate].
    intros _. right. now apply Nat.ltb_lt in E.
  - intros [->|H]; [reflexivity|].
    destruct buzzwords as [|b l]; [reflexivity|]. cbn [List.length Nat.eqb].
    apply Nat.ltb_lt in H. cbn [List.length] in H. now rewrite H.
  - intro e. destruct (Nat.eqb _ 0); [discriminate|].
    destruct (Nat.ltb _ _); [discriminate|]. now intros [= <-].
  - intros engine query results r Hs Hr.
    destruct (searchWithFuzzyMatching_origin _ _ _ _ _ Hs Hr)
      as (b & nq & qw & Hb & Hrel & Hscore & _).
    destruct (calculateRelevanceScore_fields _ _ _ _ Hscore) as [Hp Ht].
    exists b. repeat split; try assumption.
    unfold isRelevant in Hrel. rewrite Hp in Hrel.
    intro Hempty. rewrite Hempty in Hrel. discriminate.
Qed.

(** C8 as stated fails: an entry with an empty translation is not dropped; the
    engine is initialized with it and the search returns it. *)
Lemma untranslated_entry_kept :
  isInvalidBuzzword leverageUntranslated = true
  /\ initialize [leverageUntranslated; synergy; takeThisOffline]
     = Initialized [leverageUntranslated; synergy; takeThisOffline]
  /\ exists r,
      (forall engine,
          performSearch engine [leverageUntranslated; synergy; takeThisOffline]
                        "leverage"
          = ShowResults [r])
      /\ match_ r = "leverage"
      /\ res_translation r = Some "".
Proof.
  split; [reflexivity|]. split; [reflexivity|].
  eexists. split; [intro engine; run_search engine; reflexivity|]. now split.
Qed.

(** ** The pre-filter *)

(** C1 fails on the code.  For the query [synergyy] the pre-filter removes the
    entry [synergy], which the matcher scores 0.9 as a query-contains match:
    the search returns nothing where the matcher run over every entry returns
    that entry. *)
Theorem prefilter_changes_results (engine : ArraySort) :
  message (validateSearchInput "synergyy") = msg_valid
  /\ searchWithFuzzyMatching engine [synergy] "synergyy" = Some []
  /\ exists r,
      searchEveryEntry engine [synergy] "synergyy" = Some [r]
      /\ match_ r = "synergy"
      /\ matchType r = query_contains
      /\ relevanceScore r = 0.9%float.
Proof.
  split; [reflexivity|]. split.
  - rewrite searchWithFuzzyMatching_candidates by reflexivity.
    remember (candidateResults [synergy] "synergyy") as c eqn:Hc.
    vm_compute in Hc. subst c. now rewrite sort_nil.
  - unfold searchEveryEntry, rankEntries. cbv zeta.
    remember (scoredResults _ _ _) as c eqn:Hc in |- *.
    vm_compute in Hc. subst c. rewrite sort_singleton.
    eexists. split; [reflexivity|]. now repeat split.
Qed.

(** C5 as stated fails: the search for [synergyy] in a dictionary that holds
    the entry [synergy] returns no result at all. *)
Lemma synergyy_not_returned :
  (forall engine, performSearch engine [synergy] "synergyy" = ShowResults [])
  /\ (forall engine,
         performSearch engine [synergy; takeThisOffline] "synergyy"
         = ShowResults []).
Proof. split; intro engine; run_search engine; reflexivity. Qed.

(** C5, as the matcher has it.  Applied to the entry [synergy] and the query
    [synergyy], the matcher returns the phrase [synergy] as a query-contains
    match (the query contains the phrase, which comes before the fuzzy rule)
    with relevance 0.9, above the threshold 0.1. *)
Theorem synergyy_matcher :
  exists r,
    calculateRelevanceScore synergy "synergyy" ["synergyy"] = Some r
    /\ match_ r = "synergy"
    /\ matchType r = query_contains
    /\ relevanceScore r = 0.9%float
    /\ (0.1 <? relevanceScore r)%float = true.
Proof.
  eexists. split; [vm_compute; reflexivity|]. now repeat split.
Qed.


(** ** Binary64 arithmetic

    Facts on the operations of the format, read off their specification in
    [SpecFloat]: how many bits a mantissa has, what the two shifts of a
    rounding do, and from there the signs and bounds the ranking relies on. *)

Section Binary64.

#[local] Open Scope Z_scope.

Section Digits.

Lemma digits2_pos_bounds (m : positive) :
  2 ^ (Zpos (digits2_pos m) - 1) <= Zpos m < 2 ^ Zpos (digits2_pos m).
Proof.
  induction m as [m IH|m IH|]; cbn [digits2_pos].
  - rewrite Pos2Z.inj_succ.
    replace (Z.succ (Zpos (digits2_pos m)) - 1) with (Z.succ (Zpos (digits2_pos m) - 1)) by lia.
    rewrite !Z.pow_succ_r by lia. lia.
  - rewrite Pos2Z.inj_succ.
    replace (Z.succ (Zpos (digits2_pos m)) - 1) with (Z.succ (Zpos (digits2_pos m) - 1)) by lia.
    rewrite !Z.pow_succ_r by lia. lia.
  - simpl. lia.
Qed.

Lemma Zdigits2_bounds (m : Z) :
  0 < m -> 2 ^ (Zdigits2 m - 1) <= m < 2 ^ Zdigits2 m.
Proof. destruct m; try lia. intros _. apply digits2_pos_bounds. Qed.

Lemma Zdigits2_nonneg (m : Z) : 0 <= Zdigits2 m.
Proof. destruct m; simpl; lia. Qed.

Lemma Zdigits2_pos (m : Z) : 0 < m -> 0 < Zdigits2 m.
Proof. destruct m; simpl; lia. Qed.

(** [m < 2 ^ k] bounds the number of digits, [2 ^ k <= m] bounds it below. *)
Lemma Zdigits2_le (m k : Z) : 0 < m -> 0 <= k -> m < 2 ^ k -> Zdigits2 m <= k.
Proof.
  intros Hm Hk H. pose proof (Zdigits2_bounds m Hm) as [Hlo _].
  destruct (Z_le_gt_dec (Zdigits2 m) k) as [|Hgt]; [assumption|exfalso].
  assert (2 ^ k <= 2 ^ (Zdigits2 m - 1)) by (apply Z.pow_le_mono_r; lia).
  lia.
Qed.

Lemma Zdigits2_ge (m k : Z) : 0 <= k -> 2 ^ k <= m -> k + 1 <= Zdigits2 m.
Proof.
  intros Hk H. assert (Hm : 0 < m) by (pose proof (Z.pow_pos_nonneg 2 k); lia).
  pose proof (Zdigits2_bounds m Hm) as [_ Hhi].
  destruct (Z_le_gt_dec (k + 1) (Zdigits2 m)) as [|Hgt]; [assumption|exfalso].
  pose proof (Zdigits2_nonneg m).
  assert (2 ^ Zdigits2 m <= 2 ^ k) by (apply Z.pow_le_mono_r; lia).
  lia.
Qed.

End Digits.

Section Shifting.

Lemma shr_1_m (mrs : shr_record) :
  0 <= shr_m mrs -> shr_m (shr_1 mrs) = shr_m mrs / 2.
Proof.
  destruct mrs as [m r s]. simpl. intro H.
  destruct m as [|p|p]; try lia.
  - reflexivity.
  - destruct p as [p|p|]; simpl.
    + rewrite Pos2Z.inj_xI. apply Z.div_unique with 1; lia.
    + rewrite Pos2Z.inj_xO. apply Z.div_unique with 0; lia.
    + reflexivity.
Qed.

Lemma pow2_xI (p : positive) : 2 ^ Zpos p~1 = 2 * 2 ^ Zpos p * 2 ^ Zpos p.
Proof.
  replace (Zpos p~1) with (1 + Zpos p + Zpos p) by lia.
  rewrite !Z.pow_add_r by lia. lia.
Qed.

Lemma pow2_xO (p : positive) : 2 ^ Zpos p~0 = 2 ^ Zpos p * 2 ^ Zpos p.
Proof.
  replace (Zpos p~0) with (Zpos p + Zpos p) by lia.
  now rewrite Z.pow_add_r by lia.
Qed.

Lemma iter_pos_shr_1 (p : positive) :
  forall mrs, 0 <= shr_m mrs ->
              shr_m (iter_pos shr_1 p mrs) = shr_m mrs / 2 ^ Zpos p.
Proof.
  induction p as [p IH|p IH|]; intros mrs H; cbn [iter_pos].
  - assert (Hp : 0 < 2 ^ Zpos p) by (apply Z.pow_pos_nonneg; lia).
    assert (H1 : 0 <= shr_m (shr_1 mrs)) by (rewrite shr_1_m by lia; apply Z.div_pos; lia).
    assert (H2 : 0 <= shr_m (iter_pos shr_1 p (shr_1 mrs)))
      by (rewrite IH by lia; apply Z.div_pos; lia).
    rewrite IH, IH, shr_1_m by lia.
    rewrite !Z.div_div by lia. rewrite pow2_xI. f_equal. lia.
  - assert (Hp : 0 < 2 ^ Zpos p) by (apply Z.pow_pos_nonneg; lia).
    assert (H2 : 0 <= shr_m (iter_pos shr_1 p mrs))
      by (rewrite IH by lia; apply Z.div_pos; lia).
    rewrite IH, IH by lia.
    rewrite !Z.div_div by lia. rewrite pow2_xO. f_equal.
  - now apply shr_1_m.
Qed.

Lemma shr_m_of_loc (m : Z) (l : location) : shr_m (shr_record_of_loc m l) = m.
Proof. destruct l as [|[]]; reflexivity. Qed.

(** One [shr_fexp]: the mantissa is divided by the power of two that brings
    the exponent up to [fexp]. *)
Lemma shr_fexp_spec (m e : Z) (l : location) :
  0 <= m ->
  let e' := Z.max e (fexp prec emax (Zdigits2 m + e)) in
  shr_m (fst (shr_fexp prec emax m e l)) = m / 2 ^ (e' - e)
  /\ snd (shr_fexp prec emax m e l) = e'.
Proof.
  intros Hm e'. unfold shr_fexp, shr.
  destruct (fexp prec emax (Zdigits2 m + e) - e) as [|p|p] eqn:E; cbn [fst snd].
  - replace (e' - e) with 0 by lia. rewrite shr_m_of_loc, Z.pow_0_r, Z.div_1_r.
    split; [reflexivity|lia].
  - rewrite iter_pos_shr_1 by (rewrite shr_m_of_loc; lia).
    rewrite shr_m_of_loc. replace (e' - e) with (Zpos p) by lia. split; [reflexivity|lia].
  - replace (e' - e) with 0 by lia. rewrite shr_m_of_loc, Z.pow_0_r, Z.div_1_r.
    split; [reflexivity|lia].
Qed.

Lemma round_nearest_even_bounds (m : Z) (l : location) :
  m <= round_nearest_even m l <= m + 1.
Proof.
  destruct l as [|[]]; simpl; try lia. destruct (Z.even m); lia.
Qed.

End Shifting.

Section Rounding.

Lemma binary_round_aux_spec (s : bool) (m e : Z) (l : location) :
  0 <= m ->
  let e1 := Z.max e (fexp prec emax (Zdigits2 m + e)) in
  exists m1, m / 2 ^ (e1 - e) <= m1 <= m / 2 ^ (e1 - e) + 1
             /\ binary_round_aux prec emax s m e l = roundedTo s m1 e1.
Proof.
  intros Hm. cbv zeta. unfold binary_round_aux.
  pose proof (shr_fexp_spec m e l Hm) as [Hq He]. cbv zeta in Hq, He.
  destruct (shr_fexp prec emax m e l) as [mrs' e'] eqn:E1. cbn [fst snd] in Hq, He.
  pose proof (round_nearest_even_bounds (shr_m mrs') (loc_of_shr_record mrs')) as Hr.
  assert (Hq0 : 0 <= shr_m mrs').
  { rewrite Hq. apply Z.div_pos; [lia|]. apply Z.pow_pos_nonneg; lia. }
  exists (round_nearest_even (shr_m mrs') (loc_of_shr_record mrs')).
  split; [rewrite <- Hq; exact Hr|].
  pose proof (shr_fexp_spec (round_nearest_even (shr_m mrs') (loc_of_shr_record mrs'))
                e' loc_Exact ltac:(lia)) as [Hq2 He2].
  cbv zeta in Hq2, He2.
  destruct (shr_fexp prec emax _ e' loc_Exact) as [mrs'' e''] eqn:E2.
  cbn [fst snd] in Hq2, He2. unfold roundedTo. subst e'.
  rewrite Hq2, He2. reflexivity.
Qed.

Lemma roundedTo_sign (s : bool) (m1 e1 : Z) : 0 <= m1 -> signIs s (roundedTo s m1 e1).
Proof.
  intro H. unfold roundedTo.
  set (e2 := Z.max e1 _).
  assert (0 <= m1 / 2 ^ (e2 - e1)).
  { apply Z.div_pos; [lia|]. apply Z.pow_pos_nonneg; [lia|]. unfold e2. lia. }
  destruct (m1 / 2 ^ (e2 - e1)); try lia; [reflexivity|].
  destruct (e2 <=? emax - prec); reflexivity.
Qed.

Lemma binary_round_aux_sign (s : bool) (m e : Z) (l : location) :
  0 <= m -> signIs s (binary_round_aux prec emax s m e l).
Proof.
  intro Hm. destruct (binary_round_aux_spec s m e l Hm) as (m1 & Hm1 & ->).
  apply roundedTo_sign.
  assert (0 <= m / 2 ^ (Z.max e (fexp prec emax (Zdigits2 m + e)) - e)).
  { apply Z.div_pos; [lia|]. apply Z.pow_pos_nonneg; lia. }
  lia.
Qed.

Lemma div_pow2_lower (m a n : Z) :
  0 <= n <= a -> 2 ^ a <= m -> 2 ^ (a - n) <= m / 2 ^ n.
Proof.
  intros Hn H.
  assert (Hp : 0 < 2 ^ n) by (apply Z.pow_pos_nonneg; lia).
  replace (2 ^ (a - n)) with ((2 ^ (a - n) * 2 ^ n) / 2 ^ n) by (apply Z.div_mul; lia).
  apply Z.div_le_mono; [lia|].
  rewrite <- Z.pow_add_r by lia. now replace (a - n + n) with a by lia.
Qed.

(** A mantissa whose leading bit sits at or above the least exponent is not
    rounded to zero by oneSF shift. *)
Lemma shift_keeps_weight (m e : Z) :
  0 < m -> -1074 <= Zdigits2 m - 1 + e ->
  let e1 := Z.max e (fexp prec emax (Zdigits2 m + e)) in
  let q := m / 2 ^ (e1 - e) in
  0 < q /\ (forall m1, q <= m1 -> -1074 <= Zdigits2 m1 - 1 + e1).
Proof.
  intros Hm Hw e1 q.
  pose proof (Zdigits2_bounds m Hm) as [Hlo _].
  pose proof (Zdigits2_pos m Hm) as Hd.
  assert (Hn : 0 <= e1 - e <= Zdigits2 m - 1).
  { unfold e1, fexp, SpecFloat.emin, prec, emax in *. lia. }
  pose proof (div_pow2_lower m (Zdigits2 m - 1) (e1 - e) Hn Hlo) as Hq. fold q in Hq.
  assert (Hpos : 0 < 2 ^ (Zdigits2 m - 1 - (e1 - e))) by (apply Z.pow_pos_nonneg; lia).
  split; [lia|]. intros m1 Hm1.
  assert (Hge : Zdigits2 m - 1 - (e1 - e) + 1 <= Zdigits2 m1) by (apply Zdigits2_ge; lia).
  lia.
Qed.

Lemma roundedTo_nonZero (s : bool) (m1 e1 : Z) :
  0 < m1 -> -1074 <= Zdigits2 m1 - 1 + e1 -> nonZero (roundedTo s m1 e1).
Proof.
  intros Hm Hw. unfold roundedTo.
  destruct (shift_keeps_weight m1 e1 Hm Hw) as [Hq _]. cbv zeta in Hq.
  destruct (m1 / 2 ^ _); try lia.
  now destruct (_ <=? _).
Qed.

Lemma binary_round_aux_nonZero (s : bool) (m e : Z) (l : location) :
  0 < m -> -1074 <= Zdigits2 m - 1 + e ->
  nonZero (binary_round_aux prec emax s m e l).
Proof.
  intros Hm Hw. destruct (binary_round_aux_spec s m e l ltac:(lia)) as (m1 & Hm1 & ->).
  destruct (shift_keeps_weight m e Hm Hw) as [Hq Hnext].
  apply roundedTo_nonZero; [lia|]. apply Hnext. lia.
Qed.

End Rounding.

Section Bounds.

Lemma roundedTo_le_one (m1 e1 : Z) :
  0 <= m1 <= 2 ^ (- e1) -> e1 <= -53 -> atMostOne (roundedTo false m1 e1).
Proof.
  intros Hm He. unfold roundedTo.
  set (e2 := Z.max e1 (fexp prec emax (Zdigits2 m1 + e1))).
  destruct (Z.eq_dec m1 0) as [->|Hnz]; [now rewrite Z.div_0_l by (apply Z.pow_nonzero; unfold e2; lia)|].
  assert (Hd : Zdigits2 m1 <= 1 - e1).
  { apply Zdigits2_le; try lia.
    replace (1 - e1) with (Z.succ (- e1)) by lia. rewrite Z.pow_succ_r by lia. lia. }
  assert (He2 : e1 <= e2 <= -52) by (unfold e2, fexp, SpecFloat.emin, prec, emax; lia).
  destruct (m1 / 2 ^ (e2 - e1)) as [|p|p] eqn:Ediv; try exact I.
  replace (e2 <=? emax - prec) with true by (symmetry; apply Z.leb_le; unfold emax, prec; lia).
  right. destruct (Z.eq_dec e2 (-52)) as [E|E]; [right; split; [exact E|]|left; lia].
  assert (Hdig : Zdigits2 m1 = 1 - e1)
    by (unfold e2, fexp, SpecFloat.emin, prec, emax in E; lia).
  pose proof (Zdigits2_bounds m1 ltac:(lia)) as [Hlo _].
  rewrite Hdig in Hlo. replace (1 - e1 - 1) with (- e1) in Hlo by lia.
  assert (Hm1 : m1 = 2 ^ (- e1)) by lia.
  rewrite Hm1, <- Z.pow_sub_r in Ediv by lia.
  replace (- e1 - (e2 - e1)) with 52 in Ediv by lia.
  change (2 ^ 52) with 4503599627370496 in Ediv. lia.
Qed.

Lemma binary_round_aux_le_one (m e : Z) (l : location) :
  0 <= m < 2 ^ (- e) -> e <= -53 ->
  atMostOne (binary_round_aux prec emax false m e l).
Proof.
  intros Hm He.
  destruct (binary_round_aux_spec false m e l ltac:(lia)) as (m1 & Hm1 & ->).
  set (e1 := Z.max e (fexp prec emax (Zdigits2 m + e))) in *.
  assert (He1 : e <= e1 <= -53).
  { destruct (Z.eq_dec m 0) as [->|Hnz];
      [unfold e1, fexp, SpecFloat.emin, prec, emax; simpl; lia|].
    assert (Zdigits2 m <= - e) by (apply Zdigits2_le; lia).
    unfold e1, fexp, SpecFloat.emin, prec, emax. lia. }
  assert (Hq : m / 2 ^ (e1 - e) < 2 ^ (- e1)).
  { apply Z.div_lt_upper_bound; [apply Z.pow_pos_nonneg; lia|].
    rewrite <- Z.pow_add_r by lia. now replace (e1 - e + - e1) with (- e) by lia. }
  assert (0 <= m / 2 ^ (e1 - e)) by (apply Z.div_pos; [lia|apply Z.pow_pos_nonneg; lia]).
  apply roundedTo_le_one; lia.
Qed.

(** The mantissa of a valid number has at most 53 bits. *)
Lemma valid_mantissa (s : bool) (m : positive) (e : Z) :
  valid_binary (S754_finite s m e) = true -> Zpos m < 9007199254740992.
Proof.
  unfold SpecFloat.valid_binary, bounded, canonical_mantissa. intro H.
  apply andb_prop in H. destruct H as [H _]. apply Z.eqb_eq in H.
  pose proof (digits2_pos_bounds m) as [_ Hhi].
  assert (Zpos (digits2_pos m) <= 53)
    by (unfold fexp, SpecFloat.emin, prec, emax in H; lia).
  assert (2 ^ Zpos (digits2_pos m) <= 2 ^ 53) by (apply Z.pow_le_mono_r; lia).
  change (2 ^ 53) with 9007199254740992 in *. lia.
Qed.

Lemma mul_le_one (x : spec_float) :
  valid_binary x = true -> atMostOne x -> atMostOne (SF64mul x sixTenthsSF).
Proof.
  intros Hv Hx. destruct x as [s|s| |s m e]; try exact I.
  - simpl in *. now subst s.
  - unfold SF64mul, SFmul, sixTenthsSF. destruct s.
    + pose proof (binary_round_aux_sign true (Zpos (m * 5404319552844595)) (e + -53)
                    loc_Exact ltac:(lia)) as Hs.
      cbn [xorb]. destruct (binary_round_aux _ _ _ _ _ _); simpl in *; auto.
    + cbn [xorb]. pose proof (valid_mantissa _ _ _ Hv) as Hm.
      apply binary_round_aux_le_one.
      * split; [lia|]. rewrite Pos2Z.inj_mul.
        destruct Hx as [Hx|[Hx|[Hx1 Hx2]]]; [discriminate| |].
        -- assert (2 ^ 106 <= 2 ^ (- (e + -53))) by (apply Z.pow_le_mono_r; lia).
           change (2 ^ 106) with (9007199254740992 * 9007199254740992) in H. nia.
        -- subst e.
           change (2 ^ (- (-52 + -53))) with (4503599627370496 * 9007199254740992).
           nia.
      * destruct Hx as [Hx|[Hx|[Hx1 Hx2]]]; [discriminate|lia|lia].
Qed.

End Bounds.

Section Subtraction.

Lemma iter_xO (d : positive) (m : positive) :
  Zpos (Pos.iter xO m d) = Zpos m * 2 ^ Zpos d.
Proof.
  revert m. induction d as [d IH|d IH|]; intro m; cbn [Pos.iter].
  - rewrite Pos2Z.inj_xO, !IH, pow2_xI. lia.
  - rewrite !IH, pow2_xO. lia.
  - rewrite Pos2Z.inj_xO. change (2 ^ 1) with 2. lia.
Qed.

(** Aligning a mantissa to a smaller exponent multiplies it by the power of
    two between the exponents. *)
Lemma shl_align_fst (m : positive) (e e' : Z) :
  e' <= e -> Zpos (fst (shl_align m e e')) = Zpos m * 2 ^ (e - e').
Proof.
  intro H. unfold shl_align.
  destruct (e' - e) as [|p|p] eqn:E; cbn [fst]; try lia.
  - replace (e - e') with 0 by lia. lia.
  - rewrite iter_xO. now replace (e - e') with (Zpos p) by lia.
Qed.

Lemma binary_round_sign (s : bool) (m : positive) (e : Z) :
  signIs s (binary_round prec emax s m e).
Proof.
  unfold binary_round. destruct (shl_align _ _ _) as [mz ez].
  apply binary_round_aux_sign. lia.
Qed.

Lemma binary_normalize_positive (m e : Z) :
  0 < m -> signIs false (binary_normalize prec emax m e false).
Proof. destruct m; try lia. intros _. apply binary_round_sign. Qed.

Lemma binary_round_aux_opposite (s : bool) (m e : Z) (l : location) :
  opposite (binary_round_aux prec emax s m e l)
           (binary_round_aux prec emax (negb s) m e l).
Proof.
  unfold binary_round_aux.
  destruct (shr_fexp prec emax m e l) as [mrs' e'].
  destruct (shr_fexp prec emax _ e' loc_Exact) as [mrs'' e''].
  destruct (shr_m mrs''); simpl; auto.
  destruct (e'' <=? _); simpl; auto.
Qed.

Lemma binary_normalize_opposite (m e : Z) :
  opposite (binary_normalize prec emax m e false)
           (binary_normalize prec emax (- m) e false).
Proof.
  destruct m as [|p|p]; simpl; auto; unfold binary_round;
    destruct (shl_align _ _ _) as [mz ez].
  - apply (binary_round_aux_opposite false).
  - apply (binary_round_aux_opposite true).
Qed.

Lemma SFsub_opposite (x y : spec_float) :
  opposite (SF64sub x y) (SF64sub y x).
Proof.
  destruct x as [sx|sx| |sx mx ex], y as [sy|sy| |sy my ey];
    try (destruct sx, sy; simpl; auto; fail);
    try (destruct sx; simpl; auto; fail);
    try (destruct sy; simpl; auto; fail);
    try (simpl; auto; fail).
  unfold SF64sub, SFsub. rewrite (Z.min_comm ey ex).
  set (a := cond_Zopp sx _). set (b := cond_Zopp sy _).
  replace (b - a) with (- (a - b)) by lia.
  apply binary_normalize_opposite.
Qed.

Lemma opposite_abs (a b : spec_float) : opposite a b -> SFabs a = SFabs b.
Proof.
  destruct a, b; simpl; try tauto; try reflexivity.
  intros (_ & -> & ->). reflexivity.
Qed.

Lemma opposite_sign (a b : spec_float) (z : bool) :
  opposite a b ->
  SFltb a (S754_zero z) = SFltb (S754_zero z) b
  /\ SFltb (S754_zero z) a = SFltb b (S754_zero z).
Proof.
  destruct a as [s|s| |s m e], b as [s'|s'| |s' m' e']; simpl; try tauto;
    try (now split).
  - intros ->. now destruct s.
  - intros (-> & _). now destruct s.
Qed.

End Subtraction.

Section PrimitiveFacts.

#[local] Open Scope float_scope.

Lemma sub_swap_abs (x y c : float) : (c <? abs (x - y)) = (c <? abs (y - x)).
Proof.
  rewrite !ltb_spec, !abs_spec, !sub_spec.
  now rewrite (opposite_abs _ _ (SFsub_opposite (Prim2SF x) (Prim2SF y))).
Qed.

Lemma sub_swap_sign (x y : float) :
  (x - y <? 0) = (0 <? y - x) /\ (0 <? x - y) = (y - x <? 0).
Proof.
  rewrite !ltb_spec, !sub_spec.
  change (Prim2SF 0) with (S754_zero false).
  apply opposite_sign, SFsub_opposite.
Qed.

End PrimitiveFacts.

Section Ordering.

Lemma below_le_one (b c : spec_float) :
  positiveFinite c -> atMostOne c -> SFltb b c = true -> atMostOne b.
Proof.
  destruct c as [| | |[] mc ec]; try contradiction. intros _ Hc.
  destruct b as [s|s| |s m e]; unfold SFltb, SFcompare, atMostOne in *;
    try (intros _; exact I).
  - now destruct s.
  - destruct s; [now left|]. intro H. right. revert H.
    destruct Hc as [Hc|Hc]; [discriminate|].
    change (Pos.compare_cont Eq m mc) with (Pos.compare m mc).
    destruct (Z.compare_spec e ec) as [->|Hlt|Hgt]; try discriminate; [|lia].
    destruct (Pos.compare_spec m mc); try discriminate. lia.
Qed.

Lemma neither_below (b c : spec_float) :
  positiveFinite c -> SFltb b c = false -> SFltb c b = false ->
  b = S754_nan \/ b = c.
Proof.
  destruct c as [| | |[] mc ec]; try contradiction. intros _.
  destruct b as [s|s| |s m e]; unfold SFltb, SFcompare; auto; try discriminate.
  - destruct s; discriminate.
  - destruct s; [discriminate|].
    fold (Pos.compare m mc). fold (Pos.compare mc m).
    rewrite (Z.compare_antisym e ec), (Pos.compare_antisym m mc).
    destruct (Z.compare_spec e ec) as [->|Hlt|Hgt]; cbn [CompOpp]; try discriminate.
    destruct (Pos.compare_spec m mc) as [->|Hlt|Hgt]; cbn [CompOpp]; try discriminate.
    now right.
Qed.

Lemma SFeqb_refl (x : spec_float) : x <> S754_nan -> SFeqb x x = true.
Proof.
  destruct x as [s|s| |s m e]; unfold SFeqb, SFcompare; try congruence.
  - now destruct s.
  - intros _. fold (Pos.compare m m).
    rewrite Z.compare_refl, Pos.compare_refl. now destruct s.
Qed.

Lemma strictlyPositive_iff (x : spec_float) :
  SFltb (S754_zero false) x = true <-> strictlyPositive x.
Proof.
  destruct x as [s|[]| |[] m e]; unfold SFltb; simpl; split; auto; discriminate.
Qed.

Lemma strictlyPositive_split (x : spec_float) :
  signIs false x -> nonZero x -> strictlyPositive x.
Proof. destruct x as [s|s| |s m e]; simpl; try tauto; now intros ->. Qed.

End Ordering.

Section SubtractFromOne.

(** When a number at most oneSF is subtracted from oneSF and the difference is
    more than a hundredthSF in absolute value, the difference is positive. *)
Lemma one_minus (x : spec_float) :
  valid_binary x = true -> atMostOne x ->
  SFltb hundredthSF (SFabs (SF64sub oneSF x)) = true ->
  strictlyPositive (SF64sub oneSF x).
Proof.
  intros Hv Hx.
  assert (Hd : signIs false (SF64sub oneSF x)
               \/ SF64sub oneSF x = S754_zero false
               \/ SF64sub oneSF x = S754_nan).
  { destruct x as [s|s| |s m e]; simpl in Hx.
    - left. reflexivity.
    - subst s. left. reflexivity.
    - right. right. reflexivity.
    - unfold SF64sub, SFsub, oneSF.
      set (ez := Z.min (-52) e).
      rewrite (shl_align_fst _ (-52) ez), (shl_align_fst m e ez) by (unfold ez; lia).
      destruct s; cbn [cond_Zopp].
      + left. apply binary_normalize_positive.
        assert (0 < 2 ^ (-52 - ez)) by (apply Z.pow_pos_nonneg; unfold ez; lia).
        assert (0 < 2 ^ (e - ez)) by (apply Z.pow_pos_nonneg; unfold ez; lia).
        nia.
      + pose proof (valid_mantissa _ _ _ Hv) as Hm.
        destruct Hx as [Hx|[Hx|[Hx1 Hx2]]]; [discriminate| |].
        * left. apply binary_normalize_positive.
          replace ez with e by (unfold ez; lia).
          rewrite Z.sub_diag, Z.pow_0_r.
          change 4503599627370496 with (2 ^ 52). rewrite <- Z.pow_add_r by lia.
          assert (2 ^ 53 <= 2 ^ (52 + (-52 - e))) by (apply Z.pow_le_mono_r; lia).
          lia.
        * subst e. unfold ez.
          change (2 ^ (-52 - Z.min (-52) (-52))) with 1. rewrite !Z.mul_1_r.
          destruct (Z.eq_dec (Zpos m) 4503599627370496) as [->|Hne].
          -- right. left. reflexivity.
          -- left. apply binary_normalize_positive. lia. }
  intro Habs. destruct Hd as [Hd|[Hd|Hd]].
  - destruct (SF64sub oneSF x) as [s|s| |s m e]; simpl in *; subst; try exact I; try contradiction.
    discriminate.
  - rewrite Hd in Habs. discriminate.
  - rewrite Hd in Habs. discriminate.
Qed.

End SubtractFromOne.

Section Classes.

Lemma roundedTo_finite (s : bool) (m1 e1 : Z) :
  Zdigits2 m1 + e1 <= 1024 -> e1 <= 971 -> notInfinite (roundedTo s m1 e1).
Proof.
  intros Hd He. unfold roundedTo.
  set (e2 := Z.max e1 (fexp prec emax (Zdigits2 m1 + e1))).
  assert (e2 <= 971) by (unfold e2, fexp, SpecFloat.emin, prec, emax; lia).
  destruct (m1 / 2 ^ (e2 - e1)); try exact I.
  replace (e2 <=? emax - prec) with true
    by (symmetry; apply Z.leb_le; unfold emax, prec; lia).
  exact I.
Qed.

Lemma binary_round_aux_finite (s : bool) (m e : Z) (l : location) :
  0 <= m -> Zdigits2 m + e <= 1023 -> e <= 971 ->
  notInfinite (binary_round_aux prec emax s m e l).
Proof.
  intros Hm Hd He.
  destruct (binary_round_aux_spec s m e l Hm) as (m1 & Hm1 & ->).
  set (e1 := Z.max e (fexp prec emax (Zdigits2 m + e))) in *.
  assert (He1 : e <= e1 <= 971) by (unfold e1, fexp, SpecFloat.emin, prec, emax; lia).
  apply roundedTo_finite; [|lia].
  assert (Hq0 : 0 <= m / 2 ^ (e1 - e)) by (apply Z.div_pos; [lia|apply Z.pow_pos_nonneg; lia]).
  destruct (Z.eq_dec m1 0) as [->|Hnz]; [change (Zdigits2 0) with 0; lia|].
  destruct (Z.eq_dec m 0) as [->|Hmz].
  { rewrite Z.div_0_l in Hm1 by (apply Z.pow_nonzero; lia).
    assert (m1 = 1) by lia. subst m1. change (Zdigits2 1) with 1. lia. }
  pose proof (Zdigits2_bounds m ltac:(lia)) as [_ Hhi].
  pose proof (Zdigits2_pos m ltac:(lia)) as Hdp.
  destruct (Z_le_gt_dec (e1 - e) (Zdigits2 m)) as [Hn|Hn].
  - assert (Hq : m / 2 ^ (e1 - e) < 2 ^ (Zdigits2 m - (e1 - e))).
    { apply Z.div_lt_upper_bound; [apply Z.pow_pos_nonneg; lia|].
      rewrite <- Z.pow_add_r by lia.
      now replace (e1 - e + (Zdigits2 m - (e1 - e))) with (Zdigits2 m) by lia. }
    assert (Zdigits2 m1 <= Zdigits2 m - (e1 - e) + 1).
    { apply Zdigits2_le; try lia.
      replace (Zdigits2 m - (e1 - e) + 1) with (Z.succ (Zdigits2 m - (e1 - e))) by lia.
      rewrite Z.pow_succ_r by lia.
      assert (0 < 2 ^ (Zdigits2 m - (e1 - e))) by (apply Z.pow_pos_nonneg; lia).
      lia. }
    lia.
  - assert (Hq : m / 2 ^ (e1 - e) = 0).
    { apply Z.div_small. split; [lia|].
      assert (2 ^ Zdigits2 m <= 2 ^ (e1 - e)) by (apply Z.pow_le_mono_r; lia). lia. }
    assert (m1 = 1) by lia. subst m1. change (Zdigits2 1) with 1. lia.
Qed.

Lemma shl_align_spec (m : positive) (e e' : Z) :
  snd (shl_align m e e') = Z.min e e'
  /\ Zpos (fst (shl_align m e e')) = Zpos m * 2 ^ (e - Z.min e e').
Proof.
  unfold shl_align. destruct (e' - e) as [|p|p] eqn:E; cbn [fst snd].
  - replace (Z.min e e') with e by lia. rewrite Z.sub_diag. split; lia.
  - replace (Z.min e e') with e by lia. rewrite Z.sub_diag. split; lia.
  - replace (Z.min e e') with e' by lia. rewrite iter_xO.
    replace (e - e') with (Zpos p) by lia. split; lia.
Qed.

Lemma Zdigits2_shift (m k : Z) :
  0 < m -> 0 <= k -> Zdigits2 (m * 2 ^ k) = Zdigits2 m + k.
Proof.
  intros Hm Hk. pose proof (Zdigits2_bounds m Hm) as [Hlo Hhi].
  pose proof (Zdigits2_pos m Hm) as Hd.
  assert (Hp : 0 < 2 ^ k) by (apply Z.pow_pos_nonneg; lia).
  apply Z.le_antisymm.
  - apply Zdigits2_le; try nia. rewrite Z.pow_add_r by lia. nia.
  - replace (Zdigits2 m + k) with (Zdigits2 m - 1 + k + 1) by lia.
    apply Zdigits2_ge; try lia. rewrite Z.pow_add_r by lia. nia.
Qed.

Lemma binary_round_class (s : bool) (m : positive) (e : Z) :
  signIs s (binary_round prec emax s m e)
  /\ (-1074 <= Zdigits2 (Zpos m) - 1 + e -> nonZero (binary_round prec emax s m e))
  /\ (Zdigits2 (Zpos m) + e <= 1023 -> e <= 971 ->
      notInfinite (binary_round prec emax s m e)).
Proof.
  split; [apply binary_round_sign|].
  unfold binary_round.
  pose proof (shl_align_spec m e (fexp prec emax (Zpos (digits2_pos m) + e))) as [Hs Hf].
  destruct (shl_align _ _ _) as [mz ez]. cbn [fst snd] in Hs, Hf.
  assert (Hdig : Zdigits2 (Zpos mz) + ez = Zdigits2 (Zpos m) + e).
  { rewrite Hf, Zdigits2_shift by lia. lia. }
  split.
  - intro H. apply binary_round_aux_nonZero; lia.
  - intros H1 H2. apply binary_round_aux_finite; lia.
Qed.

Lemma of_uint63_class (i : PrimInt63.int) :
  finiteNonNegative (Prim2SF (of_uint63 i)).
Proof.
  rewrite of_uint63_spec. pose proof (Uint63.to_Z_bounded i) as Hb.
  destruct (Uint63.to_Z i) as [|p|p]; try lia; [exact I|].
  cbn [binary_normalize].
  destruct (binary_round_class false p 0) as (Hs & _ & Hf).
  assert (Hd : Zdigits2 (Zpos p) <= 63).
  { apply Zdigits2_le; try lia. change (2 ^ 63) with Uint63.wB. lia. }
  specialize (Hf ltac:(lia) ltac:(lia)).
  destruct (binary_round prec emax false p 0) as [z|z| |z mz ez];
    simpl in *; try contradiction; now subst z.
Qed.

Lemma div_class (t n : spec_float) :
  strictlyPositive t -> finiteNonNegative n -> signIs false (SF64div t n).
Proof.
  destruct t as [|[]| |[] mt et]; try contradiction;
    destruct n as [[]| | |[] mn en]; try contradiction; intros _ _;
    try reflexivity.
  unfold SF64div, SFdiv, SFdiv_core_binary. cbn [xorb].
  set (m' := match _ with Z0 => Zpos mt | Zpos _ => _ | Zneg _ => 0 end).
  assert (Hm' : 0 <= m').
  { unfold m'. destruct (_ - _ - _); try lia. apply Z.shiftl_nonneg. lia. }
  pose proof (Z.div_eucl_eq m' (Zpos mn) ltac:(lia)) as Heq.
  pose proof (Z.mod_pos_bound m' (Zpos mn) ltac:(lia)) as Hmod.
  unfold Z.modulo in Hmod.
  destruct (Z.div_eucl m' (Zpos mn)) as [q r].
  apply binary_round_aux_sign. nia.
Qed.

Lemma mul_class (z c : spec_float) :
  signIs false z -> positiveFinite c -> signIs false (SF64mul z c).
Proof.
  destruct c as [| | |[] mc ec]; try contradiction.
  destruct z as [s|s| |s mz ez]; simpl; try contradiction; intros -> _;
    try reflexivity.
  apply binary_round_aux_sign. lia.
Qed.

Lemma add_class (mc : positive) (ec : Z) (z : spec_float) :
  -1074 <= Zdigits2 (Zpos mc) - 1 + ec ->
  signIs false z -> strictlyPositive (SF64add (S754_finite false mc ec) z).
Proof.
  intro Hc. unfold SF64add, SFadd.
  destruct z as [s|s| |s mz ez]; cbn [signIs]; try contradiction; intros ->;
    try exact I.
  cbn [cond_Zopp]. set (ez' := Z.min ec ez).
  rewrite (shl_align_fst mc ec ez'), (shl_align_fst mz ez ez') by (unfold ez'; lia).
  assert (Hp1 : 0 < 2 ^ (ec - ez')) by (apply Z.pow_pos_nonneg; unfold ez'; lia).
  assert (Hp2 : 0 < 2 ^ (ez - ez')) by (apply Z.pow_pos_nonneg; unfold ez'; lia).
  set (a := Zpos mc * 2 ^ (ec - ez')). set (b := Zpos mz * 2 ^ (ez - ez')).
  assert (Ha : 0 < a) by (unfold a; nia). assert (Hb : 0 < b) by (unfold b; nia).
  destruct (a + b) as [|p|p] eqn:E; try lia. cbn [binary_normalize].
  destruct (binary_round_class false p ez') as (Hs & Hnz & _).
  apply strictlyPositive_split; [exact Hs|]. apply Hnz.
  assert (Hda : Zdigits2 a = Zdigits2 (Zpos mc) + (ec - ez'))
    by (unfold a; apply Zdigits2_shift; unfold ez'; lia).
  pose proof (Zdigits2_bounds a Ha) as [Hlo _].
  pose proof (Zdigits2_pos a Ha).
  assert (Zdigits2 a - 1 + 1 <= Zdigits2 (Zpos p)) by (apply Zdigits2_ge; lia).
  lia.
Qed.

End Classes.

End Binary64.

(** ** Scores *)

Section Scores.

#[local] Open Scope float_scope.

Lemma is_nan_spec (x : float) : is_nan x = true -> Prim2SF x = S754_nan.
Proof.
  unfold is_nan. rewrite eqb_spec. intro H.
  destruct (Prim2SF x) eqn:E; try reflexivity;
    rewrite SFeqb_refl in H by discriminate; discriminate.
Qed.

Lemma positive_spec (x : float) :
  (0 <? x) = true <-> strictlyPositive (Prim2SF x).
Proof. rewrite ltb_spec. apply strictlyPositive_iff. Qed.

Lemma Math_min_le_one (c w : float) :
  positiveFinite (Prim2SF c) -> atMostOne (Prim2SF c) ->
  atMostOne (Prim2SF (Math_min c w)).
Proof.
  intros Hp Hc. unfold Math_min.
  destruct (is_nan c); [exact Hc|].
  destruct (is_nan w) eqn:En; [now rewrite (is_nan_spec w En)|].
  destruct (w <? c) eqn:E1.
  { rewrite ltb_spec in E1. exact (below_le_one _ _ Hp Hc E1). }
  destruct (c <? w) eqn:E2; [exact Hc|].
  destruct (get_sign c); [exact Hc|].
  rewrite ltb_spec in E1, E2.
  destruct (neither_below _ _ Hp E1 E2) as [H|H]; rewrite H; [exact I|exact Hc].
Qed.

Lemma Math_min_positive (c w : float) :
  (0 <? c) = true -> (0 <? w) = true -> (0 <? Math_min c w) = true.
Proof.
  intros Hc Hw. unfold Math_min.
  destruct (is_nan c), (is_nan w), (w <? c), (c <? w), (get_sign c); assumption.
Qed.

(** Against an exact match: a score at most one that differs from 1 by more
    than 0.01 lies below it. *)
Lemma below_exact (s : float) :
  atMostOne (Prim2SF s) ->
  (0.01 <? abs (1 - s)) = true ->
  (1 - s <? 0) = false /\ (0 <? 1 - s) = true.
Proof.
  intro Hs. rewrite !ltb_spec, abs_spec, sub_spec.
  change (Prim2SF 1) with oneSF. change (Prim2SF 0.01) with hundredthSF.
  change (Prim2SF 0) with (S754_zero false).
  intro H. pose proof (one_minus _ (Prim2SF_valid s) Hs H) as Hd.
  destruct (SF64sub oneSF (Prim2SF s)) as [z|[]| |[] m e]; try contradiction;
    now split.
Qed.

Lemma keywordScore_le_one (t : float) (nWords nKeywords : nat) :
  atMostOne (Prim2SF (keywordScore t nWords nKeywords)).
Proof.
  unfold keywordScore. destruct (0 <? t); [|exact I].
  apply Math_min_le_one; [exact I|]. vm_compute. right. left. reflexivity.
Qed.

Lemma keywordScore_positive (t : float) (nWords nKeywords : nat) :
  (0 <? t) = true -> (0 <? keywordScore t nWords nKeywords) = true.
Proof.
  intro Ht. unfold keywordScore. rewrite Ht.
  apply Math_min_positive; [reflexivity|].
  apply positive_spec. rewrite add_spec, mul_spec, div_spec.
  remember (Prim2SF 0.4) as c eqn:Ec. vm_compute in Ec. subst c.
  apply add_class; [vm_compute; discriminate|].
  apply mul_class; [|exact I].
  apply div_class; [now apply positive_spec|apply of_uint63_class].
Qed.

Lemma calculateFuzzyMatch_le_one (str1 str2 : string) :
  atMostOne (Prim2SF (calculateFuzzyMatch str1 str2)).
Proof.
  unfold calculateFuzzyMatch.
  destruct (Nat.eqb _ 0).
  - vm_compute. right. right. split; [reflexivity|discriminate].
  - apply Math_min_le_one; [exact I|].
    vm_compute. right. right. split; [reflexivity|discriminate].
Qed.

Lemma times_six_tenths (f : float) :
  atMostOne (Prim2SF f) -> atMostOne (Prim2SF (f * 0.6)).
Proof.
  intro H. rewrite mul_spec. change (Prim2SF 0.6) with sixTenthsSF.
  apply mul_le_one; [apply Prim2SF_valid|exact H].
Qed.

End Scores.

(** ** The comparator and the sort *)

Section Comparator.

#[local] Open Scope float_scope.

Lemma signOf_Gt (d : float) :
  signOf d = Gt <-> negb (d <? 0) && (0 <? d) = true.
Proof.
  unfold signOf. destruct (d <? 0), (0 <? d); simpl; split; congruence.
Qed.

(** The comparator says [Gt] exactly when its second argument is strictly
    preferred to the first. *)
Lemma compareResults_Gt (a b : SearchResult) :
  compareResults a b = Gt <-> strictlyPreferred b a = true.
Proof.
  unfold compareResults, strictlyPreferred.
  destruct (0.01 <? abs (relevanceScore b - relevanceScore a)); [apply signOf_Gt|].
  destruct (MatchType_eqb (matchType a) exact && _); [split; discriminate|].
  destruct (MatchType_eqb (matchType b) exact && _); [split; reflexivity|].
  destruct (MatchType_eqb (matchType a) phrase_contains && _); [split; discriminate|].
  destruct (MatchType_eqb (matchType b) phrase_contains && _); [split; reflexivity|].
  rewrite Nat.compare_gt_iff, Nat.ltb_lt. reflexivity.
Qed.

(** What the comparator prefers one way round it does not prefer the other
    way round. *)
Lemma compareResults_antisym (a b : SearchResult) :
  compareResults a b = Gt -> compareResults b a = Lt.
Proof.
  unfold compareResults.
  rewrite (sub_swap_abs (relevanceScore b) (relevanceScore a)).
  destruct (sub_swap_sign (relevanceScore b) (relevanceScore a)) as [H1 H2].
  destruct (0.01 <? abs (relevanceScore a - relevanceScore b)).
  - unfold signOf. rewrite <- H2.
    destruct (relevanceScore b - relevanceScore a <? 0); [discriminate|].
    destruct (0 <? relevanceScore b - relevanceScore a); [reflexivity|discriminate].
  - destruct (MatchType_eqb (matchType a) exact),
             (MatchType_eqb (matchType b) exact),
             (MatchType_eqb (matchType a) phrase_contains),
             (MatchType_eqb (matchType b) phrase_contains); simpl;
      try discriminate; try reflexivity;
      rewrite Nat.compare_gt_iff, Nat.compare_lt_iff; lia.
Qed.

Lemma strictlyPreferred_asym (a b : SearchResult) :
  strictlyPreferred a b = true -> strictlyPreferred b a = false.
Proof.
  intro H. apply compareResults_Gt, compareResults_antisym in H.
  destruct (strictlyPreferred b a) eqn:E; [|reflexivity].
  apply compareResults_Gt in E. congruence.
Qed.

Lemma neighboursInOrder_cons (a : SearchResult) (l : list SearchResult) :
  neighboursInOrder (a :: l)
  <-> match l with [] => True | b :: _ => strictlyPreferred b a = false end
      /\ neighboursInOrder l.
Proof. destruct l; reflexivity. Qed.

(** A list in the order of the comparator is ranked. *)
Lemma inOrder_ranked (l : list SearchResult) :
  inOrder compareResults l = true -> ranked l = true.
Proof.
  induction l as [|a l IH]; [reflexivity|].
  cbn [inOrder ranked]. rewrite !andb_true_iff, !forallb_forall.
  intros [Ha Hl]. split; [|now apply IH].
  intros b Hb. specialize (Ha b Hb).
  destruct (strictlyPreferred b a) eqn:P; [|reflexivity].
  apply compareResults_Gt, compareResults_antisym in P.
  rewrite P in Ha. discriminate.
Qed.

Lemma ranked_neighbours (l : list SearchResult) :
  ranked l = true -> neighboursInOrder l.
Proof.
  induction l as [|a l IH]; [intros _; exact I|].
  cbn [ranked]. rewrite andb_true_iff. intros [Ha Hl].
  apply neighboursInOrder_cons. split; [|now apply IH].
  destruct l as [|b l]; [exact I|].
  cbn [forallb] in Ha. apply andb_prop in Ha. destruct Ha as [Ha _].
  now apply negb_true_iff in Ha.
Qed.

Lemma forallb_firstn {A : Type} (f : A -> bool) (n : nat) (l : list A) :
  forallb f l = true -> forallb f (firstn n l) = true.
Proof.
  rewrite !forallb_forall. intros H x Hx. apply H.
  rewrite <- (firstn_skipn n l). apply in_or_app. now left.
Qed.

Lemma ranked_firstn (n : nat) (l : list SearchResult) :
  ranked l = true -> ranked (firstn n l) = true.
Proof.
  revert l. induction n as [|n IH]; intros l H; [reflexivity|].
  destruct l as [|a l]; [reflexivity|].
  cbn [ranked] in H. apply andb_prop in H. destruct H as [Ha Hl].
  rewrite firstn_cons. cbn [ranked].
  now rewrite (forallb_firstn _ n l Ha), (IH l Hl).
Qed.

(** The sort of any engine ranks the results of a search on which the
    comparator is consistent. *)
Lemma sort_ranked (engine : ArraySort) (l : list SearchResult) :
  consistentOn compareResults l = true ->
  ranked (sort engine compareResults l) = true.
Proof. intro H. now apply inOrder_ranked, sort_inOrder. Qed.

(** A list with the elements of a list of three. *)
Lemma Permutation_length_3_inv {A : Type} (a b c : A) (l : list A) :
  Permutation l [a; b; c] ->
  l = [a; b; c] \/ l = [a; c; b] \/ l = [b; a; c]
  \/ l = [b; c; a] \/ l = [c; a; b] \/ l = [c; b; a].
Proof.
  intro H. pose proof (Permutation_length H) as Hlen.
  destruct l as [|x [|y [|z [|? ?]]]]; try discriminate.
  assert (Hx : In x [a; b; c])
    by (apply (Permutation_in _ H); now left).
  destruct Hx as [Hx|[Hx|[Hx|[]]]]; subst x.
  - apply Permutation_cons_inv, Permutation_sym, Permutation_length_2_inv in H.
    destruct H as [[= <- <-]|[= <- <-]]; auto.
  - assert (H' : Permutation (b :: [y; z]) (b :: [a; c])).
    { rewrite H. apply perm_swap. }
    apply Permutation_cons_inv, Permutation_sym, Permutation_length_2_inv in H'.
    destruct H' as [[= <- <-]|[= <- <-]]; auto 6.
  - assert (H' : Permutation (c :: [y; z]) (c :: [a; b])).
    { rewrite H. transitivity [a; c; b]; [apply perm_skip|]; apply perm_swap. }
    apply Permutation_cons_inv, Permutation_sym, Permutation_length_2_inv in H'.
    destruct H' as [[= <- <-]|[= <- <-]]; auto 7.
Qed.

End Comparator.

(** C3, as the code has it.  A search returns at most 10 results: the first
    ten of an arrangement of the results that scored above 0.1, the one
    [Array.prototype.sort] makes.  When the comparator is a consistent
    comparison function for these results, the arrangement is ranked, and so
    is the list returned: no result comes before one strictly preferred to
    it, that is one with a score higher by more than 0.01, or within 0.01 an
    exact match first, then a phrase-contains match, then the shorter phrase.
    When it is not, ties within 0.01 not being transitive, the order is the
    one the sort of the engine happens to leave. *)
Theorem results_ranked (engine : ArraySort) (buzzwords : list Buzzword)
        (query : string) (results : list SearchResult) :
  performSearch engine buzzwords query = ShowResults results ->
  List.length results <= 10
  /\ exists arranged,
      Permutation arranged (candidateResults buzzwords (sanitizeInput query))
      /\ results = firstn 10 arranged
      /\ (consistentOn compareResults
                       (candidateResults buzzwords (sanitizeInput query)) = true ->
          ranked arranged = true /\ ranked results = true).
Proof.
  intro H. pose proof (performSearch_shown _ _ _ _ H) as Hv.
  rewrite (performSearch_results engine _ _ Hv) in H.
  assert (E : results
              = firstn 10 (sort engine compareResults
                                (candidateResults buzzwords (sanitizeInput query))))
    by congruence.
  subst results. clear H.
  split; [apply firstn_le_length|].
  exists (sort engine compareResults
               (candidateResults buzzwords (sanitizeInput query))).
  split; [apply sort_permutation|]. split; [reflexivity|].
  intro Hc. pose proof (sort_ranked engine _ Hc) as Hr.
  split; [exact Hr|now apply ranked_firstn].
Qed.

Lemma results_ranked_witness :
  exists results,
    performSearch insertionSort synergies "synergy" = ShowResults results
    /\ consistentOn compareResults
                    (candidateResults synergies (sanitizeInput "synergy")) = true
    /\ List.length results = 3
    /\ ranked results = true.
Proof.
  eexists. split; [vm_compute; reflexivity|].
  split; [vm_compute; reflexivity|]. split; [reflexivity|].
  destruct (results_ranked insertionSort synergies "synergy" _ eq_refl)
    as (_ & arranged & _ & _ & Hr).
  apply Hr. vm_compute. reflexivity.
Defined.

(** C3 as stated fails: for the query [data] the three results score within
    0.01 of the next in the order of their phrase lengths, and the first
    scores more than 0.01 below the third, which is strictly preferred to it.
    Each of the three is strictly preferred to another, so that whatever the
    order the sort of the engine returns them in, one of them comes before a
    result strictly preferred to it. *)
Lemma ranking_not_by_score :
  exists a b c,
    relevanceScore a = 0.4375%float
    /\ relevanceScore c = 0.45%float
    /\ (0.01 <? relevanceScore c - relevanceScore a)%float = true
    /\ strictlyPreferred c a = true
    /\ strictlyPreferred a b = true
    /\ strictlyPreferred b c = true
    /\ forall engine, exists results,
        performSearch engine [kpi; metrics; dashboards] "data"
        = ShowResults results
        /\ Permutation results [a; b; c]
        /\ ranked results = false.
Proof.
  remember (candidateResults [kpi; metrics; dashboards] (sanitizeInput "data"))
    as cands eqn:Hc.
  pose proof Hc as Hv. vm_compute in Hv.
  do 3 eexists. do 6 (split; [shelve|]). intro engine.
  rewrite (performSearch_results engine) by reflexivity. rewrite <- Hc.
  pose proof (sort_permutation engine _ compareResults cands) as Hp.
  rewrite firstn_all2
    by (rewrite (Permutation_length Hp), Hv; cbn [List.length]; lia).
  rewrite Hv in Hp |- *.
  eexists. split; [reflexivity|]. split; [exact Hp|].
  destruct (Permutation_length_3_inv _ _ _ _ Hp)
    as [E|[E|[E|[E|[E|E]]]]]; rewrite E; vm_compute; reflexivity.
  Unshelve. all: vm_compute; reflexivity.
Qed.

(** ** The rules of the matcher *)

Section Rules.

#[local] Open Scope float_scope.

Lemma fuzzyRule_cases (phrase_ nq : string) (st : float * list string * MatchType) :
  fuzzyRule phrase_ nq st = st
  \/ (fst (fst st) =? 0) = true
     /\ (0.3 <? calculateFuzzyMatch phrase_ nq) = true
     /\ fuzzyRule phrase_ nq st
        = (calculateFuzzyMatch phrase_ nq * 0.6, [nq], fuzzy).
Proof.
  destruct st as [[rel matched] mtype]. unfold fuzzyRule. cbn [fst].
  destruct (rel =? 0); [|now left].
  destruct (0.3 <? calculateFuzzyMatch phrase_ nq); [now right|now left].
Qed.

Lemma calculateKeywordMatches_le_one (b : Buzzword) (qw : list string)
      (km : KeywordMatchResult) :
  calculateKeywordMatches b qw = Some km -> atMostOne (Prim2SF (score km)).
Proof.
  unfold calculateKeywordMatches.
  destruct qw as [|w ws]; [intros [= <-]; exact I|].
  destruct (keywords b) as [kws|]; [|discriminate].
  destruct (fold_left _ _ _) as [total matched].
  intros [= <-]. apply keywordScore_le_one.
Qed.

(** What the first four rules return: the exact match with score 1, or some
    other type with a score at most one. *)
Lemma firstRules_cases (b : Buzzword) (phrase_ nq : string) (qw : list string)
      (st : float * list string * MatchType) :
  firstRules b phrase_ nq qw = Some st ->
  (String.eqb phrase_ nq = true /\ st = (1, [nq], exact))
  \/ (String.eqb phrase_ nq = false
      /\ snd st <> exact /\ atMostOne (Prim2SF (fst (fst st)))).
Proof.
  unfold firstRules.
  destruct (String.eqb phrase_ nq); [intros [= <-]; now left|].
  intro H. right. split; [reflexivity|]. revert H.
  destruct (includes phrase_ nq).
  { intros [= <-]. split; [discriminate|]. vm_compute. right. left. reflexivity. }
  destruct (includes nq phrase_).
  { intros [= <-]. split; [discriminate|]. vm_compute. right. left. reflexivity. }
  destruct (calculateKeywordMatches b qw) as [km|] eqn:E; [|discriminate].
  pose proof (calculateKeywordMatches_le_one _ _ _ E) as Hk.
  destruct (0 <? score km); intros [= <-]; (split; [discriminate|]);
    [exact Hk|exact I].
Qed.

(** A result is the exact match of the query with score 1, or of another type
    with a score at most one. *)
Lemma calculateRelevanceScore_cases (b : Buzzword) (nq : string)
      (qw : list string) (r : SearchResult) :
  calculateRelevanceScore b nq qw = Some r ->
  (matchType r = exact /\ relevanceScore r = 1
   /\ exists q, phrase b = Some q /\ toLowerCase q = nq)
  \/ (matchType r <> exact /\ atMostOne (Prim2SF (relevanceScore r))).
Proof.
  unfold calculateRelevanceScore.
  destruct (phrase b) as [q|]; [|discriminate].
  destruct (firstRules b (toLowerCase q) nq qw) as [st|] eqn:E; [|discriminate].
  destruct (firstRules_cases _ _ _ _ _ E) as [[Heq ->]|(Hne & Ht & Hs)].
  - replace (fuzzyRule (toLowerCase q) nq (1, [nq], exact)) with (1, [nq], exact)
      by reflexivity.
    intros [= <-]. left. cbn. repeat split. exists q. split; [reflexivity|].
    now apply String.eqb_eq.
  - destruct (fuzzyRule_cases (toLowerCase q) nq st) as [->|(_ & _ & ->)].
    + destruct st as [[rel matched] mtype]. intros [= <-]. right. now split.
    + intros [= <-]. right. cbn. split; [discriminate|].
      apply times_six_tenths, calculateFuzzyMatch_le_one.
Qed.

(** An exact match is strictly preferred to any result of another type whose
    score is at most one. *)
Lemma exact_preferred (a b : SearchResult) :
  matchType b = exact -> relevanceScore b = 1 ->
  matchType a <> exact -> atMostOne (Prim2SF (relevanceScore a)) ->
  strictlyPreferred b a = true.
Proof.
  intros Hb Hs Ha Hle. unfold strictlyPreferred. rewrite Hs, Hb.
  destruct (0.01 <? abs (1 - relevanceScore a)) eqn:E.
  - destruct (below_exact _ Hle E) as [-> ->]. reflexivity.
  - destruct (matchType a); try contradiction; reflexivity.
Qed.

End Rules.

(** ** The exact match comes first *)

Section ExactFirst.

#[local] Open Scope float_scope.

Lemma classified_exact (r : SearchResult) :
  classified r -> isExactResult r = true -> matchType r = exact /\ relevanceScore r = 1.
Proof.
  intros [H|[H _]] E; [exact H|].
  unfold isExactResult in E. destruct (matchType r); try discriminate.
  contradiction.
Qed.

Lemma isExactResult_false (r : SearchResult) :
  isExactResult r = false -> matchType r <> exact.
Proof. unfold isExactResult. intros H E. rewrite E in H. discriminate. Qed.

(** In a list whose neighbours are in order the exact matches come first. *)
Lemma exacts_first (l : list SearchResult) :
  neighboursInOrder l -> Forall classified l ->
  l = (filter isExactResult l
       ++ filter (fun r => negb (isExactResult r)) l)%list.
Proof.
  induction l as [|a l IH]; [reflexivity|].
  intros Hn Hc. apply neighboursInOrder_cons in Hn. destruct Hn as [Ha Hl].
  inversion Hc as [|? ? Hca Hcl]; subst.
  specialize (IH Hl Hcl). cbn [filter].
  destruct (isExactResult a) eqn:Ea; cbn [negb app].
  - f_equal. exact IH.
  - destruct (filter isExactResult l) as [|b fe] eqn:Efe.
    + cbn [app] in *. f_equal. exact IH.
    + exfalso.
      assert (Hb : In b (filter isExactResult l)) by (rewrite Efe; now left).
      apply filter_In in Hb. destruct Hb as [Hbl Hbe].
      rewrite Forall_forall in Hcl.
      destruct (classified_exact b (Hcl b Hbl) Hbe) as [Hbt Hbs].
      rewrite IH in Ha. cbn [app] in Ha.
      destruct Hca as [[Hx _]|[Hx Hle]].
      * apply isExactResult_false in Ea. contradiction.
      * rewrite (exact_preferred a b Hbt Hbs Hx Hle) in Ha. discriminate.
Qed.

Lemma filter_length_perm {A : Type} (f : A -> bool) (l l' : list A) :
  Permutation l l' -> List.length (filter f l) = List.length (filter f l').
Proof.
  induction 1 as [|x l l' _ IH|x y l|l l' l'' _ IH1 _ IH2]; cbn [filter].
  - reflexivity.
  - destruct (f x); cbn [List.length]; now rewrite IH.
  - destruct (f x), (f y); reflexivity.
  - now rewrite IH1.
Qed.

Lemma filter_filter_length {A : Type} (f g : A -> bool) (l : list A) :
  List.length (filter f (filter g l)) <= List.length (filter f l).
Proof.
  induction l as [|x l IH]; [reflexivity|].
  cbn [filter]. destruct (g x); cbn [filter]; destruct (f x); cbn [List.length]; lia.
Qed.

Lemma classified_results (nq : string) (qw : list string) (l : list Buzzword) :
  Forall classified (flat_map (keptResult nq qw) l).
Proof.
  apply Forall_forall. intros r Hr. apply in_flat_map in Hr.
  destruct Hr as (b & _ & Hr). unfold keptResult in Hr.
  destruct (calculateRelevanceScore b nq qw) as [r'|] eqn:E; [|contradiction].
  destruct (0.1 <? relevanceScore r'); [|contradiction].
  destruct Hr as [<-|[]].
  destruct (calculateRelevanceScore_cases _ _ _ _ E) as [(H1 & H2 & _)|H];
    [left; now split|right; exact H].
Qed.

(** There are no more exact matches than entries with the phrase searched. *)
Lemma exact_results_count (p : string) (qw : list string) (l : list Buzzword) :
  List.length (filter isExactResult (flat_map (keptResult (toLowerCase p) qw) l))
  <= List.length (filter (samePhrase p) l).
Proof.
  induction l as [|b l IH]; [reflexivity|].
  cbn [flat_map filter]. rewrite filter_app, length_app.
  assert (Hb : List.length (filter isExactResult (keptResult (toLowerCase p) qw b))
               <= if samePhrase p b then 1 else 0).
  { unfold keptResult.
    destruct (calculateRelevanceScore b (toLowerCase p) qw) as [r|] eqn:E;
      [|cbn; destruct (samePhrase p b); lia].
    destruct (0.1 <? relevanceScore r); [|cbn; destruct (samePhrase p b); lia].
    cbn [filter]. destruct (isExactResult r) eqn:Er;
      [|cbn; destruct (samePhrase p b); lia].
    destruct (calculateRelevanceScore_cases _ _ _ _ E)
      as [(_ & _ & q & Hq & Hlow)|[Hne _]].
    - unfold samePhrase. rewrite Hq, Hlow, String.eqb_refl. reflexivity.
    - unfold isExactResult in Er. destruct (matchType r); try discriminate.
      contradiction. }
  destruct (samePhrase p b); cbn [List.length]; lia.
Qed.

Lemma startsWith_refl (s : string) : startsWith s s = true.
Proof.
  induction s as [|c s IH]; [reflexivity|].
  cbn [startsWith]. now rewrite Ascii.eqb_refl, IH.
Qed.

Lemma includes_refl (s : string) : includes s s = true.
Proof. destruct s; cbn [includes]; now rewrite startsWith_refl. Qed.

Lemma splitWhitespace_word (s : string) :
  anyChar (fun c => negb (isWhitespace c)) s = true ->
  filter (fun word => negb (Nat.eqb (String.length word) 0)) (splitWhitespace s)
  <> [].
Proof.
  induction s as [|c s IH]; [discriminate|].
  cbn [anyChar splitWhitespace].
  destruct (isWhitespace c); cbn [negb orb].
  - intro H. specialize (IH H).
    destruct (startsWithWhitespace s); [exact IH|]. exact IH.
  - intros _. destruct (splitWhitespace s); discriminate.
Qed.

Lemma hasLetter_word (s : string) :
  hasLetter s = true ->
  anyChar (fun c => negb (isWhitespace c)) (toLowerCase s) = true.
Proof.
  induction s as [|c s IH]; [discriminate|].
  cbn [hasLetter toLowerCase anyChar]. rewrite lowerChar_whitespace.
  destruct (isLetter c) eqn:E.
  - intros _. destruct (isWhitespace c) eqn:W; [|reflexivity].
    rewrite (whitespace_not_letter c W) in E. discriminate.
  - cbn [orb]. intro H. rewrite (IH H). apply orb_true_r.
Qed.

End ExactFirst.

Lemma isEmpty_length (s : string) :
  Nat.eqb (String.length s) 0 = false -> isEmpty s = false.
Proof. destruct s; [discriminate|reflexivity]. Qed.

Section ExactSearch.

#[local] Open Scope float_scope.

Variable engine : ArraySort.
Variable buzzwords : list Buzzword.
Variable e : Buzzword.
Variable p : string.

Hypothesis e_in : In e buzzwords.
Hypothesis e_phrase : phrase e = Some p.
Hypothesis p_clean : sanitizeInput p = p.
Hypothesis p_valid : message (validateSearchInput p) = msg_valid.

Lemma valid_query_facts :
  validateSearchInput p = {| valid := true; sanitized := p; message := msg_valid |}
  /\ isEmpty p = false /\ hasLetter p = true.
Proof using p_clean p_valid.
  revert p_valid. unfold validateSearchInput. rewrite p_clean.
  destruct (Nat.eqb (String.length p) 0) eqn:E0; [discriminate|].
  destruct (Nat.ltb (String.length p) 2); [discriminate|].
  destruct (Nat.ltb 100 (String.length p)); [discriminate|].
  destruct (hasLetter p); [|discriminate].
  intros _. repeat split. now apply isEmpty_length.
Qed.

Lemma normalized_query : trim (toLowerCase p) = toLowerCase p.
Proof using p_clean.
  rewrite trim_toLowerCase. f_equal.
  rewrite <- p_clean. unfold sanitizeInput. apply trim_idem.
Qed.

Lemma exact_entry_scored (qw : list string) :
  calculateRelevanceScore e (toLowerCase p) qw
  = Some (exactResult e p (toLowerCase p)).
Proof using e_phrase.
  unfold calculateRelevanceScore, firstRules. rewrite e_phrase, String.eqb_refl.
  replace (fuzzyRule (toLowerCase p) (toLowerCase p) (1, [toLowerCase p], exact))
    with (1, [toLowerCase p], exact) by reflexivity.
  reflexivity.
Qed.

Lemma exact_entry_relevant (qw : list string) :
  isRelevant (toLowerCase p) qw e = true.
Proof using e_phrase p_clean p_valid.
  unfold isRelevant. rewrite e_phrase.
  destruct valid_query_facts as (_ & -> & _).
  now rewrite includes_refl.
Qed.

(** The results of the search for [p], entry by entry. *)
Lemma exact_query_candidates :
  exists qw,
    candidateResults buzzwords p
    = flat_map (keptResult (toLowerCase p) qw)
               (filter (isRelevant (toLowerCase p) qw) buzzwords).
Proof using p_clean p_valid.
  destruct valid_query_facts as (_ & _ & Hl).
  unfold candidateResults. rewrite normalized_query.
  destruct (filter _ (splitWhitespace (toLowerCase p))) as [|w ws] eqn:Ew.
  { exfalso. revert Ew. apply splitWhitespace_word, hasLetter_word, Hl. }
  exists (w :: ws). apply scoredResults_flat_map.
Qed.

Lemma exact_entry_candidate :
  In (exactResult e p (toLowerCase p)) (candidateResults buzzwords p).
Proof using e_in e_phrase p_clean p_valid.
  destruct exact_query_candidates as (qw & ->).
  apply in_flat_map. exists e. split.
  - apply filter_In. split; [exact e_in|apply exact_entry_relevant].
  - unfold keptResult. rewrite exact_entry_scored. now left.
Qed.

Lemma exact_entry_ranked :
  consistentOn compareResults (candidateResults buzzwords p) = true ->
  List.length (filter (samePhrase p) buzzwords) <= 10 ->
  exists before after,
    firstn 10 (sort engine compareResults (candidateResults buzzwords p))
    = (before ++ exactResult e p (toLowerCase p) :: after)%list
    /\ Forall (fun r => matchType r = exact /\ relevanceScore r = 1) before.
Proof using e_in e_phrase p_clean p_valid.
  intros Hcons Hcount. pose proof exact_entry_candidate as Hcand.
  destruct exact_query_candidates as (qw & Hq).
  set (results := candidateResults buzzwords p) in *.
  set (sorted := sort engine compareResults results).
  assert (Hperm : Permutation sorted results) by apply sort_permutation.
  assert (Hclass : Forall classified sorted).
  { apply Forall_forall. intros r Hr.
    pose proof (classified_results (toLowerCase p) qw
                  (filter (isRelevant (toLowerCase p) qw) buzzwords)) as Hc.
    rewrite <- Hq in Hc. rewrite Forall_forall in Hc. apply Hc.
    now apply (Permutation_in _ Hperm). }
  pose proof (exacts_first sorted
                (ranked_neighbours _ (sort_ranked engine results Hcons)) Hclass)
    as Hsplit.
  set (front := filter isExactResult sorted) in *.
  assert (Hfront : List.length front <= 10).
  { unfold front. rewrite (filter_length_perm _ _ _ Hperm), Hq.
    etransitivity; [apply exact_results_count|].
    etransitivity; [apply filter_filter_length|exact Hcount]. }
  assert (Hin : In (exactResult e p (toLowerCase p)) front).
  { apply filter_In. split; [|reflexivity].
    now apply (Permutation_in _ (Permutation_sym Hperm)). }
  apply in_split in Hin. destruct Hin as (before & after & Hfr).
  exists before,
    (after ++ firstn (10 - List.length front)
                     (filter (fun r => negb (isExactResult r)) sorted))%list.
  split.
  - rewrite Hsplit at 1. rewrite firstn_app, (firstn_all2 front) by exact Hfront.
    rewrite Hfr at 1. now rewrite <- app_assoc.
  - apply Forall_forall. intros r Hr.
    assert (Hrf : In r front) by (rewrite Hfr; apply in_or_app; now left).
    apply filter_In in Hrf. destruct Hrf as [Hrs Hre].
    rewrite Forall_forall in Hclass. exact (classified_exact r (Hclass r Hrs) Hre).
Qed.

End ExactSearch.

(** C2, as the code has it.  For an entry whose phrase is left unchanged by
    sanitization and is a valid query, the search for the phrase scores the
    entry as an exact match with score 1.  Whatever the sort of the engine,
    that result is returned when the search scored no more than ten results.
    When the comparator is a consistent comparison function for the scored
    results and at most ten entries have that phrase up to letter case, the
    result is returned and nothing but exact matches of score 1 comes before
    it: it is ahead of every result that scores below 1. *)
Theorem exact_phrase_first (engine : ArraySort) (buzzwords : list Buzzword)
        (e : Buzzword) (p : string) :
  In e buzzwords ->
  phrase e = Some p ->
  sanitizeInput p = p ->
  message (validateSearchInput p) = msg_valid ->
  exists r results,
    performSearch engine buzzwords p = ShowResults results
    /\ match_ r = p
    /\ res_translation r = translation e
    /\ matchType r = exact
    /\ relevanceScore r = 1%float
    /\ In r (candidateResults buzzwords p)
    /\ (List.length (candidateResults buzzwords p) <= 10 -> In r results)
    /\ (consistentOn compareResults (candidateResults buzzwords p) = true ->
        List.length (filter (samePhrase p) buzzwords) <= 10 ->
        exists before after,
          results = (before ++ r :: after)%list
          /\ Forall (fun r' => matchType r' = exact
                               /\ relevanceScore r' = 1%float)
                    before).
Proof.
  intros Hin Hp Hclean Hvalid.
  exists (exactResult e p (toLowerCase p)). eexists.
  split; [rewrite (performSearch_results engine _ _ Hvalid), Hclean; reflexivity|].
  pose proof (exact_entry_candidate buzzwords e p Hin Hp Hclean Hvalid) as Hcand.
  repeat split.
  - exact Hcand.
  - intro Hlen.
    pose proof (sort_permutation engine _ compareResults
                  (candidateResults buzzwords p)) as Hperm.
    rewrite firstn_all2 by (now rewrite (Permutation_length Hperm)).
    now apply (Permutation_in _ (Permutation_sym Hperm)).
  - intros Hcons Hcount.
    exact (exact_entry_ranked engine buzzwords e p Hin Hp Hclean Hvalid
             Hcons Hcount).
Qed.

Lemma exact_phrase_first_witness :
  exists before r after,
    performSearch insertionSort synergies "synergy"
    = ShowResults (before ++ r :: after)
    /\ before <> [] /\ after <> []
    /\ match_ r = "synergy"
    /\ res_translation r = translation (entryWith "synergy" ["together"])
    /\ matchType r = exact
    /\ relevanceScore r = 1%float
    /\ Forall (fun r' => matchType r' = exact /\ relevanceScore r' = 1%float)
              before.
Proof.
  destruct (exact_phrase_first insertionSort synergies
              (entryWith "synergy" ["together"]) "synergy")
    as (r & results & Hs & Hm & Ht & Hx & Hsc & _ & _ & Hord).
  - do 2 right. now left.
  - reflexivity.
  - reflexivity.
  - reflexivity.
  - destruct Hord as (before & after & -> & Hb).
    + vm_compute. reflexivity.
    + vm_compute. lia.
    + exists before, r, after.
      remember (performSearch insertionSort synergies "synergy") as shown eqn:Hshown.
      vm_compute in Hshown. subst shown.
      repeat split; try assumption.
      * intros ->. cbn [app] in Hs. injection Hs as Hr _.
        rewrite <- Hr in Hm. discriminate.
      * intros ->. destruct before as [|b1 [|b2 [|b3 before]]];
          cbn [app] in Hs; try discriminate.
        -- injection Hs as _ _ Hr. rewrite <- Hr in Hx. discriminate.
        -- destruct before; discriminate.
Defined.

(** C2 as stated fails: the phrase of the entry [takeThisOffline] is a valid
    query, and the search for it returns that entry as a keyword match only,
    the apostrophe being stripped from the query and not from the phrase. *)
Lemma apostrophe_phrase_not_exact :
  message (validateSearchInput "let's take this offline") = msg_valid
  /\ sanitizeInput "let's take this offline" = "lets take this offline"
  /\ exists r,
      (forall engine,
          performSearch engine [synergy; takeThisOffline]
                        "let's take this offline"
          = ShowResults [r])
      /\ match_ r = "let's take this offline"
      /\ matchType r = keyword
      /\ (relevanceScore r <? 1)%float = true.
Proof.
  split; [reflexivity|]. split; [reflexivity|].
  eexists. split; [intro engine; run_search engine; reflexivity|].
  now repeat split.
Qed.

(** Of more strings, all different, than a list holds, one is not in the
    list. *)
Lemma one_left_out (ps l : list string) :
  NoDup ps -> List.length l < List.length ps ->
  exists q, In q ps /\ ~ In q l.
Proof.
  intros Hnd Hlen.
  assert (H : forall qs, (forall q, In q qs -> In q l)
                         \/ exists q, In q qs /\ ~ In q l).
  { induction qs as [|q qs [IH|(x & Hx & Hn)]].
    - left. intros q [].
    - destruct (in_dec string_dec q l) as [Hq|Hq].
      + left. intros x [<-|Hx]; auto.
      + right. exists q. split; [now left|exact Hq].
    - right. exists x. split; [now right|exact Hn]. }
  destruct (H ps) as [Hall|Hex]; [|exact Hex].
  pose proof (NoDup_incl_length Hnd Hall). lia.
Qed.

(** The bound of ten entries with the same phrase is needed.  Of eleven
    entries that differ in letter case only, all exact matches of score 1 on
    which the comparator is consistent, [slice(0, 10)] cuts one off, whatever
    the sort of the engine: the search for the phrase of that entry does not
    return it. *)
Lemma eleventh_exact_match_cut (engine : ArraySort) :
  consistentOn compareResults (candidateResults caseVariants "synergy") = true
  /\ exists q results,
      In (entryWith q ["together"]) caseVariants
      /\ sanitizeInput q = q
      /\ message (validateSearchInput q) = msg_valid
      /\ performSearch engine caseVariants q = ShowResults results
      /\ List.length results = 10
      /\ ~ In q (map match_ results).
Proof.
  split; [vm_compute; reflexivity|].
  set (ps := ["Synergy"; "sYnergy"; "syNergy"; "synErgy"; "syneRgy"; "synerGy";
              "synergY"; "SYnergy"; "SyNergy"; "SynErgy"; "synergy"]).
  set (cands := candidateResults caseVariants "synergy").
  set (results := firstn 10 (sort engine compareResults cands)).
  assert (Hps : Forall (fun q => sanitizeInput q = q
                                 /\ message (validateSearchInput q) = msg_valid
                                 /\ candidateResults caseVariants q = cands) ps).
  { repeat constructor; vm_compute; reflexivity. }
  assert (Hlen : List.length results = 10).
  { unfold results. apply firstn_length_le.
    rewrite (Permutation_length (sort_permutation engine _ compareResults cands)).
    vm_compute. lia. }
  assert (Hnd : NoDup ps).
  { repeat constructor; cbn [In]; intuition discriminate. }
  destruct (one_left_out ps (map match_ results) Hnd) as (q & Hq & Hout).
  { rewrite length_map, Hlen. cbn [List.length ps]. lia. }
  rewrite Forall_forall in Hps. destruct (Hps q Hq) as (Hclean & Hvalid & Hc).
  exists q, results. repeat split; try assumption.
  - exact (in_map (fun q => entryWith q ["together"]) ps q Hq).
  - rewrite (performSearch_results engine _ _ Hvalid), Hclean, Hc. reflexivity.
Qed.

(** ** The keyword rule *)

Section KeywordRuleProofs.

#[local] Open Scope float_scope.

Variable queryWord : string.

Let bestStep (best : float) (keyword_ : string) : float :=
  match keywordContribution keyword_ queryWord with
  | Some c => Math_max best c
  | None => best
  end.

Let fires (keyword_ : string) : bool :=
  match keywordContribution (toLowerCase keyword_) queryWord with
  | Some _ => true
  | None => false
  end.

Lemma keywordStep_contribution (best : float) (bestKeyword keyword_ : string) :
  keywordStep queryWord (best, bestKeyword) keyword_
  = (bestStep best (toLowerCase keyword_),
     if fires keyword_ then queryWord else bestKeyword).
Proof.
  unfold keywordStep, bestStep, fires, keywordContribution.
  destruct (String.eqb (toLowerCase keyword_) queryWord); [reflexivity|].
  destruct (includes (toLowerCase keyword_) queryWord); [reflexivity|].
  destruct (includes queryWord (toLowerCase keyword_)); [reflexivity|].
  cbv zeta.
  destruct (0.6 <? calculateFuzzyMatch (toLowerCase keyword_) queryWord);
    reflexivity.
Qed.

Lemma keywordSteps_contribution (kws : list string) :
  forall best bestKeyword,
    fold_left (keywordStep queryWord) kws (best, bestKeyword)
    = (fold_left bestStep (map toLowerCase kws) best,
       if existsb fires kws then queryWord else bestKeyword).
Proof.
  induction kws as [|k kws IH]; intros best bestKeyword; [reflexivity|].
  cbn [fold_left map existsb]. rewrite keywordStep_contribution, IH.
  f_equal. destruct (fires k); cbn [orb]; [|reflexivity].
  now destruct (existsb fires kws).
Qed.

Lemma no_keyword_fires (kws : list string) (best : float) :
  existsb fires kws = false ->
  fold_left bestStep (map toLowerCase kws) best = best.
Proof.
  revert best. induction kws as [|k kws IH]; intros best; [reflexivity|].
  cbn [existsb map fold_left]. intro H. apply orb_false_elim in H.
  destruct H as [Hk Hs]. rewrite IH by exact Hs.
  unfold bestStep. unfold fires in Hk.
  now destruct (keywordContribution (toLowerCase k) queryWord).
Qed.

(** One turn of the loop over the query words: the word is recorded with its
    best contribution when that is positive. *)
Lemma queryWordStep_contribution (kws : list string) (total : float)
      (matched : list string) :
  queryWordStep kws (total, matched) queryWord
  = if contributes (map toLowerCase kws) queryWord
    then (total + bestContribution (map toLowerCase kws) queryWord,
          (matched ++ [queryWord])%list)
    else (total, matched).
Proof.
  unfold queryWordStep. rewrite keywordSteps_contribution.
  unfold contributes, bestContribution. fold bestStep.
  destruct (0 <? fold_left bestStep (map toLowerCase kws) 0) eqn:E; [|reflexivity].
  destruct (existsb fires kws) eqn:F; [reflexivity|].
  rewrite (no_keyword_fires kws 0 F) in E. discriminate.
Qed.

End KeywordRuleProofs.

Section KeywordRuleScore.

#[local] Open Scope float_scope.

Lemma queryWordSteps_contribution (kws : list string) (qw : list string) :
  forall total matched,
    fold_left (queryWordStep kws) qw (total, matched)
    = (fold_left (fun sum term => sum + bestContribution (map toLowerCase kws) term)
                 (filter (contributes (map toLowerCase kws)) qw) total,
       (matched ++ filter (contributes (map toLowerCase kws)) qw)%list).
Proof.
  induction qw as [|w qw IH]; intros total matched.
  - cbn. now rewrite app_nil_r.
  - cbn [fold_left filter]. rewrite queryWordStep_contribution.
    destruct (contributes (map toLowerCase kws) w).
    + rewrite IH. cbn [fold_left]. now rewrite <- app_assoc.
    + apply IH.
Qed.

Lemma positive_not_zero (x : float) : (0 <? x) = true -> (x =? 0) = false.
Proof.
  rewrite ltb_spec, eqb_spec. change (Prim2SF 0) with (S754_zero false).
  now destruct (Prim2SF x) as [s|[]| |[] m e].
Qed.

End KeywordRuleScore.

(** C4.  For an entry that rules 1 to 3 do not match and a non-empty list of
    query terms, with the contribution of a term the best over the entry's
    (lower-cased) keywords of 1.0, 0.8, 0.7 or half the fuzzy similarity above
    0.6: when the sum of the contributions is positive, the matcher returns
    the score [min(0.85, 0.4 + sum / max(|terms|, |keywords|) * 0.45)], the
    match type keyword, and as matched terms the terms that contributed. *)
Theorem keyword_rule (b : Buzzword) (p : string) (kws : list string)
        (nq : string) (qw : list string) :
  phrase b = Some p ->
  keywords b = Some kws ->
  qw <> [] ->
  String.eqb (toLowerCase p) nq = false ->
  includes (toLowerCase p) nq = false ->
  includes nq (toLowerCase p) = false ->
  (0 <? sumOfContributions (map toLowerCase kws) qw)%float = true ->
  exists r,
    calculateRelevanceScore b nq qw = Some r
    /\ relevanceScore r = keywordRuleScore (map toLowerCase kws) qw
    /\ matchType r = keyword
    /\ matchedKeywords r
       = dedupe [] (filter (contributes (map toLowerCase kws)) qw).
Proof.
  intros Hp Hk Hqw H1 H2 H3 Hsum.
  assert (Hkm : calculateKeywordMatches b qw
                = Some {| score := keywordRuleScore (map toLowerCase kws) qw;
                          matches := filter (contributes (map toLowerCase kws)) qw |}).
  { unfold calculateKeywordMatches. destruct qw as [|w ws]; [contradiction|].
    rewrite Hk, queryWordSteps_contribution. cbn [app].
    fold (sumOfContributions (map toLowerCase kws) (w :: ws)).
    unfold keywordScore. rewrite Hsum. unfold keywordRuleScore.
    now rewrite length_map. }
  assert (Hpos : (0 <? keywordRuleScore (map toLowerCase kws) qw)%float = true).
  { pose proof (keywordScore_positive _ (List.length qw)
                  (List.length (map toLowerCase kws)) Hsum) as H.
    unfold keywordScore in H. now rewrite Hsum in H. }
  unfold calculateRelevanceScore, firstRules. rewrite Hp, H1, H2, H3, Hkm.
  cbn [score matches]. rewrite Hpos.
  unfold fuzzyRule. rewrite (positive_not_zero _ Hpos).
  eexists. split; [reflexivity|]. now repeat split.
Qed.

Lemma keyword_rule_witness :
  exists r,
    calculateRelevanceScore synergy "teamwork" ["teamwork"] = Some r
    /\ relevanceScore r
       = keywordRuleScore
           (map toLowerCase ["synergy"; "together"; "collaboration"; "teamwork"])
           ["teamwork"]
    /\ matchType r = keyword
    /\ matchedKeywords r
       = dedupe []
           (filter
              (contributes
                 (map toLowerCase
                      ["synergy"; "together"; "collaboration"; "teamwork"]))
              ["teamwork"]).
Proof.
  apply (keyword_rule synergy "synergy"
           ["synergy"; "together"; "collaboration"; "teamwork"]
           "teamwork" ["teamwork"]).
  - reflexivity.
  - reflexivity.
  - discriminate.
  - reflexivity.
  - reflexivity.
  - reflexivity.
  - vm_compute. reflexivity.
Defined.

(** * Further properties of the code *)

(** ** The search ignores the case of the query *)

Section CaseInsensitivity.

Ltac every_character c :=
  destruct c as [[] [] [] [] [] [] [] []]; vm_compute; intuition congruence.




Lemma lowerChar_idem (c : ascii) : lowerChar (lowerChar c) = lowerChar c.
Proof. every_character c. Qed.

Lemma toLowerCase_idem (s : string) : toLowerCase (toLowerCase s) = toLowerCase s.
Proof.
  induction s as [|c s IH]; [reflexivity|].
  simpl. now rewrite lowerChar_idem, IH.
Qed.



Lemma isEmpty_toLowerCase (s : string) : isEmpty (toLowerCase s) = isEmpty s.
Proof. now destruct s. Qed.




(** The search reads its query through [toLowerCase] only. *)
Lemma searchWithFuzzyMatching_case (engine : ArraySort) (buzzwords : list Buzzword)
      (q1 q2 : string) :
  toLowerCase q1 = toLowerCase q2 ->
  searchWithFuzzyMatching engine buzzwords q1
  = searchWithFuzzyMatching engine buzzwords q2.
Proof.
  intro H. unfold searchWithFuzzyMatching.
  rewrite <- (isEmpty_toLowerCase q1), <- (isEmpty_toLowerCase q2), H.
  reflexivity.
Qed.


End CaseInsensitivity.



(** ** What a returned result looks like *)

Section ReturnedResults.

#[local] Open Scope float_scope.

Lemma finite_SFleb (m mc : positive) (e ec : Z) :
  (e < ec \/ (e = ec /\ Z.pos m <= Z.pos mc))%Z ->
  SFleb (S754_finite false m e) (S754_finite false mc ec) = true.
Proof.
  intro H. unfold SFleb, SFcompare.
  change (Pos.compare_cont Eq m mc) with (Pos.compare m mc).
  destruct (Z.compare_spec e ec) as [->|Hlt|Hgt]; [|reflexivity|lia].
  destruct (Pos.compare_spec m mc); try reflexivity. lia.
Qed.

Lemma atMostOne_SFleb (x : spec_float) :
  atMostOne x -> x <> S754_nan -> SFleb x oneSF = true.
Proof.
  destruct x as [s|s| |s m e]; cbn [atMostOne].
  - reflexivity.
  - intros ->. reflexivity.
  - congruence.
  - destruct s; [reflexivity|]. intros [H|H] _; [discriminate|].
    now apply finite_SFleb.
Qed.

Lemma atMostOne_leb (x : float) :
  atMostOne (Prim2SF x) -> (0.1 <? x) = true -> (x <=? 1) = true.
Proof.
  rewrite ltb_spec, leb_spec. change (Prim2SF 1) with oneSF.
  intros H Hx. apply atMostOne_SFleb; [exact H|].
  intro E. rewrite E in Hx. discriminate.
Qed.

Lemma firstRules_no_match (b : Buzzword) (phrase_ nq : string) (qw : list string)
      (rel : float) (matched : list string) :
  firstRules b phrase_ nq qw = Some (rel, matched, no_match) -> rel = 0.
Proof.
  unfold firstRules.
  destruct (String.eqb phrase_ nq); [discriminate|].
  destruct (includes phrase_ nq); [discriminate|].
  destruct (includes nq phrase_); [discriminate|].
  destruct (calculateKeywordMatches b qw) as [km|]; [|discriminate].
  destruct (0 <? score km); [discriminate|]. now intros [= <-].
Qed.

Lemma calculateRelevanceScore_no_match (b : Buzzword) (nq : string)
      (qw : list string) (r : SearchResult) :
  calculateRelevanceScore b nq qw = Some r ->
  matchType r = no_match -> relevanceScore r = 0.
Proof.
  unfold calculateRelevanceScore.
  destruct (phrase b) as [q|]; [|discriminate].
  destruct (firstRules b (toLowerCase q) nq qw) as [[[rel matched] mtype]|] eqn:E;
    [|discriminate].
  destruct (fuzzyRule_cases (toLowerCase q) nq (rel, matched, mtype))
    as [->|(_ & _ & ->)].
  - intros [= <-]. cbn. intros ->. exact (firstRules_no_match _ _ _ _ _ _ E).
  - intros [= <-]. cbn. discriminate.
Qed.

Lemma dedupe_spec (xs : list string) :
  forall seen,
    NoDup (dedupe seen xs)
    /\ forall x, In x (dedupe seen xs) -> In x xs /\ ~ In x seen.
Proof.
  induction xs as [|x xs IH]; intro seen; simpl.
  - split; [constructor|intros x []].
  - destruct (existsb (String.eqb x) seen) eqn:E.
    + destruct (IH seen) as [Hn Hi]. split; [exact Hn|].
      intros y Hy. destruct (Hi y Hy). tauto.
    + destruct (IH (x :: seen)) as [Hn Hi]. split.
      * constructor; [|exact Hn]. intro Hx. destruct (Hi x Hx) as [_ Hc].
        apply Hc. now left.
      * intros y [<-|Hy].
        -- split; [now left|]. intro Hx.
           assert (existsb (String.eqb x) seen = true)
             by (apply existsb_exists; exists x; split;
                 [exact Hx|apply String.eqb_refl]).
           congruence.
        -- destruct (Hi y Hy) as [H1 H2]. split; [now right|].
           intro H. apply H2. now right.
Qed.

Lemma calculateRelevanceScore_keywords (b : Buzzword) (nq : string)
      (qw : list string) (r : SearchResult) :
  calculateRelevanceScore b nq qw = Some r -> NoDup (matchedKeywords r).
Proof.
  unfold calculateRelevanceScore.
  destruct (phrase b) as [p|]; [|discriminate].
  destruct (firstRules b (toLowerCase p) nq qw) as [st|]; [|discriminate].
  destruct (fuzzyRule (toLowerCase p) nq st) as [[rel matched] mtype].
  intros [= <-]. cbn. apply dedupe_spec.
Qed.

(** Where a result shown comes from. *)
Lemma performSearch_origin (engine : ArraySort) (buzzwords : list Buzzword)
      (query : string) (results : list SearchResult) (r : SearchResult) :
  performSearch engine buzzwords query = ShowResults results ->
  In r results ->
  exists b nq qw,
    In b buzzwords
    /\ calculateRelevanceScore b nq qw = Some r
    /\ (0.1 <? relevanceScore r) = true.
Proof.
  unfold performSearch.
  destruct (message (validateSearchInput query)); try discriminate;
    destruct (valid (validateSearchInput query)); try discriminate;
    cbn [negb];
    (destruct (searchWithFuzzyMatching engine buzzwords
                 (sanitized (validateSearchInput query))) as [rs|] eqn:E;
     [|discriminate]);
    intros [= <-] Hr;
    destruct (searchWithFuzzyMatching_origin _ _ _ _ _ E Hr)
      as (b & nq & qw & Hb & _ & Hs & Ht);
    exists b, nq, qw; auto.
Qed.

End ReturnedResults.

(** X2.  Every result a search shows has a match type other than [none], a
    score above 0.1 and at most 1, and lists no matched term twice. *)
Theorem results_are_matches (engine : ArraySort) (buzzwords : list Buzzword)
        (query : string) (results : list SearchResult) (r : SearchResult) :
  performSearch engine buzzwords query = ShowResults results ->
  In r results ->
  matchType r <> no_match
  /\ (0.1 <? relevanceScore r)%float = true
  /\ (relevanceScore r <=? 1)%float = true
  /\ NoDup (matchedKeywords r).
Proof.
  intros H Hr.
  destruct (performSearch_origin _ _ _ _ _ H Hr) as (b & nq & qw & _ & Hb & Hs).
  repeat split.
  - intro Hn. rewrite (calculateRelevanceScore_no_match _ _ _ _ Hb Hn) in Hs.
    discriminate.
  - exact Hs.
  - destruct (calculateRelevanceScore_cases _ _ _ _ Hb) as [(_ & -> & _)|[_ Hle]];
      [reflexivity|now apply atMostOne_leb].
  - exact (calculateRelevanceScore_keywords _ _ _ _ Hb).
Qed.

Lemma results_are_matches_witness :
  exists results r,
    performSearch insertionSort [synergy; takeThisOffline] "offline"
    = ShowResults results
    /\ In r results
    /\ matchType r <> no_match
    /\ (0.1 <? relevanceScore r)%float = true
    /\ (relevanceScore r <=? 1)%float = true
    /\ NoDup (matchedKeywords r).
Proof.
  eexists. eexists.
  split; [vm_compute; reflexivity|].
  split; [left; reflexivity|].
  eapply (results_are_matches insertionSort [synergy; takeThisOffline] "offline");
    [vm_compute; reflexivity|left; reflexivity].
Defined.
(** ** No entry is shown twice *)

Section DistinctResults.

Lemma NoDup_firstn {A : Type} (n : nat) (l : list A) :
  NoDup l -> NoDup (firstn n l).
Proof.
  revert l. induction n as [|n IH]; intros l H; [constructor|].
  destruct l as [|x l]; [constructor|].
  inversion H as [|? ? Hx Hl]; subst. rewrite firstn_cons. constructor.
  - intro Hin. apply Hx. now apply in_firstn in Hin.
  - now apply IH.
Qed.

(** The entries a filter keeps have different phrases when all have. *)
Lemma filter_distinct_phrases (keep : Buzzword -> bool) (dictionary : list Buzzword) :
  NoDup (map phrase dictionary) -> NoDup (map phrase (filter keep dictionary)).
Proof.
  induction dictionary as [|b rest IH]; [auto|].
  cbn [map filter]. intro H. inversion H as [|? ? Hb Hrest]; subst.
  destruct (keep b); [|now apply IH].
  cbn [map]. constructor; [|now apply IH].
  intro Hin. apply Hb. apply in_map_iff in Hin.
  destruct Hin as (b' & Hp & Hin). apply filter_In in Hin.
  apply in_map_iff. exists b'. tauto.
Qed.

(** The phrase of a kept result is the phrase of its entry. *)
Lemma keptResult_phrase (nq : string) (qw : list string) (b : Buzzword)
      (r : SearchResult) :
  In r (keptResult nq qw b) -> phrase b = Some (match_ r).
Proof.
  unfold keptResult.
  destruct (calculateRelevanceScore b nq qw) as [r'|] eqn:E; [|contradiction].
  destruct (0.1 <? relevanceScore r')%float; [|contradiction].
  intros [<-|[]]. now apply calculateRelevanceScore_fields in E.
Qed.

Lemma keptResult_short (nq : string) (qw : list string) (b : Buzzword) :
  keptResult nq qw b = []
  \/ exists r, keptResult nq qw b = [r].
Proof.
  unfold keptResult.
  destruct (calculateRelevanceScore b nq qw) as [r'|]; [|now left].
  destruct (0.1 <? relevanceScore r')%float; [right; now exists r'|now left].
Qed.

Lemma keptResults_distinct (nq : string) (qw : list string) (l : list Buzzword) :
  NoDup (map phrase l) ->
  NoDup (map match_ (flat_map (keptResult nq qw) l)).
Proof.
  induction l as [|b l IH]; [constructor|].
  cbn [map flat_map]. intro H. inversion H as [|? ? Hb Hl]; subst.
  specialize (IH Hl).
  destruct (keptResult_short nq qw b) as [E|(r & E)]; rewrite E in *;
    [exact IH|].
  cbn [app map]. constructor; [|exact IH].
  intro Hin. apply Hb. apply in_map_iff in Hin. destruct Hin as (r' & Hm & Hr').
  apply in_flat_map in Hr'. destruct Hr' as (b' & Hb' & Hr').
  apply keptResult_phrase in Hr'.
  assert (Hr : phrase b = Some (match_ r))
    by (apply (keptResult_phrase nq qw); rewrite E; now left).
  apply in_map_iff. exists b'. split; [congruence|exact Hb'].
Qed.

Lemma candidateResults_distinct (buzzwords : list Buzzword) (query : string) :
  NoDup (map phrase buzzwords) ->
  NoDup (map match_ (candidateResults buzzwords query)).
Proof.
  intro H. unfold candidateResults.
  destruct (filter _ (splitWhitespace _)); [constructor|].
  rewrite scoredResults_flat_map.
  now apply keptResults_distinct, filter_distinct_phrases.
Qed.

End DistinctResults.

(** X3.  In a dictionary whose phrases are all different, a search shows no
    phrase twice, whatever the order the sort leaves the results in. *)
Theorem results_distinct (engine : ArraySort) (buzzwords : list Buzzword)
        (query : string) (results : list SearchResult) :
  NoDup (map phrase buzzwords) ->
  performSearch engine buzzwords query = ShowResults results ->
  NoDup (map match_ results).
Proof.
  intros Hnd H. pose proof (performSearch_shown _ _ _ _ H) as Hv.
  rewrite (performSearch_results engine _ _ Hv) in H.
  assert (E : results
              = firstn 10 (sort engine compareResults
                                (candidateResults buzzwords (sanitizeInput query))))
    by congruence.
  subst results. rewrite <- firstn_map. apply NoDup_firstn.
  apply (Permutation_NoDup
           (Permutation_sym
              (Permutation_map match_ (sort_permutation engine _ _ _)))).
  now apply candidateResults_distinct.
Qed.

Lemma results_distinct_witness :
  exists results,
    performSearch insertionSort synergies "synergy" = ShowResults results
    /\ List.length results = 3
    /\ NoDup (map match_ results).
Proof.
  eexists. split; [vm_compute; reflexivity|]. split; [reflexivity|].
  apply (results_distinct insertionSort synergies "synergy").
  - repeat constructor; cbn [In]; intuition discriminate.
  - vm_compute. reflexivity.
Defined.

(** ** Bounds of the edit distance *)

Section DistanceBounds.

Lemma classicDistance_bounds (p : list ascii) :
  forall q,
    List.length p <= List.length q + classicDistance p q
    /\ List.length q <= List.length p + classicDistance p q
    /\ classicDistance p q <= Nat.max (List.length p) (List.length q).
Proof.
  induction p as [|a p IHp]; intro q.
  - rewrite classicDistance_nil_l. cbn [List.length]. lia.
  - induction q as [|b q IHq].
    + rewrite classicDistance_nil_r. cbn [List.length]. lia.
    + rewrite classicDistance_cons. cbn [List.length].
      destruct (IHp q) as (H1 & H2 & H3).
      destruct (IHp (b :: q)) as (H4 & H5 & H6). cbn [List.length] in *.
      destruct (Ascii.eqb a b); lia.
Qed.

Lemma classicDistance_zero (p : list ascii) :
  forall q, classicDistance p q = 0 -> p = q.
Proof.
  induction p as [|a p IH]; intro q.
  - rewrite classicDistance_nil_l. now destruct q.
  - destruct q as [|b q]; [rewrite classicDistance_nil_r; discriminate|].
    rewrite classicDistance_cons. intro H.
    destruct (Ascii.eqb a b) eqn:E; [|lia].
    apply Ascii.eqb_eq in E. subst b. f_equal. apply IH. lia.
Qed.

Lemma revOnto_length (s : string) :
  forall pre, List.length (revOnto pre s) = List.length pre + String.length s.
Proof.
  induction s as [|c s IH]; intro pre; cbn [revOnto String.length]; [lia|].
  rewrite IH. cbn [List.length]. lia.
Qed.

Lemma revOnto_rev (s : string) :
  forall pre, revOnto pre s = (rev (list_ascii_of_string s) ++ pre)%list.
Proof.
  induction s as [|c s IH]; intro pre; [reflexivity|].
  cbn [revOnto list_ascii_of_string rev]. rewrite IH, <- app_assoc. reflexivity.
Qed.

Lemma revOnto_inj (x y : string) : revOnto [] x = revOnto [] y -> x = y.
Proof.
  rewrite !revOnto_rev, !app_nil_r. intro H.
  apply (f_equal (@rev ascii)) in H. rewrite !rev_involutive in H.
  rewrite <- (string_of_list_ascii_of_string x),
    <- (string_of_list_ascii_of_string y).
  now f_equal.
Qed.

End DistanceBounds.

(** X4.  The edit distance of two strings is 0 for equal strings only; it is
    at least the difference of their lengths and at most the greater
    length. *)
Theorem levenshteinDistance_bounds (x y : string) :
  (levenshteinDistance x y = 0 <-> x = y)
  /\ String.length x <= String.length y + levenshteinDistance x y
  /\ String.length y <= String.length x + levenshteinDistance x y
  /\ levenshteinDistance x y <= Nat.max (String.length x) (String.length y).
Proof.
  rewrite levenshteinDistance_classic.
  destruct (classicDistance_bounds (revOnto [] y) (revOnto [] x))
    as (H1 & H2 & H3).
  rewrite !revOnto_length in *. cbn [List.length] in *.
  repeat split; try lia.
  - intro H. apply classicDistance_zero in H. symmetry. now apply revOnto_inj.
  - intros ->. apply classicDistance_refl.
Qed.

(** ** The result cache *)

Section Cache.

Lemma cacheSet_length (key : string) (results : list SearchResult)
      (cache : SearchCache) :
  List.length (cacheSet key results cache) <= S (List.length cache).
Proof.
  induction cache as [|[k v] cache IH]; cbn [cacheSet List.length]; [lia|].
  destruct (String.eqb k key); cbn [List.length]; lia.
Qed.

Lemma cacheGet_cacheSet (k key : string) (results : list SearchResult)
      (cache : SearchCache) :
  cacheGet k (cacheSet key results cache)
  = if String.eqb key k then Some results else cacheGet k cache.
Proof.
  induction cache as [|[k' v] cache IH]; cbn [cacheSet cacheGet]; [reflexivity|].
  destruct (String.eqb k' key) eqn:E; cbn [cacheGet].
  - apply String.eqb_eq in E. subst k'. now destruct (String.eqb key k).
  - rewrite IH. destruct (String.eqb k' k) eqn:E'; [|reflexivity].
    apply String.eqb_eq in E'. subst k'. now rewrite String.eqb_sym, E.
Qed.

Lemma cacheSet_new (key : string) (results : list SearchResult)
      (cache : SearchCache) :
  cacheGet key cache = None ->
  cacheSet key results cache = (cache ++ [(key, results)])%list.
Proof.
  induction cache as [|[k v] cache IH]; cbn [cacheSet cacheGet app]; [reflexivity|].
  destruct (String.eqb k key); [discriminate|]. intro H. now rewrite IH.
Qed.

(** The entry deleted when the cache is full is the first one. *)
Lemma cacheSearchResults_spec (key : string) (results : list SearchResult)
      (cache : SearchCache) :
  cacheSearchResults key results cache
  = cacheSet key results
      (if Nat.leb maxCacheSize (List.length cache) then tl cache else cache).
Proof.
  unfold cacheSearchResults.
  destruct (Nat.leb maxCacheSize (List.length cache)); [|reflexivity].
  destruct cache as [|[k v] cache]; [reflexivity|].
  cbn [cacheDelete tl]. now rewrite String.eqb_refl.
Qed.

Lemma cacheGet_In (key : string) (results : list SearchResult)
      (cache : SearchCache) :
  cacheGet key cache = Some results -> In (key, results) cache.
Proof.
  induction cache as [|[k v] cache IH]; cbn [cacheGet]; [discriminate|].
  destruct (String.eqb k key) eqn:E.
  - apply String.eqb_eq in E. subst k. intros [= ->]. now left.
  - intro H. right. now apply IH.
Qed.

Lemma cacheSet_In (key : string) (results : list SearchResult)
      (cache : SearchCache) (entry : string * list SearchResult) :
  In entry (cacheSet key results cache) ->
  entry = (key, results) \/ In entry cache.
Proof.
  induction cache as [|[k v] cache IH]; cbn [cacheSet].
  - intros [<-|[]]. now left.
  - destruct (String.eqb k key).
    + intros [<-|H]; [now left|right; now right].
    + intros [<-|H]; [right; now left|].
      destruct (IH H); [now left|right; now right].
Qed.

Lemma cacheSearchResults_In (key : string) (results : list SearchResult)
      (cache : SearchCache) (entry : string * list SearchResult) :
  In entry (cacheSearchResults key results cache) ->
  entry = (key, results) \/ In entry cache.
Proof.
  rewrite cacheSearchResults_spec. intro H. apply cacheSet_In in H.
  destruct H as [H|H]; [now left|right].
  destruct (Nat.leb maxCacheSize (List.length cache)); [|exact H].
  destruct cache; [exact H|now right].
Qed.

Lemma cacheSearchResults_length (key : string) (results : list SearchResult)
      (cache : SearchCache) :
  List.length cache <= maxCacheSize ->
  List.length (cacheSearchResults key results cache) <= maxCacheSize.
Proof.
  intro H. rewrite cacheSearchResults_spec. etransitivity; [apply cacheSet_length|].
  destruct (Nat.leb maxCacheSize (List.length cache)) eqn:E.
  - destruct cache; cbn [tl List.length] in *; [unfold maxCacheSize; lia|lia].
  - apply Nat.leb_gt in E. lia.
Qed.

(** One search on a coherent cache shows what the search without a cache
    shows, and leaves a coherent cache. *)
Lemma performSearchCached_coherent (engine : ArraySort)
      (buzzwords : list Buzzword) (cache : SearchCache) (query : string) :
  coherent engine buzzwords cache ->
  fst (performSearchCached engine buzzwords cache query)
  = performSearch engine buzzwords query
  /\ coherent engine buzzwords
              (snd (performSearchCached engine buzzwords cache query)).
Proof.
  intro Hc. unfold performSearchCached, performSearch.
  destruct (message (validateSearchInput query)) eqn:Em;
    try (split; [reflexivity|exact Hc]);
    (destruct (valid (validateSearchInput query)) eqn:Ev; cbn [negb];
     [|split; [reflexivity|exact Hc]]).
  all: try (exfalso; revert Em Ev; unfold validateSearchInput;
            repeat match goal with
                   | |- context [if ?c then _ else _] => destruct c
                   end; cbn; congruence).
  destruct (validated_query query Em) as (Hq & Hne & _).
  rewrite Hq. cbn [sanitized].
  destruct (cacheGet (toLowerCase (sanitizeInput query)) cache)
    as [cached|] eqn:Eg.
  - apply cacheGet_In in Eg. rewrite (Hc _ _ Eg _ eq_refl Hne).
    split; [reflexivity|exact Hc].
  - destruct (searchWithFuzzyMatching engine buzzwords (sanitizeInput query))
      as [results|] eqn:Es; [|split; [reflexivity|exact Hc]].
    split; [reflexivity|]. cbn [snd].
    intros key rs Hin q Hkey Hq'. apply cacheSearchResults_In in Hin.
    destruct Hin as [[= -> ->]|Hin]; [|exact (Hc _ _ Hin _ Hkey Hq')].
    rewrite <- Es. now apply searchWithFuzzyMatching_case.
Qed.

Lemma searchSession_coherent (engine : ArraySort) (buzzwords : list Buzzword)
      (queries : list string) :
  forall cache,
    coherent engine buzzwords cache ->
    searchSession engine buzzwords cache queries
    = map (performSearch engine buzzwords) queries.
Proof.
  induction queries as [|q queries IH]; intros cache Hc; [reflexivity|].
  cbn [searchSession map].
  destruct (performSearchCached_coherent engine buzzwords cache q Hc) as [H1 H2].
  destruct (performSearchCached engine buzzwords cache q) as [outcome cache'].
  cbn [fst snd] in *. now rewrite H1, (IH cache' H2).
Qed.

End Cache.

(** X5.  The cache never holds more than 100 lists of results: a search on a
    cache within the bound leaves a cache within the bound. *)
Theorem cache_bounded (engine : ArraySort) (buzzwords : list Buzzword)
        (cache : SearchCache) (query : string) :
  List.length cache <= maxCacheSize ->
  List.length (snd (performSearchCached engine buzzwords cache query))
  <= maxCacheSize.
Proof.
  intro H. unfold performSearchCached.
  destruct (message (validateSearchInput query));
    try exact H;
    (destruct (negb (valid (validateSearchInput query))); [exact H|]);
    (destruct (cacheGet _ cache); [exact H|]);
    (destruct (searchWithFuzzyMatching _ _ _); [|exact H]);
    now apply cacheSearchResults_length.
Qed.

Lemma cache_bounded_witness :
  List.length (snd (performSearchCached insertionSort [synergy] [] "synergy")) = 1
  /\ List.length (snd (performSearchCached insertionSort [synergy] [] "synergy"))
     <= maxCacheSize.
Proof.
  split; [reflexivity|].
  apply (cache_bounded insertionSort [synergy] [] "synergy").
  cbn [List.length]. unfold maxCacheSize. lia.
Defined.

(** X6.  What [cacheSearchResults] does to the cache: the list stored is the
    one looked up afterwards under its key; the other keys keep their lists,
    but for the oldest entry, which is dropped when the cache holds 100
    entries or more; and a key that was not in the cache is added as its
    newest entry. *)
Theorem cacheSearchResults_stored (key : string) (results : list SearchResult)
        (cache : SearchCache) :
  let kept := if Nat.leb maxCacheSize (List.length cache)
              then tl cache else cache in
  cacheGet key (cacheSearchResults key results cache) = Some results
  /\ (forall k, k <> key ->
                cacheGet k (cacheSearchResults key results cache)
                = cacheGet k kept)
  /\ (cacheGet key cache = None ->
      cacheSearchResults key results cache = (kept ++ [(key, results)])%list).
Proof.
  cbv zeta. rewrite cacheSearchResults_spec. repeat split.
  - now rewrite cacheGet_cacheSet, String.eqb_refl.
  - intros k Hk. rewrite cacheGet_cacheSet.
    destruct (String.eqb key k) eqn:E; [|reflexivity].
    apply String.eqb_eq in E. congruence.
  - intro H. apply cacheSet_new.
    destruct (Nat.leb maxCacheSize (List.length cache)); [|exact H].
    destruct cache as [|[k v] cache]; [reflexivity|].
    cbn [cacheGet tl] in *. now destruct (String.eqb k key).
Qed.

(** X7.  The cache does not change what is shown: a run of searches that
    starts on an empty cache shows, query after query, what each search would
    show on its own. *)
Theorem cache_transparent (engine : ArraySort) (buzzwords : list Buzzword)
        (queries : list string) :
  searchSession engine buzzwords [] queries
  = map (performSearch engine buzzwords) queries.
Proof. apply searchSession_coherent. intros key results []. Qed.

(** ** Suggestions when nothing is found *)

Section SimilarBuzzwords.

(** A comparator that compares a number attached to the elements is
    consistent on every list. *)
Lemma consistentOn_measure {A : Type} (f : A -> nat) (l : list A) :
  consistentOn (fun a b => Nat.compare (f b) (f a)) l = true.
Proof.
  unfold consistentOn. rewrite !andb_true_iff. repeat split.
  - apply forallb_forall. intros a _. now rewrite Nat.compare_refl.
  - apply forallb_forall. intros a _. apply forallb_forall. intros b _.
    rewrite (Nat.compare_antisym (f b) (f a)).
    now destruct (Nat.compare (f b) (f a)).
  - apply forallb_forall. intros a _. apply forallb_forall. intros b _.
    apply forallb_forall. intros c _.
    destruct (Nat.compare_spec (f b) (f a)), (Nat.compare_spec (f c) (f b)),
      (Nat.compare_spec (f c) (f a)); cbn; try reflexivity; lia.
Qed.

Lemma inOrder_descending (l : list Suggestion) :
  inOrder compareRelevance l = true -> descending l = true.
Proof.
  induction l as [|a l IH]; [reflexivity|].
  cbn [inOrder descending]. rewrite !andb_true_iff, !forallb_forall.
  intros [Ha Hl]. split; [|now apply IH].
  intros b Hb. specialize (Ha b Hb). unfold compareRelevance in Ha.
  apply Nat.leb_le.
  destruct (Nat.compare_spec (relevance a) (relevance b)); try lia.
  discriminate.
Qed.

Lemma descending_firstn (n : nat) (l : list Suggestion) :
  descending l = true -> descending (firstn n l) = true.
Proof.
  revert l. induction n as [|n IH]; intros l H; [reflexivity|].
  destruct l as [|a l]; [reflexivity|].
  cbn [descending] in H. apply andb_prop in H. destruct H as [Ha Hl].
  rewrite firstn_cons. cbn [descending].
  now rewrite (forallb_firstn _ n l Ha), (IH l Hl).
Qed.

(** The loop over the dictionary: it throws at the first entry without a
    phrase or keywords, and otherwise collects the suggestions of the entries
    in their order. *)
Lemma suggestionSteps (query : string) (buzzwords : list Buzzword) :
  forall acc,
    fold_left (suggestionStep query) buzzwords (Some acc)
    = if forallb wellFormed buzzwords
      then Some (acc ++ flat_map (suggestionOf query) buzzwords)%list
      else None.
Proof.
  induction buzzwords as [|b l IH]; intro acc.
  - cbn. now rewrite app_nil_r.
  - cbn [fold_left forallb flat_map].
    unfold suggestionStep at 2, wellFormed at 1, suggestionOf at 1.
    destruct (phrase b) as [p|], (keywords b) as [kws|]; cbn [andb].
    + destruct (similarity query (toLowerCase p) (map toLowerCase kws)).
      * now rewrite IH, <- app_assoc.
      * now rewrite IH.
    + clear IH. induction l as [|b' l IHl]; [reflexivity|exact IHl].
    + clear IH. induction l as [|b' l IHl]; [reflexivity|exact IHl].
    + clear IH. induction l as [|b' l IHl]; [reflexivity|exact IHl].
Qed.

Lemma similarity_range (query phrase_ : string) (keywords_ : list string)
      (rel : nat) :
  similarity query phrase_ keywords_ = Some rel -> 1 <= rel <= 3.
Proof.
  unfold similarity.
  destruct (existsb _ keywords_ || _ || _); [|discriminate].
  destruct (existsb _ keywords_); [intros [= <-]; lia|].
  destruct (includes phrase_ query || includes query phrase_);
    intros [= <-]; lia.
Qed.

Lemma suggestionOf_origin (query : string) (b : Buzzword) (s : Suggestion) :
  In s (suggestionOf query b) ->
  1 <= relevance s <= 3
  /\ phrase b = Some (sug_phrase s)
  /\ translation b = sug_translation s.
Proof.
  unfold suggestionOf.
  destruct (phrase b) as [p|]; [|contradiction].
  destruct (keywords b) as [kws|]; [|contradiction].
  destruct (similarity query (toLowerCase p) (map toLowerCase kws)) as [rel|] eqn:E;
    [|contradiction].
  intros [<-|[]]. cbn. split; [exact (similarity_range _ _ _ _ E)|now split].
Qed.

(** A query of fewer than two characters gets no suggestion. *)
Lemma short_query (q : string) :
  isEmpty q || Nat.ltb (String.length q) 2 = Nat.ltb (String.length q) 2.
Proof. now destruct q. Qed.

Lemma performSearch_no_error (engine : ArraySort) (buzzwords : list Buzzword)
      (query : string) :
  performSearch engine buzzwords query <> ShowErrorState.
Proof.
  rewrite performSearch_sanitized. unfold searchSanitized.
  destruct (Nat.eqb (String.length (sanitizeInput query)) 0) eqn:E;
    [discriminate|].
  destruct (Nat.ltb (String.length (sanitizeInput query)) 2); [discriminate|].
  destruct (Nat.ltb 100 (String.length (sanitizeInput query))); [discriminate|].
  destruct (negb (hasLetter (sanitizeInput query))); [discriminate|].
  rewrite searchWithFuzzyMatching_candidates; [discriminate|].
  destruct (sanitizeInput query); [discriminate|reflexivity].
Qed.

End SimilarBuzzwords.

(** X8.  The suggestions of the no-results box: at most six, in descending
    order of relevance, the first six of an arrangement in that order of the
    suggestions of all entries; each carries the phrase and the translation
    of a dictionary entry and a relevance of 1, 2 or 3. *)
Theorem findSimilarBuzzwords_suggestions (engine : ArraySort)
        (buzzwords : list Buzzword) (searchQuery : string)
        (suggestions : list Suggestion) :
  findSimilarBuzzwords engine buzzwords searchQuery = Some suggestions ->
  List.length suggestions <= 6
  /\ descending suggestions = true
  /\ (2 <= String.length searchQuery ->
      exists arranged,
        Permutation arranged
          (flat_map (suggestionOf (trim (toLowerCase searchQuery))) buzzwords)
        /\ descending arranged = true
        /\ suggestions = firstn 6 arranged)
  /\ (forall s, In s suggestions ->
        1 <= relevance s <= 3
        /\ exists b, In b buzzwords
                     /\ phrase b = Some (sug_phrase s)
                     /\ translation b = sug_translation s).
Proof.
  unfold findSimilarBuzzwords. rewrite short_query.
  destruct (Nat.ltb (String.length searchQuery) 2) eqn:El.
  { intros [= <-]. apply Nat.ltb_lt in El.
    split; [cbn; lia|]. split; [reflexivity|]. split; [lia|]. intros s []. }
  rewrite suggestionSteps. cbn [app].
  destruct (forallb wellFormed buzzwords); [|discriminate].
  set (all := flat_map (suggestionOf (trim (toLowerCase searchQuery))) buzzwords).
  intro H.
  assert (E : suggestions = firstn 6 (sort engine compareRelevance all))
    by congruence.
  subst suggestions. clear H.
  pose proof (sort_permutation engine _ compareRelevance all) as Hperm.
  assert (Hdesc : descending (sort engine compareRelevance all) = true).
  { apply inOrder_descending, sort_inOrder.
    apply (consistentOn_measure relevance). }
  split; [apply firstn_le_length|].
  split; [now apply descending_firstn|].
  split; [intros _; now exists (sort engine compareRelevance all)|].
  intros s Hs. apply in_firstn in Hs. apply (Permutation_in _ Hperm) in Hs.
  apply in_flat_map in Hs. destruct Hs as (b & Hb & Hs).
  destruct (suggestionOf_origin _ _ _ Hs) as (Hr & Hp & Ht).
  split; [exact Hr|]. now exists b.
Qed.

Lemma findSimilarBuzzwords_suggestions_witness :
  exists s1 s2,
    findSimilarBuzzwords insertionSort [takeThisOffline; synergy] "er"
    = Some [s1; s2]
    /\ sug_phrase s1 = "synergy" /\ relevance s1 = 2
    /\ sug_phrase s2 = "let's take this offline" /\ relevance s2 = 1
    /\ descending [s1; s2] = true.
Proof.
  do 2 eexists. split; [vm_compute; reflexivity|].
  do 4 (split; [reflexivity|]).
  apply (findSimilarBuzzwords_suggestions insertionSort
           [takeThisOffline; synergy] "er").
  vm_compute. reflexivity.
Defined.

(** X9.  The computation of the suggestions throws exactly when the query has
    two characters or more and some entry of the dictionary has no phrase or
    no keywords; so a search ends on the error page exactly when it is valid,
    finds nothing, and the dictionary holds such an entry. *)
Theorem searchScreen_error (engine : ArraySort) (buzzwords : list Buzzword)
        (query : string) :
  (findSimilarBuzzwords engine buzzwords query = None
   <-> 2 <= String.length query /\ forallb wellFormed buzzwords = false)
  /\ (searchScreen engine buzzwords query = ErrorScreen
      <-> performSearch engine buzzwords query = ShowResults []
          /\ forallb wellFormed buzzwords = false).
Proof.
  assert (H : forall q,
             findSimilarBuzzwords engine buzzwords q = None
             <-> 2 <= String.length q /\ forallb wellFormed buzzwords = false).
  { intro q. unfold findSimilarBuzzwords. rewrite short_query.
    destruct (Nat.ltb (String.length q) 2) eqn:El.
    - apply Nat.ltb_lt in El. split; [discriminate|lia].
    - apply Nat.ltb_ge in El. rewrite suggestionSteps.
      destruct (forallb wellFormed buzzwords); split;
        try discriminate; try tauto.
      intros [_ ?]. discriminate. }
  split; [apply H|].
  unfold searchScreen.
  pose proof (performSearch_no_error engine buzzwords query) as Hne.
  destruct (performSearch engine buzzwords query) as [|reason|results|] eqn:Ep;
    try (split; [discriminate|intros [? _]; discriminate]);
    [|contradiction].
  destruct results as [|r results];
    [|split; [discriminate|intros [? _]; discriminate]].
  pose proof (performSearch_shown _ _ _ _ Ep) as Hv.
  destruct (validated_query query Hv) as (Hq & _ & _).
  assert (Hlen : 2 <= String.length (sanitizeInput query)).
  { revert Hv. unfold validateSearchInput.
    destruct (Nat.eqb (String.length (sanitizeInput query)) 0); [discriminate|].
    destruct (Nat.ltb (String.length (sanitizeInput query)) 2) eqn:E2;
      [discriminate|].
    intros _. now apply Nat.ltb_ge in E2. }
  specialize (H (sanitizeInput query)).
  destruct (findSimilarBuzzwords engine buzzwords (sanitizeInput query)).
  - split; [discriminate|]. intros [_ Hw].
    destruct H as [_ H]. now specialize (H (conj Hlen Hw)).
  - split; [|reflexivity]. intros _. split; [reflexivity|].
    now apply H.
Qed.

(** ** The history of search times *)

Section SearchTimes.

Lemma logSearchPerformance_recent (searchTimes : list float) (searchTime : float) :
  List.length searchTimes <= maxSearchTimeHistory ->
  logSearchPerformance searchTimes searchTime
  = skipn (List.length (searchTimes ++ [searchTime]) - maxSearchTimeHistory)
          (searchTimes ++ [searchTime])
  /\ List.length (logSearchPerformance searchTimes searchTime)
     <= maxSearchTimeHistory.
Proof.
  intro H. unfold logSearchPerformance. rewrite length_app. cbn [List.length].
  destruct (Nat.ltb maxSearchTimeHistory (List.length searchTimes + 1)) eqn:E.
  - apply Nat.ltb_lt in E.
    replace (List.length searchTimes + 1 - maxSearchTimeHistory) with 1 by lia.
    destruct searchTimes as [|t l]; cbn [app tl skipn List.length] in *;
      [unfold maxSearchTimeHistory in E; lia|].
    split; [reflexivity|]. rewrite length_app. cbn [List.length]. lia.
  - apply Nat.ltb_ge in E.
    replace (List.length searchTimes + 1 - maxSearchTimeHistory) with 0 by lia.
    split; [reflexivity|]. rewrite length_app. cbn [List.length]. lia.
Qed.

Lemma searchTimes_history (times : list float) :
  forall searchTimes,
    List.length searchTimes <= maxSearchTimeHistory ->
    fold_left logSearchPerformance times searchTimes
    = skipn (List.length (searchTimes ++ times) - maxSearchTimeHistory)
            (searchTimes ++ times).
Proof.
  induction times as [|t times IH]; intros searchTimes H.
  - rewrite app_nil_r.
    replace (List.length searchTimes - maxSearchTimeHistory) with 0 by lia.
    reflexivity.
  - cbn [fold_left].
    destruct (logSearchPerformance_recent searchTimes t H) as [E Hlen].
    rewrite (IH _ Hlen), E. clear IH E Hlen.
    replace (searchTimes ++ t :: times)%list
      with ((searchTimes ++ [t]) ++ times)%list
      by (now rewrite <- app_assoc).
    set (h := (searchTimes ++ [t])%list).
    set (k := List.length h - maxSearchTimeHistory).
    assert (Hk : (skipn k h ++ times)%list = skipn k (h ++ times)%list).
    { rewrite skipn_app. replace (k - List.length h) with 0 by (unfold k; lia).
      reflexivity. }
    rewrite Hk, skipn_skipn, length_skipn. f_equal.
    rewrite length_app. unfold k. lia.
Qed.

End SearchTimes.

(** X10.  The history [searchTimes] holds the most recent 20 search times at
    most: after any run of searches from the empty history it is the run's
    last 20 times, in order. *)
Theorem searchTimes_last_twenty (times : list float) :
  fold_left logSearchPerformance times []
  = skipn (List.length times - maxSearchTimeHistory) times
  /\ List.length (fold_left logSearchPerformance times [])
     <= maxSearchTimeHistory.
Proof.
  pose proof (searchTimes_history times [] (Nat.le_0_l _)) as H.
  cbn [app] in H. split; [exact H|].
  rewrite H, length_skipn. unfold maxSearchTimeHistory. lia.
Qed.

(** ** Sanitizing twice *)

Section SanitizedStrings.

(** The shape of a sanitized string. *)
Lemma sanitizeInput_shape (input : string) :
  let s := sanitizeInput input in
  anyChar isMarkup s = false
  /\ anyChar isControl s = false
  /\ anyChar isOddWhitespace s = false
  /\ trim s = s
  /\ (anyChar isBareControl input = false -> noAdjacentWhitespace s = true).
Proof.
  cbv zeta. unfold sanitizeInput, collapseWhitespace. repeat split.
  - apply trim_keeps, removeAll_keeps, collapseFrom_keeps;
      [reflexivity|apply removeAll_none].
  - apply trim_keeps, removeAll_none.
  - apply trim_keeps, removeAll_keeps, collapseFrom_spaces.
  - apply trim_idem.
  - intro H.
    rewrite (removeAll_id isControl)
      by (apply collapseFrom_no_control; now apply removeAll_keeps).
    apply noAdjacent_trimEnd, noAdjacent_trimStart, collapseFrom_noAdjacent.
Qed.

(** Nothing is collapsed in a string whose whitespace is single spaces. *)
Lemma collapseFrom_single_spaces (s : string) :
  forall inRun,
    noAdjacentWhitespace s = true ->
    anyChar isOddWhitespace s = false ->
    (inRun = true -> startsWithWhitespace s = false) ->
    collapseFrom inRun s = s.
Proof.
  induction s as [|c s IH]; intros inRun Hn Ho Hr; [reflexivity|].
  cbn [noAdjacentWhitespace anyChar startsWithWhitespace collapseFrom] in *.
  apply andb_prop in Hn. destruct Hn as [Hc Hn].
  apply orb_false_elim in Ho. destruct Ho as [Hoc Ho].
  unfold isOddWhitespace in Hoc.
  destruct (isWhitespace c) eqn:E; cbn [andb negb] in *.
  - destruct inRun; [now specialize (Hr eq_refl)|].
    apply negb_false_iff, Ascii.eqb_eq in Hoc. subst c.
    rewrite (IH true Hn Ho); [reflexivity|].
    intros _. now apply negb_true_iff in Hc.
  - now rewrite (IH false Hn Ho).
Qed.

Lemma sanitizeInput_again (input : string) :
  anyChar isBareControl input = false ->
  sanitizeInput (sanitizeInput input) = sanitizeInput input.
Proof.
  intro H. destruct (sanitizeInput_shape input) as (Hm & Hc & Ho & Ht & Hn).
  specialize (Hn H). set (s := sanitizeInput input) in *.
  unfold sanitizeInput at 1. unfold collapseWhitespace.
  rewrite (removeAll_id isMarkup s Hm).
  rewrite (collapseFrom_single_spaces s false Hn Ho) by discriminate.
  now rewrite (removeAll_id isControl s Hc).
Qed.

End SanitizedStrings.

(** X11.  For an input without control characters other than whitespace,
    sanitizing the sanitized string changes nothing, and the search for the
    sanitized string shows what the search for the input shows. *)
Theorem sanitized_query_searched_alike (input : string) :
  anyChar isBareControl input = false ->
  sanitizeInput (sanitizeInput input) = sanitizeInput input
  /\ forall engine buzzwords,
       performSearch engine buzzwords (sanitizeInput input)
       = performSearch engine buzzwords input.
Proof.
  intro H. pose proof (sanitizeInput_again input H) as E.
  split; [exact E|]. intros engine buzzwords.
  now rewrite !performSearch_sanitized, E.
Qed.

Lemma sanitized_query_searched_alike_witness :
  sanitizeInput "  <b>Circle</b>    back " = "bCircle/b back"
  /\ sanitizeInput "bCircle/b back" = "bCircle/b back"
  /\ performSearch insertionSort [synergy] "bCircle/b back"
     = performSearch insertionSort [synergy] "  <b>Circle</b>    back ".
Proof.
  destruct (sanitized_query_searched_alike "  <b>Circle</b>    back " eq_refl)
    as [E H].
  split; [reflexivity|]. split; [exact E|]. apply H.
Defined.

(** ** A phrase that contains the query is found *)

Section PhraseContains.

#[local] Open Scope float_scope.

Lemma includes_empty (sub : string) :
  includes EmptyString sub = true -> sub = EmptyString.
Proof. destruct sub; [reflexivity|discriminate]. Qed.

(** The matcher on an entry whose lower-cased phrase contains the query. *)
Lemma phrase_match_scored (e : Buzzword) (p nq : string) (qw : list string) :
  phrase e = Some p ->
  includes (toLowerCase p) nq = true ->
  exists r,
    keptResult nq qw e = [r]
    /\ match_ r = p
    /\ res_translation r = translation e
    /\ ((matchType r = exact /\ relevanceScore r = 1)
        \/ (matchType r = phrase_contains /\ relevanceScore r = 0.95)).
Proof.
  intros Hp Hi. unfold keptResult, calculateRelevanceScore, firstRules.
  rewrite Hp, Hi.
  destruct (String.eqb (toLowerCase p) nq).
  - replace (fuzzyRule (toLowerCase p) nq (1, [nq], exact))
      with (1, [nq], exact) by reflexivity.
    eexists. split; [reflexivity|]. cbn. repeat split. now left.
  - replace (fuzzyRule (toLowerCase p) nq (0.95, [nq], phrase_contains))
      with (0.95, [nq], phrase_contains) by reflexivity.
    eexists. split; [reflexivity|]. cbn. repeat split. now right.
Qed.

Lemma sanitized_normalized (input : string) :
  trim (toLowerCase (sanitizeInput input)) = toLowerCase (sanitizeInput input).
Proof.
  rewrite trim_toLowerCase. f_equal. unfold sanitizeInput. apply trim_idem.
Qed.

End PhraseContains.

(** X12.  The search scores every entry whose phrase contains the query, up
    to letter case: for a valid query such an entry yields a result with its
    phrase and translation, an exact match of score 1 or a phrase-contains
    match of score 0.95, and that result is shown when no more than ten
    results were scored. *)
Theorem phrase_containing_query_found (buzzwords : list Buzzword) (e : Buzzword)
        (p query : string) :
  In e buzzwords ->
  phrase e = Some p ->
  message (validateSearchInput query) = msg_valid ->
  includes (toLowerCase p) (toLowerCase (sanitizeInput query)) = true ->
  exists r,
    In r (candidateResults buzzwords (sanitizeInput query))
    /\ match_ r = p
    /\ res_translation r = translation e
    /\ ((matchType r = exact /\ relevanceScore r = 1%float)
        \/ (matchType r = phrase_contains /\ relevanceScore r = 0.95%float))
    /\ (List.length (candidateResults buzzwords (sanitizeInput query)) <= 10 ->
        forall engine, exists results,
          performSearch engine buzzwords query = ShowResults results
          /\ In r results).
Proof.
  intros Hin Hp Hv Hi.
  destruct (validated_query query Hv) as (_ & Hne & Hl).
  pose proof (sanitized_normalized query) as Hn.
  set (s := sanitizeInput query) in *.
  unfold candidateResults. rewrite Hn.
  destruct (filter _ (splitWhitespace (toLowerCase s))) as [|w ws] eqn:Ew.
  { exfalso. revert Ew. apply splitWhitespace_word, hasLetter_word, Hl. }
  destruct (phrase_match_scored e p (toLowerCase s) (w :: ws) Hp Hi)
    as (r & Hk & Hm & Ht & Hty).
  assert (Hr : In r (scoredResults
                       (filter (isRelevant (toLowerCase s) (w :: ws)) buzzwords)
                       (toLowerCase s) (w :: ws))).
  { rewrite scoredResults_flat_map. apply in_flat_map. exists e. split.
    - apply filter_In. split; [exact Hin|].
      unfold isRelevant. rewrite Hp, Hi.
      destruct p as [|c p]; [|reflexivity].
      apply includes_empty in Hi. destruct s; discriminate.
    - rewrite Hk. now left. }
  exists r. repeat split; try assumption.
  intros Hlen engine. eexists.
  split; [exact (performSearch_results engine buzzwords query Hv)|].
  fold s. unfold candidateResults. rewrite Hn, Ew.
  pose proof (sort_permutation engine _ compareResults
                (scoredResults
                   (filter (isRelevant (toLowerCase s) (w :: ws)) buzzwords)
                   (toLowerCase s) (w :: ws))) as Hperm.
  rewrite firstn_all2 by (now rewrite (Permutation_length Hperm)).
  now apply (Permutation_in _ (Permutation_sym Hperm)).
Qed.

Lemma phrase_containing_query_found_witness :
  exists r,
    In r (candidateResults [synergy; takeThisOffline] (sanitizeInput "This OFF"))
    /\ match_ r = "let's take this offline"
    /\ matchType r = phrase_contains
    /\ relevanceScore r = 0.95%float.
Proof.
  destruct (phrase_containing_query_found [synergy; takeThisOffline]
              takeThisOffline "let's take this offline" "This OFF")
    as (r & Hr & Hm & _ & Hty & _).
  - right. now left.
  - reflexivity.
  - reflexivity.
  - reflexivity.
  - exists r. split; [exact Hr|]. split; [exact Hm|].
    destruct Hty as [[Hx _]|Hc]; [|exact Hc].
    exfalso. vm_compute in Hr. destruct Hr as [<-|[]]. discriminate.
Defined.

(** ** Related suggestions *)

Section RelatedSuggestions.

Variable buzzwords : list Buzzword.
Variable results : list SearchResult.
Variable query : string.

(** The set of suggestions while it is built: entries of the dictionary, no
    one twice, each fit to be suggested. *)
Let invariant (suggestions : list Entry) : Prop :=
  NoDup (map fst suggestions)
  /\ forall x, In x suggestions ->
               In x (entries buzzwords) /\ suggestible results query x.

Lemma entries_nth (x : Entry) :
  In x (entries buzzwords) -> nth_error buzzwords (fst x) = Some (snd x).
Proof using Type.
  unfold entries.
  assert (G : forall l n, In x (combine (seq n (List.length l)) l) ->
                          nth_error l (fst x - n) = Some (snd x) /\ n <= fst x).
  { induction l as [|b l IH]; intros n; cbn [List.length seq combine];
      [contradiction|].
    intros [<-|H].
    - cbn [fst snd]. rewrite Nat.sub_diag. now split.
    - destruct (IH (S n) H) as [H1 H2]. split; [|lia].
      replace (fst x - n) with (S (fst x - S n)) by lia. exact H1. }
  intro H. destruct (G buzzwords 0 H) as [H1 _].
  now rewrite Nat.sub_0_r in H1.
Qed.

Lemma setAdd_invariant (suggestions : list Entry) (x : Entry) :
  invariant suggestions ->
  In x (entries buzzwords) -> suggestible results query x ->
  invariant (setAdd suggestions x).
Proof using Type.
  intros [Hnd Hall] Hx Hs. unfold setAdd.
  destruct (existsb (fun y => Nat.eqb (fst y) (fst x)) suggestions) eqn:E;
    [now split|].
  split.
  - rewrite map_app. cbn [map].
    apply NoDup_app; [exact Hnd|repeat constructor; intros []|].
    intros i Hi [<-|[]]. apply in_map_iff in Hi. destruct Hi as (y & Hy & Hin).
    assert (existsb (fun y => Nat.eqb (fst y) (fst x)) suggestions = true)
      by (apply existsb_exists; exists y; split;
          [exact Hin|now apply Nat.eqb_eq]).
    congruence.
  - intros y Hy. apply in_app_or in Hy.
    destruct Hy as [Hy|[<-|[]]]; [now apply Hall|now split].
Qed.

Lemma setAdds_invariant (xs : list Entry) :
  forall suggestions,
    invariant suggestions ->
    (forall x, In x xs -> In x (entries buzzwords)
                          /\ suggestible results query x) ->
    invariant (fold_left setAdd xs suggestions).
Proof using Type.
  induction xs as [|x xs IH]; intros suggestions Hi Hxs; [exact Hi|].
  cbn [fold_left]. apply IH.
  - destruct (Hxs x (or_introl eq_refl)). now apply setAdd_invariant.
  - intros y Hy. apply Hxs. now right.
Qed.

Lemma filterEntries_spec (test : Buzzword -> option bool) (l : list Entry) :
  forall found,
    filterEntries test l = Some found ->
    forall x, In x found -> In x l /\ test (snd x) = Some true.
Proof using Type.
  induction l as [|y l IH]; intros found; cbn [filterEntries].
  - intros [= <-] x [].
  - destruct (test (snd y)) as [keep|] eqn:Ey; [|discriminate].
    destruct (filterEntries test l) as [rest|]; [|discriminate].
    intros [= <-] x Hx. specialize (IH rest eq_refl).
    destruct keep.
    + destruct Hx as [<-|Hx]; [split; [now left|exact Ey]|].
      destruct (IH x Hx). split; [now right|assumption].
    + destruct (IH x Hx). split; [now right|assumption].
Qed.

Lemma sameText_trans (p q t : string) :
  sameText p q = true -> sameText p t = sameText q t.
Proof using Type.
  unfold sameText. intro H. apply String.eqb_eq in H. now rewrite H.
Qed.

Lemma isShown_sameText (p q : string) :
  sameText p q = true -> isShown results p = isShown results q.
Proof using Type.
  unfold isShown, sameText. intro H. apply String.eqb_eq in H. now rewrite H.
Qed.

Lemma addCategory_invariant (resultCategory : option string)
      (suggestions suggestions' : list Entry) :
  invariant suggestions ->
  addCategory results query (entries buzzwords) (Some suggestions) resultCategory
  = Some suggestions' ->
  invariant suggestions'.
Proof using Type.
  intros Hi. unfold addCategory.
  destruct (filterEntries _ _) as [found|] eqn:Ef; [|discriminate].
  intro H.
  assert (E : suggestions' = fold_left setAdd (firstn 2 found) suggestions)
    by congruence.
  subst suggestions'. clear H. apply setAdds_invariant; [exact Hi|].
  intros x Hx. apply in_firstn in Hx.
  destruct (filterEntries_spec _ _ _ Ef x Hx) as [Hin Ht].
  split; [exact Hin|]. unfold inCategory in Ht.
  destruct (optionEqb _ _); [|discriminate].
  destruct (phrase (snd x)) as [p|] eqn:Ep; [|discriminate].
  injection Ht as Ht. apply andb_prop in Ht. destruct Ht as [H1 H2].
  exists p. split; [exact Ep|]. now rewrite !negb_true_iff in *.
Qed.

Lemma findPopular_spec (eligible : bool) (popular : string) (l : list Entry) :
  forall x,
    findPopular eligible popular l = Some (Some x) ->
    In x l /\ eligible = true
    /\ exists p, phrase (snd x) = Some p /\ sameText p popular = true.
Proof using Type.
  induction l as [|y l IH]; intro x; cbn [findPopular]; [discriminate|].
  destruct (phrase (snd y)) as [p|] eqn:Ep; [|discriminate].
  destruct (sameText p popular && eligible) eqn:E.
  - intros [= <-]. apply andb_prop in E. destruct E as [E1 E2].
    split; [now left|]. split; [exact E2|]. now exists p.
  - intro H. destruct (IH x H) as (H1 & H2 & H3). split; [now right|now split].
Qed.

Lemma addPopular_invariant (popular : string)
      (suggestions suggestions' : list Entry) :
  invariant suggestions ->
  addPopular results query (entries buzzwords) (Some suggestions) popular
  = Some suggestions' ->
  invariant suggestions'.
Proof using Type.
  intro Hi. unfold addPopular.
  destruct (Nat.leb 6 (List.length suggestions)); [now intros [= <-]|].
  destruct (findPopular _ popular _) as [[x|]|] eqn:Ef;
    [|now intros [= <-]|discriminate].
  intros [= <-].
  destruct (findPopular_spec _ _ _ _ Ef) as (Hin & He & p & Hp & Hs).
  apply andb_prop in He. destruct He as [H1 H2].
  rewrite negb_true_iff in H1, H2.
  apply setAdd_invariant; [exact Hi|exact Hin|].
  exists p. split; [exact Hp|].
  now rewrite (isShown_sameText _ _ Hs), (sameText_trans _ _ _ Hs).
Qed.

Lemma steps_invariant {X : Type}
      (step : option (list Entry) -> X -> option (list Entry)) (xs : list X) :
  (forall x, step None x = None) ->
  (forall x s s', invariant s -> step (Some s) x = Some s' -> invariant s') ->
  forall s s',
    invariant s -> fold_left step xs (Some s) = Some s' -> invariant s'.
Proof using Type.
  intros Hnone Hstep. induction xs as [|x xs IH]; intros s s' Hi; cbn [fold_left].
  - now intros [= <-].
  - destruct (step (Some s) x) as [s1|] eqn:E.
    + apply IH. exact (Hstep _ _ _ Hi E).
    + intro H. exfalso. clear -H Hnone.
      induction xs as [|y xs IHx]; cbn [fold_left] in H; [discriminate|].
      rewrite Hnone in H. auto.
Qed.

Lemma addRemaining_invariant (shuffle : list Entry -> list Entry)
      (suggestions suggestions' : list Entry) :
  (forall l, Permutation (shuffle l) l) ->
  invariant suggestions ->
  addRemaining shuffle results query (entries buzzwords) suggestions
  = Some suggestions' ->
  invariant suggestions'.
Proof using Type.
  intros Hsh Hi. unfold addRemaining.
  destruct (Nat.ltb (List.length suggestions) 6); [|now intros [= <-]].
  destruct (filterEntries _ _) as [remaining|] eqn:Ef; [|discriminate].
  intros [= <-]. apply setAdds_invariant; [exact Hi|].
  intros x Hx. apply in_firstn in Hx. apply (Permutation_in _ (Hsh _)) in Hx.
  destruct (filterEntries_spec _ _ _ Ef x Hx) as [Hin Ht].
  split; [exact Hin|]. unfold isRemaining in Ht.
  destruct (phrase (snd x)) as [p|] eqn:Ep; [|discriminate].
  destruct (isShown results p) eqn:E1; [discriminate|].
  destruct (sameText p query) eqn:E2; [discriminate|].
  now exists p.
Qed.

Lemma generateRelatedSuggestions_invariant (shuffle : list Entry -> list Entry)
      (suggestions : list Entry) :
  (forall l, Permutation (shuffle l) l) ->
  generateRelatedSuggestions shuffle buzzwords results query = Some suggestions ->
  List.length suggestions <= 6 /\ invariant suggestions.
Proof using Type.
  intros Hsh. unfold generateRelatedSuggestions.
  destruct (fold_left (addCategory _ _ _) _ _) as [s1|] eqn:E1; [|discriminate].
  destruct (fold_left (addPopular _ _ _) _ _) as [s2|] eqn:E2; [|discriminate].
  destruct (addRemaining _ _ _ _ _) as [s3|] eqn:E3; [|discriminate].
  intro H. assert (E : suggestions = firstn 6 s3) by congruence.
  subst suggestions. clear H.
  split; [apply firstn_le_length|].
  assert (H0 : invariant []) by (split; [constructor|intros x []]).
  assert (H1 : invariant s1).
  { revert E1. apply steps_invariant; [reflexivity| |exact H0].
    intros c s s'. apply addCategory_invariant. }
  assert (H2 : invariant s2).
  { revert E2. apply steps_invariant; [reflexivity| |exact H1].
    intros c s s'. apply addPopular_invariant. }
  destruct (addRemaining_invariant shuffle s2 s3 Hsh H2 E3) as [Hnd Hall].
  split.
  - rewrite <- firstn_map. now apply NoDup_firstn.
  - intros x Hx. apply Hall. now apply in_firstn in Hx.
Qed.

End RelatedSuggestions.

(** X13.  The suggestions shown beside the results, whatever the random
    arrangement: at most six entries of the dictionary, no entry twice, each
    with a phrase that is neither the phrase of a result shown nor the query,
    up to letter case. *)
Theorem generateRelatedSuggestions_fresh (shuffle : list Entry -> list Entry)
        (buzzwords : list Buzzword) (results : list SearchResult)
        (query : string) (suggestions : list Entry) :
  (forall l, Permutation (shuffle l) l) ->
  generateRelatedSuggestions shuffle buzzwords results query = Some suggestions ->
  List.length suggestions <= 6
  /\ NoDup (map fst suggestions)
  /\ forall x, In x suggestions ->
       nth_error buzzwords (fst x) = Some (snd x)
       /\ exists p, phrase (snd x) = Some p
                    /\ isShown results p = false
                    /\ sameText p query = false.
Proof.
  intros Hsh H.
  destruct (generateRelatedSuggestions_invariant _ _ _ _ _ Hsh H)
    as (Hlen & Hnd & Hall).
  split; [exact Hlen|]. split; [exact Hnd|].
  intros x Hx. destruct (Hall x Hx) as [Hin Hs].
  split; [now apply entries_nth|exact Hs].
Qed.

Lemma generateRelatedSuggestions_fresh_witness :
  exists suggestions,
    generateRelatedSuggestions
      (fun l => l) [synergy; takeThisOffline; leverageUntranslated; kpi]
      [exactResult synergy "synergy" "synergy"] "synergy"
    = Some suggestions
    /\ map fst suggestions = [2; 1; 3]
    /\ NoDup (map fst suggestions).
Proof.
  eexists. split; [vm_compute; reflexivity|]. split; [reflexivity|].
  apply (generateRelatedSuggestions_fresh
           (fun l => l) [synergy; takeThisOffline; leverageUntranslated; kpi]
           [exactResult synergy "synergy" "synergy"] "synergy").
  - intro l. reflexivity.
  - vm_compute. reflexivity.
Defined.

